(** * jira-cli: the ADF <-> markdown transcoder of [internal/markdown]

    A shallow embedding of [marshal.go] (the forward renderer and the
    preservation-marker writer) and [unmarshal.go] (the frontmatter
    splitter, the block parser, the list/table parsers, the marker reader
    and the inline parser), followed by the properties of the transcoder.

    Go strings are byte strings: they are modelled by [string], whose
    characters are the 256 byte values.  A Go [panic] is modelled by
    [None] in the renderer; the two loops of the parser that the source
    does not bound are modelled with fuel. *)

From Stdlib Require Import Ascii String ZArith List Lia Bool Arith.
From Stdlib Require Import SpecFloat DecimalString.
From stdpp Require Import gmap strings.
Import ListNotations.

Set Warnings "-register-all".

(* stdpp freezes string append under [simpl]; the proofs below unfold it. *)
#[local] Arguments String.append !_ _ / : simpl nomatch.

Local Open Scope stdpp_scope.
Local Open Scope Z_scope.
Local Open Scope nat_scope.

(** ** The parts of Go's [strings] package the transcoder uses *)

Module strings.

Definition LF : ascii := "010"%char.
Definition CR : ascii := "013"%char.
Definition TAB : ascii := "009"%char.
Definition VT : ascii := "011"%char.
Definition FF : ascii := "012"%char.
Definition SP : ascii := " "%char.
Definition DQ : ascii := "034"%char.

Definition str (c : ascii) : string := String c EmptyString.

(** [s[n:]] and [s[:n]] *)
Fixpoint drop (n : nat) (s : string) : string :=
  match n, s with
  | O, _ => s
  | S n', String _ r => drop n' r
  | S _, EmptyString => EmptyString
  end.

Fixpoint take (n : nat) (s : string) : string :=
  match n, s with
  | S n', String c r => String c (take n' r)
  | _, _ => EmptyString
  end.

(** [s[a:b]] *)
Definition slice (s : string) (a b : nat) : string := take (b - a) (drop a s).

Fixpoint rev_onto (s acc : string) : string :=
  match s with
  | EmptyString => acc
  | String c r => rev_onto r (String c acc)
  end.

Definition rev (s : string) : string := rev_onto s EmptyString.

Definition HasPrefix (s pre : string) : bool := String.prefix pre s.

Definition HasSuffix (s suf : string) : bool :=
  String.prefix (rev suf) (rev s).

Definition TrimPrefix (s pre : string) : string :=
  if HasPrefix s pre then drop (String.length pre) s else s.

Definition TrimSuffix (s suf : string) : string :=
  if HasSuffix s suf then take (String.length s - String.length suf) s else s.

(** Cut sets: every cut set of the source is made of ASCII characters,
    for which Go's rune-wise trimming is byte-wise trimming. *)
Fixpoint mem (c : ascii) (cutset : string) : bool :=
  match cutset with
  | EmptyString => false
  | String d r => Ascii.eqb c d || mem c r
  end.

Fixpoint TrimLeft (s cutset : string) : string :=
  match s with
  | EmptyString => EmptyString
  | String c r => if mem c cutset then TrimLeft r cutset else s
  end.

Definition TrimRight (s cutset : string) : string :=
  rev (TrimLeft (rev s) cutset).

Definition Trim (s cutset : string) : string :=
  TrimLeft (TrimRight s cutset) cutset.

(** [unicode.IsSpace] on the UTF-8 encoding.  The white-space runes are
    TAB, LF, VT, FF, CR, SPACE, U+0085, U+00A0, U+1680, U+2000..U+200A,
    U+2028, U+2029, U+202F, U+205F and U+3000.  [space3 a b c] recognises
    the three-byte encodings, [space2 a b] the two-byte ones. *)
Definition asciiSpace (c : ascii) : bool :=
  let n := nat_of_ascii c in
  (n =? 9) || (n =? 10) || (n =? 11) || (n =? 12) || (n =? 13) || (n =? 32).

Definition space2 (a b : ascii) : bool :=
  (nat_of_ascii a =? 194) &&
  ((nat_of_ascii b =? 133) || (nat_of_ascii b =? 160)).

Definition space3 (a b c : ascii) : bool :=
  let x := nat_of_ascii a in
  let y := nat_of_ascii b in
  let z := nat_of_ascii c in
  ((x =? 225) && (y =? 154) && (z =? 128)) ||
  ((x =? 226) && (y =? 128) &&
     (((128 <=? z) && (z <=? 138)) || (z =? 168) || (z =? 169) || (z =? 175))) ||
  ((x =? 226) && (y =? 129) && (z =? 159)) ||
  ((x =? 227) && (y =? 128) && (z =? 128)).

(** Dropping the white-space runes at the front, for recognisers of the
    one-, two- and three-byte encodings. *)
Fixpoint trimBy (sp1 : ascii -> bool) (sp2 : ascii -> ascii -> bool)
    (sp3 : ascii -> ascii -> ascii -> bool) (s : string) : string :=
  match s with
  | EmptyString => EmptyString
  | String a r1 =>
      if sp1 a then trimBy sp1 sp2 sp3 r1
      else match r1 with
           | String b r2 =>
               if sp2 a b then trimBy sp1 sp2 sp3 r2
               else match r2 with
                    | String c r3 => if sp3 a b c then trimBy sp1 sp2 sp3 r3 else s
                    | EmptyString => s
                    end
           | EmptyString => s
           end
  end.

(** [TrimLeftFunc(s, unicode.IsSpace)]: decode a rune at the front, drop
    it when it is white space. *)
Definition trimLeftSpace : string -> string := trimBy asciiSpace space2 space3.

(** [TrimRightFunc(s, unicode.IsSpace)] on the reversed string: the last
    rune is decoded backwards, so its bytes appear in reverse order. *)
Definition trimLeftSpaceRev : string -> string :=
  trimBy asciiSpace (fun a b => space2 b a) (fun a b c => space3 c b a).

Definition trimRightSpace (s : string) : string :=
  rev (trimLeftSpaceRev (rev s)).

Definition TrimSpace (s : string) : string :=
  trimRightSpace (trimLeftSpace s).

(** [strings.Split(s, sep)] for a one-byte separator: the pieces between
    the occurrences of [sep]; never the empty list. *)
Fixpoint Split (s : string) (sep : ascii) : list string :=
  match s with
  | EmptyString => [EmptyString]
  | String c r =>
      if Ascii.eqb c sep then EmptyString :: Split r sep
      else match Split r sep with
           | h :: t => String c h :: t
           | [] => [str c]
           end
  end.

(** [strings.SplitN(s, sep, 2)] is not needed by the transcoder proper. *)

Definition Join (elems : list string) (sep : string) : string :=
  String.concat sep elems.

(** [strings.Index]: the first position at which [substr] occurs. *)
Fixpoint Index (s substr : string) : option nat :=
  if String.prefix substr s then Some 0
  else match s with
       | EmptyString => None
       | String _ r => option_map S (Index r substr)
       end.

Fixpoint Repeat (s : string) (count : nat) : string :=
  match count with
  | O => EmptyString
  | S n => s +:+ Repeat s n
  end.

Definition len (s : string) : nat := String.length s.

(** [fmt.Sprintf("%d", n)] for a non-negative [n]. *)
Definition itoa (n : nat) : string :=
  NilEmpty.string_of_uint (Nat.to_uint n).

End strings.

Import strings.

(** ** The fragment of Go's [regexp] package the transcoder uses

    The patterns of the source are built from literal bytes, character
    classes, greedy repetition of a class, sequencing, alternation,
    capturing groups and the anchor [^].  Matching is leftmost-first with
    backtracking, as in Go (RE2 with Perl preference). *)

Module regexp.

Inductive class :=
| OneOf (chars : string)     (* [abc], \d, \s *)
| NoneOf (chars : string).   (* [^abc] *)

Definition in_class (c : ascii) (k : class) : bool :=
  match k with
  | OneOf chars => mem c chars
  | NoneOf chars => negb (mem c chars)
  end.

Inductive Regexp :=
| Lit (c : ascii)
| Cls (k : class)
| Rep (min : nat) (k : class)        (* k{min,}; k+ is Rep 1 k *)
| Seq (r1 r2 : Regexp)
| Alt (r1 r2 : Regexp)
| Grp (r : Regexp)
| Bol.

(** \d and \s of RE2: ASCII digits; TAB, LF, FF, CR and SPACE. *)
Definition digit : class := OneOf "0123456789".
Definition space : class :=
  OneOf (String TAB (String LF (String FF (String CR (String SP EmptyString))))).

(** A match in progress: the current offset, the rest of the input and
    the groups closed so far, as (start, end) offsets. *)
Definition caps := list (nat * nat).
Definition cont (R : Type) := nat -> string -> caps -> option R.

(** Greedy repetition: take one more byte of the class when possible and
    come back to stopping here only when what follows fails. *)
Fixpoint rep {R} (k : class) (min : nat) (pos : nat) (s : string)
    (cs : caps) (kont : cont R) : option R :=
  let stop := match min with O => kont pos s cs | S _ => None end in
  match s with
  | String c r =>
      if in_class c k then
        match rep k (Nat.pred min) (S pos) r cs kont with
        | Some x => Some x
        | None => stop
        end
      else stop
  | EmptyString => stop
  end.

Fixpoint run {R} (re : Regexp) (pos : nat) (s : string) (cs : caps)
    (kont : cont R) : option R :=
  match re with
  | Lit c =>
      match s with
      | String d r => if Ascii.eqb d c then kont (S pos) r cs else None
      | EmptyString => None
      end
  | Cls k =>
      match s with
      | String d r => if in_class d k then kont (S pos) r cs else None
      | EmptyString => None
      end
  | Rep min k => rep k min pos s cs kont
  | Seq r1 r2 => run r1 pos s cs (fun pos' s' cs' => run r2 pos' s' cs' kont)
  | Alt r1 r2 =>
      match run r1 pos s cs kont with
      | Some x => Some x
      | None => run r2 pos s cs kont
      end
  | Grp r => run r pos s cs (fun pos' s' cs' => kont pos' s' (cs' ++ [(pos, pos')]))
  | Bol => match pos with O => kont pos s cs | S _ => None end
  end.

(** The match that starts exactly at offset [pos], [s] being the input
    from [pos] on: [(start, end, groups)]. *)
Definition match_at (re : Regexp) (pos : nat) (s : string)
    : option (nat * nat * caps) :=
  run re pos s [] (fun e _ cs => Some (pos, e, cs)).

Fixpoint find_from (re : Regexp) (pos : nat) (s : string)
    : option (nat * nat * caps) :=
  match match_at re pos s with
  | Some m => Some m
  | None =>
      match s with
      | EmptyString => None
      | String _ r => find_from re (S pos) r
      end
  end.

(** [re.FindStringSubmatchIndex(s)] (and [re.FindStringIndex], which
    ignores the groups): the leftmost match, [None] for Go's [nil]. *)
Definition FindStringSubmatchIndex (re : Regexp) (s : string)
    : option (nat * nat * caps) :=
  find_from re 0 s.

Definition MatchString (re : Regexp) (s : string) : bool :=
  match FindStringSubmatchIndex re s with Some _ => true | None => false end.

End regexp.

Import regexp.

(** ** The document tree of [internal/jira/types.go] *)

(** A [float64], as the IEEE 754 datum it is. *)
Definition float64 := spec_float.

(** The dynamic values ([any]) met in attribute maps: what [encoding/json]
    decodes ([nil], [bool], [float64], [string], slices and maps) and what
    the parser itself stores ([int], [bool], [string]). *)
Inductive any :=
| ANil
| ABool (b : bool)
| AInt (n : Z)
| AFloat (f : float64)
| AString (s : string)
| ASlice (l : list any)
| AMap (m : gmap string any).

Record ADFMark := mkMark {
  MarkType : string;
  MarkAttrs : gmap string any
}.

Inductive ADFNode := mkNode {
  Type_ : string;
  Content : list ADFNode;
  Text : string;
  Attrs : gmap string any;
  Marks : list ADFMark
}.

(** Composite literals of the source leave the other fields at their zero
    value. *)
Definition node (ty : string) (content : list ADFNode) : ADFNode :=
  mkNode ty content "" ∅ [].
Definition textNode (text : string) (marks : list ADFMark) : ADFNode :=
  mkNode "text" [] text ∅ marks.
Definition mark (ty : string) : ADFMark := mkMark ty ∅.

(** [int(lf)] for a [float64]: truncation towards zero.  Go leaves the
    result unspecified when the value does not fit the integer type
    (and for NaN and the infinities): [None]. *)
Definition float_to_int (f : float64) : option Z :=
  match f with
  | S754_zero _ => Some 0%Z
  | S754_finite sign m e =>
      let mag := (if (0 <=? e)%Z then Z.pos m * 2 ^ e else Z.pos m / 2 ^ (- e))%Z in
      let v := (if sign then - mag else mag)%Z in
      if ((- 2 ^ 63 <=? v) && (v <? 2 ^ 63))%Z then Some v else None
  | _ => None
  end.

Definition float_of_pos (p : positive) : float64 := S754_finite false p 0.

(** ** [encoding/base64]: [StdEncoding], RFC 4648 with padding *)

Module base64.

Definition encodeStd : string :=
  "ABCDEFGHIJKLMNOPQRSTUVWXYZabcdefghijklmnopqrstuvwxyz0123456789+/".

Definition enc (i : nat) : ascii :=
  match String.get i encodeStd with Some c => c | None => "="%char end.

Definition dec (c : ascii) : option nat :=
  let n := nat_of_ascii c in
  if (65 <=? n) && (n <=? 90) then Some (n - 65)
  else if (97 <=? n) && (n <=? 122) then Some (n - 71)
  else if (48 <=? n) && (n <=? 57) then Some (n + 4)
  else if n =? 43 then Some 62
  else if n =? 47 then Some 63
  else None.

Definition pad : ascii := "="%char.

Fixpoint EncodeToString (src : string) : string :=
  match src with
  | EmptyString => EmptyString
  | String a EmptyString =>
      let x := nat_of_ascii a in
      String (enc (x / 4)) (String (enc (x mod 4 * 16)) (String pad (String pad EmptyString)))
  | String a (String b EmptyString) =>
      let x := nat_of_ascii a in
      let y := nat_of_ascii b in
      String (enc (x / 4)) (String (enc (x mod 4 * 16 + y / 16))
        (String (enc (y mod 16 * 4)) (String pad EmptyString)))
  | String a (String b (String c r)) =>
      let x := nat_of_ascii a in
      let y := nat_of_ascii b in
      let z := nat_of_ascii c in
      String (enc (x / 4)) (String (enc (x mod 4 * 16 + y / 16))
        (String (enc (y mod 16 * 4 + z / 64)) (String (enc (z mod 64))
           (EncodeToString r))))
  end.

(** The decoder skips CR and LF wherever they occur. *)
Fixpoint stripNewlines (s : string) : string :=
  match s with
  | EmptyString => EmptyString
  | String c r =>
      if Ascii.eqb c CR || Ascii.eqb c LF then stripNewlines r
      else String c (stripNewlines r)
  end.

Definition byte1 (i j : nat) : ascii := ascii_of_nat (i * 4 + j / 16).
Definition byte2 (j k : nat) : ascii := ascii_of_nat (j mod 16 * 16 + k / 4).
Definition byte3 (k l : nat) : ascii := ascii_of_nat (k mod 4 * 64 + l).

(** Quanta of four characters; padding only closes the input; the unused
    low bits of a padded quantum are not checked (the encoding is not
    [Strict]). *)
Fixpoint decodeQuanta (s : string) : option string :=
  match s with
  | EmptyString => Some EmptyString
  | String a (String b (String c (String d r))) =>
      match dec a, dec b with
      | Some i, Some j =>
          match dec c, dec d, r with
          | Some k, Some l, _ =>
              match decodeQuanta r with
              | Some t => Some (String (byte1 i j) (String (byte2 j k) (String (byte3 k l) t)))
              | None => None
              end
          | Some k, None, EmptyString =>
              if Ascii.eqb d pad
              then Some (String (byte1 i j) (String (byte2 j k) EmptyString))
              else None
          | None, None, EmptyString =>
              if Ascii.eqb c pad && Ascii.eqb d pad
              then Some (String (byte1 i j) EmptyString)
              else None
          | _, _, _ => None
          end
      | _, _ => None
      end
  | _ => None
  end.

(** [StdEncoding.DecodeString]; [None] is a [CorruptInputError]. *)
Definition DecodeString (s : string) : option string :=
  decodeQuanta (stripNewlines s).

End base64.

(** ** [encoding/json], as far as the transcoder depends on it

    The marker codec hands a node to [json.Marshal] and the decoded bytes
    to [json.Unmarshal]; both belong to Go's library and are parameters
    here.  [None] stands for a returned error. *)

Class Json := {
  json_Marshal : ADFNode -> option string;
  json_Unmarshal : string -> option ADFNode
}.

(** ** marshal.go: the forward renderer *)

Notation "a =s b" := (String.eqb a b) (at level 70, no associativity).

Definition preserveStart : string := "<!-- PRESERVED:".
Definition preserveData : string := "<!-- data:".
Definition preserveEnd : string := "<!-- /PRESERVED -->".

Definition preservedDescriptions : gmap string string :=
  list_to_map [
    ("mediaSingle", "Inline image");
    ("mediaGroup", "Image group");
    ("media", "Attachment");
    ("panel", "Info/warning panel");
    ("expand", "Expand/collapse section");
    ("nestedExpand", "Nested expand section");
    ("extension", "JIRA extension");
    ("bodiedExtension", "JIRA macro");
    ("inlineExtension", "Inline JIRA macro");
    ("multiBodiedExtension", "Multi-body JIRA macro");
    ("layoutSection", "Layout columns");
    ("layoutColumn", "Layout column");
    ("decisionList", "Decision list");
    ("decisionItem", "Decision item");
    ("taskList", "Task checklist");
    ("taskItem", "Task checkbox");
    ("status", "Status lozenge");
    ("date", "Date");
    ("placeholder", "Placeholder")
  ].

(** The tags of the [case] that calls [writePreservedMarker]. *)
Definition preservedTags : list string :=
  [ "mediaGroup"; "mediaSingle"; "media"; "panel"; "expand";
    "nestedExpand"; "extension"; "bodiedExtension"; "inlineExtension";
    "layoutSection"; "layoutColumn"; "decisionList"; "decisionItem";
    "taskList"; "taskItem"; "status"; "date"; "placeholder";
    "multiBodiedExtension" ].


Definition isOneOf (tag : string) (tags : list string) : bool :=
  existsb (String.eqb tag) tags.

(** [m[key]] followed by the type assertion [.(string)], with the zero
    value when either fails. *)
Definition attrString (attrs : gmap string any) (key : string) : string :=
  match attrs !! key with
  | Some (AString s) => s
  | _ => ""
  end.

Definition applyMark (text : string) (m : ADFMark) : string :=
  let ty := MarkType m in
  if ty =s "strong" then "**" +:+ text +:+ "**"
  else if ty =s "em" then "*" +:+ text +:+ "*"
  else if ty =s "code" then "`" +:+ text +:+ "`"
  else if ty =s "strike" then "~~" +:+ text +:+ "~~"
  else if ty =s "link" then
    "[" +:+ text +:+ "](" +:+ attrString (MarkAttrs m) "href" +:+ ")"
  else if ty =s "underline" then "_" +:+ text +:+ "_"
  else text.

Definition applyMarks (text : string) (marks : list ADFMark) : string :=
  fold_left applyMark marks text.

Definition indentPrefix (prefix : string) : string :=
  Repeat " " (len prefix).

Fixpoint padRow_loop (n : nat) (row : list string) : list string :=
  match n with
  | O => row
  | S n' => padRow_loop n' (row ++ [""])
  end.

Definition padRow (row : list string) (cols : nat) : list string :=
  padRow_loop (cols - length row) row.

(** The loop that strips outer bold markers from a header cell:
    [for HasPrefix(text, "**") && HasSuffix(text, "**") && len(text) > 4]
    with body [text = text[2 : len(text)-2]].  Every turn shortens [text],
    so [len text] turns are enough. *)
Definition boldWrapped (text : string) : bool :=
  HasPrefix text "**" && HasSuffix text "**" && (4 <? len text).

Definition unwrapBold (text : string) : string := slice text 2 (len text - 2).

Fixpoint stripBold_loop (fuel : nat) (text : string) : string :=
  match fuel with
  | O => text
  | S fuel' =>
      if boldWrapped text then stripBold_loop fuel' (unwrapBold text) else text
  end.

Definition stripBold (text : string) : string :=
  stripBold_loop (len text) text.

(** Writing to a [strings.Builder] only appends: a rendering function
    returns what it appends, [None] when it panics. *)
Fixpoint concatAll (l : list (option string)) : option string :=
  match l with
  | [] => Some ""
  | None :: _ => None
  | Some x :: r =>
      match concatAll r with
      | Some y => Some (x +:+ y)
      | None => None
      end
  end.

Fixpoint sequence {A} (l : list (option A)) : option (list A) :=
  match l with
  | [] => Some []
  | None :: _ => None
  | Some x :: r =>
      match sequence r with
      | Some y => Some (x :: y)
      | None => None
      end
  end.

(** The elements that a loop did not skip with [continue]. *)
Fixpoint keep {A} (l : list (option A)) : list A :=
  match l with
  | [] => []
  | Some x :: r => x :: keep r
  | None :: r => keep r
  end.

Definition mapi {A B} (f : nat -> A -> B) : nat -> list A -> list B :=
  fix go (i : nat) (l : list A) : list B :=
    match l with
    | [] => []
    | x :: r => f i x :: go (S i) r
    end.

Definition headingLevel (attrs : gmap string any) : option Z :=
  match attrs !! "level" with
  | Some (AFloat lf) => float_to_int lf
  | _ => Some 2%Z
  end.

Definition tableLine (cells : list string) : string :=
  "| " +:+ Join cells " | " +:+ " |" +:+ str LF.

(** The printing half of [renderTable], from the rows of cell texts on. *)
Definition writeTable (rows : list (list string)) : string :=
  match rows with
  | [] => ""
  | first :: rest =>
      let maxCols := fold_left (fun m row => if m <? length row then length row else m) rows 0 in
      tableLine (padRow first maxCols)
      +:+ tableLine (repeat "---" maxCols)
      +:+ String.concat "" (map (fun row => tableLine (padRow row maxCols)) rest)
      +:+ str LF
  end.

(** The description written on the opening line of a marker: the entry
    of the table, the tag itself when the table has none. *)
Definition description (n : ADFNode) : string :=
  let desc := default "" (preservedDescriptions !! Type_ n) in
  if desc =s "" then Type_ n else desc.

Section Marshal.
Context `{J : Json}.

Definition writePreservedMarker (n : ADFNode) : string :=
  let desc := description n in
  match json_Marshal n with
  | None =>
      "<!-- PRESERVED: " +:+ desc +:+ " — Could not serialize for round-trip -->" +:+ str LF
  | Some jsonBytes =>
      let encoded := base64.EncodeToString jsonBytes in
      preserveStart +:+ " " +:+ desc
        +:+ " — Do not edit this block; it is restored on push to JIRA. -->" +:+ str LF
        +:+ preserveData +:+ encoded +:+ " -->" +:+ str LF
        +:+ preserveEnd
        +:+ str LF
  end.

(** The text of one table cell: the inline rendering of the children of
    each child of the cell, trimmed, and for a header cell stripped of
    outer bold markers. *)
Definition cellInline (rn : ADFNode -> string -> option string) (cell : ADFNode)
    : option string :=
  concatAll (map (fun para =>
    concatAll (map (fun c => rn c "") (Content para))) (Content cell)).

Definition cellText (rn : ADFNode -> string -> option string) (cell : ADFNode)
    : option string :=
  match cellInline rn cell with
  | Some buf =>
      let text := TrimSpace buf in
      Some (if Type_ cell =s "tableHeader" then stripBold text else text)
  | None => None
  end.

(** [renderTable]; the flag [isHeaderRow] of the source is written and
    never read for the output, and is left out. *)
Definition renderTable_with (rn : ADFNode -> string -> option string)
    (content : list ADFNode) : option string :=
  match content with
  | [] => Some ""
  | _ =>
      match sequence (keep (map (fun row =>
               if Type_ row =s "tableRow"
               then Some (sequence (map (cellText rn) (Content row)))
               else None) content)) with
      | Some rows => Some (writeTable rows)
      | None => None
      end
  end.

Fixpoint renderNode (n : ADFNode) (listPrefix : string) {struct n} : option string :=
  let ty := Type_ n in
  if ty =s "doc" then
    concatAll (map (fun c => renderNode c "") (Content n))
  else if ty =s "paragraph" then
    match concatAll (map (fun c => renderNode c "") (Content n)) with
    | Some inner => Some (inner +:+ str LF +:+ str LF)
    | None => None
    end
  else if ty =s "heading" then
    match headingLevel (Attrs n) with
    | Some level =>
        if (level <? 0)%Z then None
        else
          match concatAll (map (fun c => renderNode c "") (Content n)) with
          | Some inner =>
              Some (Repeat "#" (Z.to_nat level) +:+ " " +:+ inner +:+ str LF +:+ str LF)
          | None => None
          end
    | None => None
    end
  else if ty =s "bulletList" then
    concatAll (map (fun c => renderNode c "- ") (Content n))
  else if ty =s "orderedList" then
    concatAll (mapi (fun i c => renderNode c (itoa (i + 1) +:+ ". ")) 0 (Content n))
  else if ty =s "listItem" then
    concatAll (mapi (fun i child =>
      if (i =? 0) && (Type_ child =s "paragraph") then
        match concatAll (map (fun c => renderNode c "") (Content child)) with
        | Some inner => Some (listPrefix +:+ inner +:+ str LF)
        | None => None
        end
      else if (Type_ child =s "bulletList") || (Type_ child =s "orderedList") then
        let indented := indentPrefix listPrefix in
        concatAll (mapi (fun j nested =>
          let prefix :=
            if Type_ child =s "orderedList" then itoa (j + 1) +:+ ". " else "- " in
          renderNode nested (indented +:+ prefix)) 0 (Content child))
      else renderNode child listPrefix) 0 (Content n))
  else if ty =s "codeBlock" then
    Some ("```" +:+ attrString (Attrs n) "language" +:+ str LF
          +:+ String.concat "" (map Text (Content n))
          +:+ str LF +:+ "```" +:+ str LF +:+ str LF)
  else if ty =s "blockquote" then
    match concatAll (map (fun c => renderNode c "") (Content n)) with
    | Some inner =>
        let lines := Split (TrimRight inner (str LF)) LF in
        Some (String.concat "" (map (fun line => "> " +:+ line +:+ str LF) lines)
              +:+ str LF)
    | None => None
    end
  else if ty =s "rule" then Some ("---" +:+ str LF +:+ str LF)
  else if ty =s "table" then renderTable_with renderNode (Content n)
  else if ty =s "text" then Some (applyMarks (Text n) (Marks n))
  else if ty =s "hardBreak" then Some (str LF)
  else if ty =s "mention" then Some ("@" +:+ attrString (Attrs n) "text")
  else if ty =s "inlineCard" then
    Some ("[link](" +:+ attrString (Attrs n) "url" +:+ ")")
  else if ty =s "emoji" then
    let text := attrString (Attrs n) "text" in
    Some (if text =s "" then attrString (Attrs n) "shortName" else text)
  else if isOneOf ty preservedTags then Some (writePreservedMarker n)
  else
    (* default: best effort, render the children *)
    concatAll (map (fun c => renderNode c "") (Content n)).


Definition renderInlineChildren (n : ADFNode) : option string :=
  concatAll (map (fun c => renderNode c "") (Content n)).

Definition renderTable (n : ADFNode) : option string :=
  renderTable_with renderNode (Content n).

(** [renderADF] of a non-nil node. *)
Definition renderADF (n : ADFNode) : option string := renderNode n "".

End Marshal.

(** ** unmarshal.go: the frontmatter splitter and the reverse parser *)

Definition newlines : string := String LF (String CR EmptyString).

(** [splitFrontmatter]; [inr] carries the message of the returned error. *)
Definition splitFrontmatter (content : string) : string * string + string :=
  let content := TrimSpace content in
  if negb (HasPrefix content "---")
  then inr "no YAML frontmatter found (must start with ---)"
  else
    let rest := drop 3 content in
    let rest := TrimLeft rest newlines in
    match Index rest (String LF "---") with
    | None => inr "no closing --- for frontmatter"
    | Some idx =>
        let fm := take idx rest in
        let body := drop (idx + 4) rest in
        let body := TrimLeft body newlines in
        inl (fm, body)
    end.

(** *** Inline parsing *)

Definition plus (k : class) : Regexp := Rep 1 k.

(** [\[([^\]]+)\]\(([^)]+)\)] *)
Definition linkRe : Regexp :=
  Seq (Lit "[") (Seq (Grp (plus (NoneOf "]"))) (Seq (Lit "]") (Seq (Lit "(")
    (Seq (Grp (plus (NoneOf ")"))) (Lit ")"))))).
(** [\*\*([^*]+)\*\*] *)
Definition boldRe : Regexp :=
  Seq (Lit "*") (Seq (Lit "*") (Seq (Grp (plus (NoneOf "*"))) (Seq (Lit "*") (Lit "*")))).
(** [~~([^~]+)~~] *)
Definition strikeRe : Regexp :=
  Seq (Lit "~") (Seq (Lit "~") (Seq (Grp (plus (NoneOf "~"))) (Seq (Lit "~") (Lit "~")))).
(** [`([^`]+)`] *)
Definition codeRe : Regexp :=
  Seq (Lit "`") (Seq (Grp (plus (NoneOf "`"))) (Lit "`")).
(** [\*([^*]+)\*] *)
Definition italicRe : Regexp :=
  Seq (Lit "*") (Seq (Grp (plus (NoneOf "*"))) (Lit "*")).

(** An entry of the [patterns] table: the expression and [markFn], which
    receives the matched strings, whole match first. *)
Record pattern := mkPattern {
  re : Regexp;
  markFn : list string -> list ADFNode
}.

Definition sub (m : list string) (j : nat) : string := default "" (m !! j).

Definition patterns : list pattern :=
  [ mkPattern linkRe (fun m =>
      [textNode (sub m 1) [mkMark "link" {[ "href" := AString (sub m 2) ]}]]);
    mkPattern boldRe (fun m => [textNode (sub m 1) [mark "strong"]]);
    mkPattern strikeRe (fun m => [textNode (sub m 1) [mark "strike"]]);
    mkPattern codeRe (fun m => [textNode (sub m 1) [mark "code"]]);
    mkPattern italicRe (fun m => [textNode (sub m 1) [mark "em"]]) ].

(** The state of the scan over [patterns]: [earliestIdx] and, once a
    pattern has matched, [earliestPattern] with [earliestLoc]. *)
Definition scan := (nat * option (nat * (nat * nat * caps)))%type.

Definition tryPattern (remaining : string) (st : scan) (pi : nat) (p : pattern) : scan :=
  match FindStringSubmatchIndex (re p) remaining with
  | Some (s, e, cs) =>
      if s <? fst st then (s, Some (pi, (s, e, cs))) else st
  | None => st
  end.

Fixpoint scanPatterns (remaining : string) (st : scan) (pi : nat) (ps : list pattern) : scan :=
  match ps with
  | [] => st
  | p :: r => scanPatterns remaining (tryPattern remaining st pi p) (S pi) r
  end.

Definition earliest (remaining : string) : option (nat * (nat * nat * caps)) :=
  snd (scanPatterns remaining (len remaining, None) 0 patterns).

Definition matchStrings (remaining : string) (loc : nat * nat * caps) : list string :=
  let '(s, e, cs) := loc in
  map (fun ab => slice remaining (fst ab) (snd ab)) ((s, e) :: cs).

Definition markNodes (pi : nat) (m : list string) : list ADFNode :=
  match patterns !! pi with
  | Some p => markFn p m
  | None => []
  end.

(** The loop [for remaining != ""] of [parseInline].  A match is never
    empty, so each turn shortens [remaining]. *)
Fixpoint parseInline_loop (fuel : nat) (remaining : string) (nodes : list ADFNode)
    : list ADFNode :=
  match fuel with
  | O => nodes
  | S fuel' =>
      if remaining =s "" then nodes
      else
        match earliest remaining with
        | None => nodes ++ [textNode remaining []]
        | Some (pi, (s, e, cs)) =>
            let nodes :=
              if 0 <? s then nodes ++ [textNode (take s remaining) []] else nodes in
            let nodes := nodes ++ markNodes pi (matchStrings remaining (s, e, cs)) in
            parseInline_loop fuel' (drop e remaining) nodes
        end
  end.

Definition parseInline (text : string) : list ADFNode :=
  if text =s "" then [textNode "" []]
  else
    match parseInline_loop (S (len text)) text [] with
    | [] => [textNode text []]
    | nodes => nodes
    end.

(** *** Blocks *)

Fixpoint countHashes (s : string) : nat :=
  match s with
  | String c r => if Ascii.eqb c "#" then S (countHashes r) else 0
  | EmptyString => 0
  end.

Definition parseHeading (line : string) : nat * string :=
  if negb (HasPrefix line "#") then (0, "")
  else
    let level := countHashes line in
    if 6 <? level then (0, "")
    else (level, TrimSpace (drop level line)).

(** [^\d+\.\s], [^[-*]\s], [^(\s{2,}|\t)[-*]\s] and [^(\s{2,}|\t)\d+\.\s] *)
Definition ordRe : Regexp :=
  Seq Bol (Seq (plus digit) (Seq (Lit ".") (Cls space))).
Definition listRe : Regexp :=
  Seq Bol (Seq (Cls (OneOf "-*")) (Cls space)).
Definition indent : Regexp := Grp (Alt (Rep 2 space) (Lit TAB)).
Definition indentedBulletRe : Regexp :=
  Seq Bol (Seq indent (Seq (Cls (OneOf "-*")) (Cls space))).
Definition indentedOrdRe : Regexp :=
  Seq Bol (Seq indent (Seq (plus digit) (Seq (Lit ".") (Cls space)))).

Fixpoint takeWhile {A} (p : A -> bool) (l : list A) : list A :=
  match l with
  | x :: r => if p x then x :: takeWhile p r else []
  | [] => []
  end.

Definition lineAt (lines : list string) (i : nat) : string := default "" (lines !! i).

(** [parseList]; the call on the sub-lines makes the recursion
    non-structural, so it takes fuel and returns [None] when it runs out. *)
Fixpoint parseList_loop (fuel : nat) (lines : list string) (i : nat) (ordered : bool)
    (items : list ADFNode) : option (list ADFNode * nat) :=
  match fuel with
  | O => None
  | S fuel' =>
      if length lines <=? i then Some (items, i)
      else
        let line := lineAt lines i in
        match FindStringSubmatchIndex (if ordered then ordRe else listRe) line with
        | None => Some (items, i)
        | Some (_, e, _) =>
            let text := drop e line in
            let para := node "paragraph" (parseInline text) in
            let i := i + 1 in
            if (i <? length lines) && MatchString indentedBulletRe (lineAt lines i) then
              let sub := takeWhile (MatchString indentedBulletRe) (skipn i lines) in
              let subLines := map (fun l => TrimLeft l (String SP (String TAB ""))) sub in
              match parseList_loop fuel' subLines 0 false [] with
              | Some (subItems, _) =>
                  parseList_loop fuel' lines (i + length sub) ordered
                    (items ++ [node "listItem" [para; node "bulletList" subItems]])
              | None => None
              end
            else if (i <? length lines) && MatchString indentedOrdRe (lineAt lines i) then
              let sub := takeWhile (MatchString indentedOrdRe) (skipn i lines) in
              let subLines := map (fun l => TrimLeft l (String SP (String TAB ""))) sub in
              match parseList_loop fuel' subLines 0 true [] with
              | Some (subItems, _) =>
                  parseList_loop fuel' lines (i + length sub) ordered
                    (items ++ [node "listItem" [para; node "orderedList" subItems]])
              | None => None
              end
            else
              parseList_loop fuel' lines i ordered (items ++ [node "listItem" [para]])
        end
  end.

Definition parseList (fuel : nat) (lines : list string) (i : nat) (ordered : bool)
    : option (list ADFNode * nat) :=
  parseList_loop fuel lines i ordered [].

Definition splitTableRow (line : string) : list string :=
  let line := TrimSpace line in
  let line := TrimPrefix line "|" in
  let line := TrimSuffix line "|" in
  map TrimSpace (Split line "|").

Definition buildTableRow (cells : list string) (isHeader : bool) : ADFNode :=
  let cellType := if isHeader then "tableHeader" else "tableCell" in
  node "tableRow"
    (map (fun text => node cellType [node "paragraph" (parseInline text)]) cells).

Definition tableAttrs : gmap string any :=
  {[ "isNumberColumnEnabled" := ABool false; "layout" := AString "default" ]}.

(** The separator test on the second table line. *)
Definition isSeparatorLine (line : string) : bool :=
  forallb (fun cell => Trim (TrimSpace cell) ":-" =s "") (splitTableRow line).

Definition parseMarkdownTable (lines : list string) (i : nat) : option ADFNode * nat :=
  let start := i in
  let block := takeWhile (fun l => HasPrefix (TrimSpace l) "|") (skipn i lines) in
  let tableLines := map TrimSpace block in
  let i := i + length block in
  match tableLines with
  | first :: second :: rest =>
      let rows :=
        if isSeparatorLine second
        then buildTableRow (splitTableRow first) true
               :: map (fun line => buildTableRow (splitTableRow line) false) rest
        else map (fun line => buildTableRow (splitTableRow line) false) tableLines in
      (Some (mkNode "table" rows "" tableAttrs []), i)
  | _ => (None, start + 1)
  end.

Section Unmarshal.
Context `{J : Json}.

(** [parsePreservedMarker]: the decoded node and the index after the
    block, or [None] (Go's [nil]) with the index after the first line. *)
Definition parsePreservedMarker (lines : list string) (startIdx : nat)
    : option ADFNode * nat :=
  if length lines <=? startIdx + 2 then (None, startIdx + 1)
  else
    let dataLine := TrimSpace (lineAt lines (startIdx + 1)) in
    let closeLine := TrimSpace (lineAt lines (startIdx + 2)) in
    if negb (HasPrefix dataLine preserveData) || negb (closeLine =s preserveEnd)
    then (None, startIdx + 1)
    else
      let encoded := TrimPrefix dataLine preserveData in
      let encoded := TrimSuffix encoded " -->" in
      let encoded := TrimSpace encoded in
      match base64.DecodeString encoded with
      | None => (None, startIdx + 1)
      | Some decoded =>
          match json_Unmarshal decoded with
          | None => (None, startIdx + 1)
          | Some n => (Some n, startIdx + 3)
          end
      end.

Definition isRule (line : string) : bool :=
  let t := TrimSpace line in
  (t =s "---") || (t =s "***") || (t =s "___").

Definition isQuoteLine (l : string) : bool :=
  HasPrefix l "> " || (TrimSpace l =s ">").

(** The conditions that end the paragraph loop. *)
Definition paraStop (l : string) : bool :=
  let trimmed := TrimSpace l in
  (trimmed =s "")
  || (HasPrefix l "#" || HasPrefix l "```" || HasPrefix l "> " || HasPrefix l "- "
      || HasPrefix l "* " || (trimmed =s "---") || (trimmed =s "***"))
  || HasPrefix trimmed preserveStart
  || HasPrefix trimmed "|"
  || MatchString ordRe l.

Definition docNode (content : list ADFNode) : ADFNode :=
  mkNode "doc" content "" {[ "version" := AInt 1 ]} [].

(** The loop [for i < len(lines)] of [markdownToADF], [content] being
    [doc.Content].  Nothing in the source bounds the number of turns:
    the loop takes fuel and returns [None] when it runs out. *)
Fixpoint markdownToADF_loop (fuel : nat) (lines : list string) (i : nat)
    (content : list ADFNode) {struct fuel} : option (list ADFNode) :=
  match fuel with
  | O => None
  | S fuel' =>
    if length lines <=? i then Some content
    else
      let line := lineAt lines i in
      if TrimSpace line =s "" then markdownToADF_loop fuel' lines (i + 1) content
      else
        match (if HasPrefix (TrimSpace line) preserveStart
               then parsePreservedMarker lines i else (None, i)) with
        | (Some n, endI) => markdownToADF_loop fuel' lines endI (content ++ [n])
        | (None, _) =>
          if isRule line then
            markdownToADF_loop fuel' lines (i + 1) (content ++ [node "rule" []])
          else if 0 <? fst (parseHeading line) then
            let (headingLevel, text) := parseHeading line in
            markdownToADF_loop fuel' lines (i + 1)
              (content ++ [mkNode "heading" (parseInline text) ""
                             {[ "level" := AInt (Z.of_nat headingLevel) ]} []])
          else if HasPrefix (TrimSpace line) "```" then
            let lang := TrimSpace (TrimPrefix (TrimSpace line) "```") in
            let codeLines :=
              takeWhile (fun l => negb (TrimSpace l =s "```")) (skipn (i + 1) lines) in
            let i := i + 1 + length codeLines in
            let i := if i <? length lines then i + 1 else i in
            let codeText := Join codeLines (str LF) in
            let attrs : gmap string any :=
              if lang =s "" then ∅ else {[ "language" := AString lang ]} in
            markdownToADF_loop fuel' lines i
              (content ++ [mkNode "codeBlock" [textNode codeText []] "" attrs []])
          else if HasPrefix line "> " || (line =s ">") then
            let quoted := takeWhile isQuoteLine (skipn i lines) in
            let quoteLines :=
              map (fun l => TrimPrefix (TrimPrefix l "> ") ">") quoted in
            let quoteText := Join quoteLines (str LF) in
            match markdownToADF_loop fuel' (Split quoteText LF) 0 [] with
            | Some inner =>
                markdownToADF_loop fuel' lines (i + length quoted)
                  (content ++ [node "blockquote" inner])
            | None => None
            end
          else if HasPrefix line "- " || HasPrefix line "* " then
            match parseList fuel' lines i false with
            | Some (items, newI) =>
                markdownToADF_loop fuel' lines newI (content ++ [node "bulletList" items])
            | None => None
            end
          else if MatchString ordRe line then
            match parseList fuel' lines i true with
            | Some (items, newI) =>
                markdownToADF_loop fuel' lines newI (content ++ [node "orderedList" items])
            | None => None
            end
          else
            match (if HasPrefix (TrimSpace line) "|"
                   then parseMarkdownTable lines i else (None, i)) with
            | (Some tableNode, newI) =>
                markdownToADF_loop fuel' lines newI (content ++ [tableNode])
            | (None, _) =>
                let paraLines := takeWhile (fun l => negb (paraStop l)) (skipn i lines) in
                let i := i + length paraLines in
                match paraLines with
                | [] => markdownToADF_loop fuel' lines i content
                | _ =>
                    let text := Join paraLines " " in
                    markdownToADF_loop fuel' lines i
                      (content ++ [node "paragraph" (parseInline text)])
                end
            end
        end
  end.

(** [markdownToADF] with [fuel] turns of the loops at its disposal; the
    source returns a nil error on every path that returns. *)
Definition markdownToADF (fuel : nat) (md : string) : option ADFNode :=
  match markdownToADF_loop fuel (Split md LF) 0 [] with
  | Some content => Some (docNode content)
  | None => None
  end.

Definition BodyToADF := markdownToADF.

End Unmarshal.

(** * Vocabulary of the properties *)

(** A JSON codec for the examples: it writes and reads the nodes that
    carry a tag and nothing else, as [{"type":"tag"}]. *)
Definition tagOnlyMarshal (n : ADFNode) : option string :=
  match Content n, Text n, map_to_list (Attrs n), Marks n with
  | [], EmptyString, [], [] =>
      Some ("{" +:+ str DQ +:+ "type" +:+ str DQ +:+ ":" +:+ str DQ +:+ Type_ n
            +:+ str DQ +:+ "}")
  | _, _, _, _ => None
  end.

Definition tagOnlyUnmarshal (js : string) : option ADFNode :=
  let opening := "{" +:+ str DQ +:+ "type" +:+ str DQ +:+ ":" +:+ str DQ in
  let closing := str DQ +:+ "}" in
  if HasPrefix js opening && HasSuffix js closing
     && (len opening + len closing <=? len js)
  then Some (node (TrimSuffix (TrimPrefix js opening) closing) [])
  else None.

Definition tagOnlyJson : Json :=
  {| json_Marshal := tagOnlyMarshal; json_Unmarshal := tagOnlyUnmarshal |}.

(** The mark types the [patterns] table can produce. *)
Definition inlineMarkTypes : list string := ["link"; "strong"; "strike"; "code"; "em"].

(** A node as [parseInline] builds them: a text node with no mark, or with
    the one mark of the pattern that matched. *)
Definition inlineNode (n : ADFNode) : Prop :=
  Type_ n = "text" /\ Content n = [] /\
  (Marks n = [] \/ exists m, Marks n = [m] /\ In (MarkType m) inlineMarkTypes).

(** The text of a document given by its lines. *)
Definition lines_of (ls : list string) : string := Join ls (str LF).

(** A pipe row on its own, a marker opening that is not followed by a
    data line, and a line of seven [#]. *)
Definition loneTableRow : string := "| a |".
Definition brokenMarker : string :=
  lines_of ["<!-- PRESERVED: Inline image -->"; "hello"; "<!-- /PRESERVED -->"].
Definition sevenHashes : string := "#######".

(** A list item made of one plain paragraph, followed by [more]. *)
Definition item (text : string) (more : list ADFNode) : ADFNode :=
  node "listItem" (node "paragraph" [textNode text []] :: more).

(** The deepest chain of lists inside lists. *)
Fixpoint listDepth (n : ADFNode) : nat :=
  let below := fold_right Nat.max 0 (map listDepth (Content n)) in
  if (Type_ n =s "bulletList") || (Type_ n =s "orderedList") then S below else below.

Definition threeLevels : ADFNode :=
  node "doc" [node "bulletList"
    [item "a" [node "bulletList" [item "b" [node "bulletList" [item "c" []]]]]]].

Definition threeLevelsMarkdown : string :=
  lines_of ["- a"; "  - b"; "    - c"; ""].



(** The closing delimiter as [splitFrontmatter] searches it. *)
Definition closing : string := String LF "---".

Fixpoint allIn (s cutset : string) : bool :=
  match s with
  | EmptyString => true
  | String c r => mem c cutset && allIn r cutset
  end.

Definition startsIn (s cutset : string) : bool :=
  match s with
  | EmptyString => false
  | String c _ => mem c cutset
  end.

(** What the splitter accepts: [---], line breaks, the metadata block up
    to the first line break followed by [---], and a tail whose leading
    line breaks are not part of the body. *)
Definition FrontmatterShape (content fm body : string) : Prop :=
  exists nls tail,
    content = "---" +:+ nls +:+ fm +:+ closing +:+ tail /\
    allIn nls newlines = true /\
    startsIn (fm +:+ closing +:+ tail) newlines = false /\
    (forall k, k < len fm -> HasPrefix (drop k (fm +:+ closing +:+ tail)) closing = false) /\
    body = TrimLeft tail newlines.

(** The condition of the specification: the first line is exactly [---]
    and a later line is exactly [---]. *)
Definition delimitedByLines (content : string) : bool :=
  match Split content LF with
  | first :: rest => (first =s "---") && existsb (String.eqb "---") rest
  | [] => false
  end.

(** A ticket file as [Marshal] lays it out. *)
Definition ticketFile : string :=
  lines_of ["---"; "key: PROJ-1"; "title: T"; "---"; ""; "# PROJ-1: T"; ""].

(** The width in bytes of the white-space rune at the front of [s], 0
    when there is none. *)
Definition widthBy (sp1 : ascii -> bool) (sp2 : ascii -> ascii -> bool)
    (sp3 : ascii -> ascii -> ascii -> bool) (s : string) : nat :=
  match s with
  | String a r1 =>
      if sp1 a then 1
      else match r1 with
           | String b r2 =>
               if sp2 a b then 2
               else match r2 with
                    | String c _ => if sp3 a b c then 3 else 0
                    | EmptyString => 0
                    end
           | EmptyString => 0
           end
  | EmptyString => 0
  end.

(** Removing every [:] and [-] of a cell, the test of the specification
    for a separator row. *)
Fixpoint stripColonDash (cell : string) : string :=
  match cell with
  | EmptyString => EmptyString
  | String c r => if mem c ":-" then stripColonDash r else String c (stripColonDash r)
  end.

Definition separatorBySpec (line : string) : bool :=
  forallb (fun cell => stripColonDash cell =s "") (splitTableRow line).


Definition pipeLine (l : string) : bool := HasPrefix (TrimSpace l) "|".





(** The least number of bytes a match of [re] takes. *)
Fixpoint minLen (re : Regexp) : nat :=
  match re with
  | Lit _ | Cls _ => 1
  | Rep min _ => min
  | Seq r1 r2 => minLen r1 + minLen r2
  | Alt r1 r2 => Nat.min (minLen r1) (minLen r2)
  | Grp r => minLen r
  | Bol => 0
  end.

(** The leftmost match of pattern number [pi] of the table in
    [remaining]. *)
Definition leftmost (pi : nat) (remaining : string) : option (nat * nat * caps) :=
  match patterns !! pi with
  | Some p => FindStringSubmatchIndex (re p) remaining
  | None => None
  end.

Definition start (loc : nat * nat * caps) : nat := fst (fst loc).

(** Pattern [pi] wins in [remaining]: its leftmost match starts no later
    than that of any other pattern, and among the patterns whose leftmost
    match starts at the same offset it comes first in the table. *)
Definition Selected (remaining : string) (pi : nat) (loc : nat * nat * caps) : Prop :=
  leftmost pi remaining = Some loc /\
  forall pj loc', leftmost pj remaining = Some loc' ->
    start loc < start loc' \/ (start loc = start loc' /\ pi <= pj).

Definition NoMatch (remaining : string) : Prop :=
  forall pj, leftmost pj remaining = None.

(** The scan the specification describes: the text before the winning
    match as a plain text node (when there is any), the match as a marked
    text node, then the scan of what follows the match; the whole rest as
    a plain text node when no pattern matches. *)
Inductive Scanned : string -> list ADFNode -> Prop :=
| Scanned_done : Scanned "" []
| Scanned_plain remaining :
    remaining <> "" -> NoMatch remaining ->
    Scanned remaining [textNode remaining []]
| Scanned_match remaining pi s e cs nodes :
    remaining <> "" -> Selected remaining pi (s, e, cs) ->
    Scanned (drop e remaining) nodes ->
    Scanned remaining
      ((if 0 <? s then [textNode (take s remaining) []] else [])
       ++ markNodes pi (matchStrings remaining (s, e, cs)) ++ nodes).

(** What the scan over the first [n] patterns has established. *)
Definition ScanInv (remaining : string) (st : scan) (n : nat) : Prop :=
  match snd st with
  | None =>
      fst st = len remaining /\ forall j, j < n -> leftmost j remaining = None
  | Some (k, loc) =>
      fst st = start loc /\ k < n /\ leftmost k remaining = Some loc /\
      forall j loc', j < n -> leftmost j remaining = Some loc' ->
        start loc < start loc' \/ (start loc = start loc' /\ k <= j)
  end.

(** A byte that neither is white space nor belongs to the encoding of a
    white-space rune. *)
Definition plainByte (c : ascii) : bool :=
  negb (asciiSpace c) && (nat_of_ascii c <? 128).

Definition firstPlain (s : string) : bool :=
  match s with
  | String c _ => plainByte c
  | EmptyString => true
  end.

(** The characters of a base64 text. *)
Definition base64Chars : string := base64.encodeStd +:+ "=".

(** The first two lines of a marker block. *)
Definition openLine (n : ADFNode) : string :=
  preserveStart +:+ " " +:+ description n
    +:+ " — Do not edit this block; it is restored on push to JIRA. -->".

Definition dataLine (jsonBytes : string) : string :=
  preserveData +:+ base64.EncodeToString jsonBytes +:+ " -->".

Definition mediaSingle : ADFNode := node "mediaSingle" [].


(** ** Round trips *)

(** Structural equivalence of two trees, white space left aside: the same
    tags, texts that differ by white space at most, the same marks (type
    and link target), the same heading level and code language, and
    equivalent children, in the same order. *)
Fixpoint removeSpace (s : string) : string :=
  match s with
  | EmptyString => EmptyString
  | String c r => if asciiSpace c then removeSpace r else String c (removeSpace r)
  end.

(** The value of the [level] attribute, a [float64] in a tree decoded from
    JSON and an [int] in a tree built by the parser; 2 when it is absent,
    as for the renderer. *)
Definition levelValue (attrs : gmap string any) : option Z :=
  match attrs !! "level" with
  | Some (AFloat f) => float_to_int f
  | Some (AInt z) => Some z
  | _ => Some 2%Z
  end.

Definition markAgree (m1 m2 : ADFMark) : Prop :=
  MarkType m1 = MarkType m2 /\
  attrString (MarkAttrs m1) "href" = attrString (MarkAttrs m2) "href".

Inductive Equiv : ADFNode -> ADFNode -> Prop :=
| Equiv_node a b :
    Type_ a = Type_ b ->
    removeSpace (Text a) = removeSpace (Text b) ->
    Forall2 markAgree (Marks a) (Marks b) ->
    (Type_ a = "heading" -> levelValue (Attrs a) = levelValue (Attrs b)) ->
    (Type_ a = "codeBlock" ->
       attrString (Attrs a) "language" = attrString (Attrs b) "language") ->
    Forall2 Equiv (Content a) (Content b) ->
    Equiv a b.


(** Plain text: letters, digits and spaces, a letter first and a letter or
    a digit last. *)
Definition isLetter (c : ascii) : bool :=
  let n := nat_of_ascii c in
  ((65 <=? n) && (n <=? 90)) || ((97 <=? n) && (n <=? 122)).

Definition isDigit (c : ascii) : bool :=
  let n := nat_of_ascii c in (48 <=? n) && (n <=? 57).

Definition wordByte (c : ascii) : bool := isLetter c || isDigit c || Ascii.eqb c SP.

Fixpoint allBytes (p : ascii -> bool) (s : string) : bool :=
  match s with
  | EmptyString => true
  | String c r => p c && allBytes p r
  end.

Definition firstByte (p : ascii -> bool) (s : string) : bool :=
  match s with
  | String c _ => p c
  | EmptyString => false
  end.

Definition plainText (t : string) : bool :=
  allBytes wordByte t && firstByte isLetter t
  && firstByte (fun c => isLetter c || isDigit c) (rev t).







(** * Vocabulary of the further properties *)

(** A link target that fits between the parentheses of a markdown link. *)
Definition urlText (u : string) : bool :=
  negb (u =s "") && negb (mem ")" u) && negb (mem LF u).

(** The inline content that the round trip is proved for: a text node of
    plain text that is unmarked, or carries one of the marks strong, em,
    code and strike, or is a link. *)
Inductive MarkedInline : ADFNode -> Prop :=
| InlinePlain t : plainText t = true -> MarkedInline (textNode t [])
| InlineMarked t ty :
    plainText t = true -> In ty ["strong"; "em"; "code"; "strike"] ->
    MarkedInline (textNode t [mark ty])
| InlineLink t u attrs :
    plainText t = true -> urlText u = true ->
    attrs !! "href" = Some (AString u) ->
    MarkedInline (textNode t [mkMark "link" attrs]).

(** The blocks: a paragraph or a heading of level 1 to 6 that holds one
    such node, or a rule. *)
Inductive MarkedBlock : ADFNode -> Prop :=
| MarkedParagraph n attrs :
    MarkedInline n -> MarkedBlock (mkNode "paragraph" [n] "" attrs [])
| MarkedHeading n attrs f k :
    MarkedInline n ->
    attrs !! "level" = Some (AFloat f) -> float_to_int f = Some k ->
    (1 <= k <= 6)%Z ->
    MarkedBlock (mkNode "heading" [n] "" attrs [])
| MarkedRule attrs : MarkedBlock (mkNode "rule" [] "" attrs []).

(** What the parser builds for such a node and for such a block. *)
Definition reparsedMark (m : ADFMark) : ADFMark :=
  if MarkType m =s "link"
  then mkMark "link" {[ "href" := AString (attrString (MarkAttrs m) "href") ]}
  else mark (MarkType m).

Definition reparsedInline (n : ADFNode) : ADFNode :=
  textNode (Text n) (map reparsedMark (Marks n)).

Definition reparsedBlock (b : ADFNode) : ADFNode :=
  if Type_ b =s "heading"
  then mkNode "heading" (map reparsedInline (Content b)) ""
         {[ "level" := AInt (default 2%Z (headingLevel (Attrs b))) ]} []
  else node (Type_ b) (map reparsedInline (Content b)).

(** The markdown of such a node and the line of such a block. *)
Definition inlineText (n : ADFNode) : string := applyMarks (Text n) (Marks n).

Definition markedLine (b : ADFNode) : string :=
  let text := String.concat "" (map inlineText (Content b)) in
  if Type_ b =s "heading"
  then Repeat "#" (Z.to_nat (default 2%Z (headingLevel (Attrs b)))) +:+ " " +:+ text
  else if Type_ b =s "rule" then "---"
  else text.

(** No two adjacent bytes [c]. *)
Fixpoint noDouble (c : ascii) (s : string) : bool :=
  match s with
  | String a ((String b _) as r) => negb (Ascii.eqb a c && Ascii.eqb b c) && noDouble c r
  | _ => true
  end.


(** The first bytes of the markdown of an inline node. *)
Definition inlineStart (c : ascii) (r w : string) : Prop :=
  w = String c r \/ w = String "*" (String "*" (String c r)) \/
  w = String "*" (String c r) \/ w = String "`" (String c r) \/
  w = String "~" (String "~" (String c r)) \/ w = String "[" (String c r).

(** The lines of the rendering of a list of such blocks, and the
    documents made of them. *)
Definition markedLines (blocks : list ADFNode) : list string :=
  flat_map (fun b => [markedLine b; ""]) blocks ++ [""].

Definition MarkedDocument (d : ADFNode) : Prop :=
  Type_ d = "doc" /\ Text d = "" /\ Marks d = [] /\ Forall MarkedBlock (Content d).

(** A heading, a bold paragraph and a link. *)
Definition boldAndLink : ADFNode :=
  node "doc"
    [ mkNode "heading" [textNode "Title" [mark "em"]] "" {[ "level" := AFloat (float_of_pos 3) ]} [];
      node "paragraph" [textNode "Hello" [mark "strong"]];
      node "paragraph" [textNode "world" [mkMark "link" {[ "href" := AString "http://x" ]}]] ].

(** The words that an expression matches at offset [pos], with the groups
    that the match closes added to [cs]. *)
Fixpoint Matched (re : Regexp) (pos : nat) (w : string) (cs cs' : caps) : Prop :=
  match re with
  | Lit c => w = str c /\ cs' = cs
  | Cls k => exists d, w = str d /\ in_class d k = true /\ cs' = cs
  | Rep min k =>
      min <= len w /\ allBytes (fun c => in_class c k) w = true /\ cs' = cs
  | Seq r1 r2 =>
      exists w1 w2 cs1,
        w = w1 +:+ w2 /\ Matched r1 pos w1 cs cs1 /\
        Matched r2 (pos + len w1) w2 cs1 cs'
  | Alt r1 r2 => Matched r1 pos w cs cs' \/ Matched r2 pos w cs cs'
  | Grp r => exists cs1, Matched r pos w cs cs1 /\ cs' = cs1 ++ [(pos, pos + len w)]
  | Bol => pos = 0 /\ w = "" /\ cs' = cs
  end.

(** ** unmarshal.go: the headings that are stripped from a body *)

(** [strings.SplitN(s, sep, n)] for a one-byte separator and [n >= 0]:
    at most [n] pieces, the last one being the unsplit rest. *)
Fixpoint SplitN (s : string) (sep : ascii) (n : nat) : list string :=
  match n with
  | 0 => []
  | S n' =>
      match n' with
      | 0 => [s]
      | S _ =>
          match Index s (str sep) with
          | Some i => take i s :: SplitN (drop (i + 1) s) sep n'
          | None => [s]
          end
      end
  end.

Definition stripTitleHeading (body key : string) : string :=
  match SplitN body LF 2 with
  | [] => body
  | l0 :: rest =>
      let first := TrimSpace l0 in
      if HasPrefix first ("# " +:+ key) || HasPrefix first "# " then
        match rest with
        | l1 :: _ => TrimLeft l1 newlines
        | [] => ""
        end
      else body
  end.

Definition stripConfluenceTitleHeading (body title : string) : string :=
  match SplitN body LF 2 with
  | [] => body
  | l0 :: rest =>
      let first := TrimSpace l0 in
      if (first =s "# " +:+ title) || HasPrefix first "# " then
        match rest with
        | l1 :: _ => TrimLeft l1 newlines
        | [] => ""
        end
      else body
  end.

(** ** cmd/apply.go: the comparison of the labels *)

(** [aMap[v]] of a [map[string]bool]: [false] for a missing key. *)
Definition labelsEqual (a b : list string) : bool :=
  if negb (length a =? length b) then false
  else
    let aMap := fold_left (fun (m : gmap string bool) v => <[v := true]> m) a ∅ in
    forallb (fun v => default false (aMap !! v)) b.

(** ** Documents on which the parser returns *)

(** No run of seven [#] in [s]. *)
Fixpoint sevenFree (s : string) : bool :=
  match s with
  | EmptyString => true
  | String _ r => (countHashes s <=? 6) && sevenFree r
  end.

(** A calm text holds no pipe, no [<] and no run of seven [#]. *)
Definition calm (s : string) : bool :=
  negb (mem "|" s) && negb (mem "<" s) && sevenFree s.

Definition calmLine (l : string) : Prop := calm l = true /\ mem LF l = false.

(** The bytes of a list of lines, line ends included. *)
Definition size (lines : list string) : nat :=
  fold_right (fun l n => S (len l) + n) 0 lines.

(** A document with a heading, a quotation, lists, a code block and a
    paragraph. *)
Definition calmDocument : string :=
  lines_of ["# Title"; ""; "> quoted"; "> > twice"; ""; "- a"; "  - b"; "1. c"; "";
            "```go"; "x := 1"; "```"; ""; "some *text*"].

(** A heading, a blank line, and a pipe row followed by plain text. *)
Definition stuckLines : list string := ["# Title"; ""; "| a | b |"; "text"].

(** ** The layout of a table *)

(** The number of columns that [renderTable] determines, the line of a row
    without its line feed, and the cell texts that come back from a line
    as they were written: trimmed, without a pipe or a line feed. *)
Definition maxCols (rows : list (list string)) : nat :=
  fold_left (fun m row => if m <? length row then length row else m) rows 0.

Definition rowLine (cells : list string) : string :=
  "| " +:+ Join cells " | " +:+ " |".

Definition cellOK (c : string) : Prop :=
  TrimSpace c = c /\ mem "|" c = false /\ mem LF c = false.

(** Two rows of unequal length. *)
Definition raggedRows : list (list string) := [["Name"; "Role"; "Since"]; ["Ada"; "dev"]; ["Bob"]].

(** ** Code blocks *)

(** The code block that the parser builds for a language and a text. *)
Definition codeBlock (lang code : string) : ADFNode :=
  mkNode "codeBlock" [textNode code []] ""
    (if lang =s "" then ∅ else {[ "language" := AString lang ]}) [].

(** A text none of whose lines is a closing fence. *)
Definition fenceFree (code : string) : bool :=
  forallb (fun l => negb (TrimSpace l =s "```")) (Split code LF).

(** Two lines of code, the second one indented, with a pipe and a [#]. *)
Definition goCode : string := lines_of ["x := a | b"; "  # not a heading"].

(** ** Flat lists *)

(** A list whose items hold one paragraph of one inline node, and the
    lines that the renderer writes for its items from number [i0] on. *)
Definition flatItem (n : ADFNode) : ADFNode :=
  node "listItem" [node "paragraph" [n]].

Definition listTag (ordered : bool) : string :=
  if ordered then "orderedList" else "bulletList".

Definition flatList (ordered : bool) (ns : list ADFNode) : ADFNode :=
  node (listTag ordered) (map flatItem ns).

Definition itemPrefix (ordered : bool) (i : nat) : string :=
  if ordered then itoa (i + 1) +:+ ". " else "- ".

Definition itemLines (ordered : bool) (i0 : nat) (ns : list ADFNode) : list string :=
  mapi (fun i n => itemPrefix ordered i +:+ inlineText n) i0 ns.

(** A shopping list. *)
Definition shopping : list ADFNode :=
  [textNode "milk" []; textNode "eggs" [mark "strong"]; textNode "tea" [mark "em"]].

(** ** Documents of preserved nodes *)

(** A node that the renderer preserves and that the JSON library writes
    and reads back, and the three lines of its marker block. *)
Definition Restorable `{J : Json} (n : ADFNode) : Prop :=
  isOneOf (Type_ n) preservedTags = true /\
  exists js, json_Marshal n = Some js /\ json_Unmarshal js = Some n.

Definition markerBlock `{J : Json} (n : ADFNode) : list string :=
  match json_Marshal n with
  | Some js => [openLine n; dataLine js; preserveEnd]
  | None => []
  end.

(** The line that stands for a node that could not be serialized. *)
Definition failureLine (n : ADFNode) : string :=
  "<!-- PRESERVED: " +:+ description n +:+ " — Could not serialize for round-trip -->".

(** A panel with a text, which the codec of the examples does not
    serialize. *)
Definition panelWithText : ADFNode := node "panel" [textNode "note" []].

(** ** Trees that the renderer accepts *)

(** Every heading of the tree has a level that [int] converts and that is
    not negative ([strings.Repeat] panics on a negative count). *)
Fixpoint levelsFine (n : ADFNode) : bool :=
  (if Type_ n =s "heading"
   then match headingLevel (Attrs n) with
        | Some level => (0 <=? level)%Z
        | None => false
        end
   else true)
  && forallb levelsFine (Content n).

Fixpoint nodeSize (n : ADFNode) : nat :=
  S (list_sum (map nodeSize (Content n))).

(** The nodes below a node. *)
Inductive Below : ADFNode -> ADFNode -> Prop :=
| Below_child n c : In c (Content n) -> Below n c
| Below_more n c m : In c (Content n) -> Below c m -> Below n m.


(** ** What the parser builds *)

(** The tags of the nodes that [markdownToADF] builds itself, and the
    trees made of them: the marks are those of the [patterns] table and a
    heading carries its level as an [int] from 1 to 6. *)
Definition parserTags : list string :=
  [ "doc"; "paragraph"; "heading"; "rule"; "codeBlock"; "blockquote"; "bulletList";
    "orderedList"; "listItem"; "table"; "tableRow"; "tableHeader"; "tableCell"; "text" ].

Fixpoint parserMade (n : ADFNode) : bool :=
  isOneOf (Type_ n) parserTags
  && forallb (fun m => isOneOf (MarkType m) inlineMarkTypes) (Marks n)
  && (if Type_ n =s "heading"
      then match Attrs n !! "level" with
           | Some (AInt k) => (1 <=? k)%Z && (k <=? 6)%Z
           | _ => false
           end
      else true)
  && forallb parserMade (Content n).

(** A document with a heading, a table, a quotation and a nested list. *)
Definition mixedDocument : string :=
  lines_of ["## Plan"; ""; "| a | b |"; "| --- | --- |"; "| 1 | 2 |"; "";
            "> said *so*"; ""; "1. one"; "   - sub"; ""; "@bob :smile: _u_"].

(** * Properties *)

(** ** Facts about strings *)

Ltac slia := unfold len in *; simpl in *; lia.

Lemma sapp_nil_r s : s +:+ "" = s.
Proof. induction s as [|c s IH]; simpl; [reflexivity | now rewrite IH]. Qed.

Lemma sapp_assoc a b c : (a +:+ b) +:+ c = a +:+ (b +:+ c).
Proof. induction a as [|x a IH]; simpl; [reflexivity | now rewrite IH]. Qed.

Lemma len_app a b : len (a +:+ b) = len a + len b.
Proof. unfold len. induction a as [|x a IH]; simpl; [reflexivity | now rewrite IH]. Qed.

Lemma len_take n : forall s, len (take n s) = Nat.min n (len s).
Proof.
  unfold len. induction n as [|n IH]; intros [|c s]; simpl; try reflexivity.
  now rewrite IH.
Qed.

Lemma len_drop n : forall s, len (drop n s) = len s - n.
Proof.
  unfold len. induction n as [|n IH]; intros [|c s]; simpl; try lia.
  apply IH.
Qed.

Lemma take_drop n : forall s, take n s +:+ drop n s = s.
Proof.
  induction n as [|n IH]; intros [|c s]; simpl; try reflexivity.
  now rewrite IH.
Qed.

Lemma take_app a b : take (len a) (a +:+ b) = a.
Proof. induction a as [|x a IH]; simpl; [now destruct b | now rewrite IH]. Qed.

Lemma drop_app a b : drop (len a) (a +:+ b) = b.
Proof. induction a as [|x a IH]; simpl; [reflexivity | exact IH]. Qed.

Lemma take_all s n : len s <= n -> take n s = s.
Proof.
  revert n. induction s as [|c s IH]; intros [|n] H; simpl; try reflexivity; try slia.
  rewrite IH; [reflexivity | slia].
Qed.

Lemma drop_all s n : len s <= n -> drop n s = "".
Proof.
  revert n. induction s as [|c s IH]; intros [|n] H; simpl; try reflexivity; try slia.
  apply IH. slia.
Qed.

Lemma take_app_le n : forall a b, n <= len a -> take n (a +:+ b) = take n a.
Proof.
  induction n as [|n IH]; intros [|x a] b H; simpl; try reflexivity; try slia.
  rewrite IH; [reflexivity | slia].
Qed.

Lemma drop_app_le n : forall a b, n <= len a -> drop n (a +:+ b) = drop n a +:+ b.
Proof.
  induction n as [|n IH]; intros [|x a] b H; simpl; try reflexivity; try slia.
  apply IH. slia.
Qed.

Lemma sapp_inv_head a : forall b c, a +:+ b = a +:+ c -> b = c.
Proof. induction a as [|x a IH]; simpl; intros b c H; [exact H | injection H; auto]. Qed.

Lemma rev_onto_app s : forall acc, rev_onto s acc = rev s +:+ acc.
Proof.
  unfold rev. induction s as [|c s IH]; intros acc; simpl; [reflexivity |].
  rewrite IH, (IH (String c "")), sapp_assoc. reflexivity.
Qed.

Lemma rev_cons c s : rev (String c s) = rev s +:+ str c.
Proof. unfold rev at 1. simpl. apply rev_onto_app. Qed.

Lemma rev_app a b : rev (a +:+ b) = rev b +:+ rev a.
Proof.
  induction a as [|x a IH]; simpl.
  - now rewrite sapp_nil_r.
  - now rewrite !rev_cons, IH, sapp_assoc.
Qed.

Lemma rev_involutive s : rev (rev s) = s.
Proof.
  induction s as [|c s IH]; [reflexivity |].
  now rewrite rev_cons, rev_app, IH.
Qed.


Lemma rev_inj a b : rev a = rev b -> a = b.
Proof. intros H. rewrite <- (rev_involutive a), H. apply rev_involutive. Qed.

Lemma prefix_app p : forall r, String.prefix p (p +:+ r) = true.
Proof.
  induction p as [|c p IH]; intros r; simpl; [now destruct r |].
  destruct (ascii_dec c c); [apply IH | congruence].
Qed.

Lemma prefix_inv p : forall s, String.prefix p s = true -> s = p +:+ drop (len p) s.
Proof.
  induction p as [|c p IH]; intros s H; simpl; [reflexivity |].
  destruct s as [|d s]; simpl in H; [discriminate |].
  destruct (ascii_dec c d) as [<- | ]; [| discriminate].
  simpl. f_equal. now apply IH.
Qed.

Lemma prefix_iff p s : String.prefix p s = true <-> exists r, s = p +:+ r.
Proof.
  split.
  - intros H. eexists. now apply prefix_inv.
  - intros [r ->]. apply prefix_app.
Qed.

Lemma prefix_len p s : String.prefix p s = true -> len p <= len s.
Proof. intros H. rewrite (prefix_inv p s H), len_app. lia. Qed.


Lemma HasSuffix_app r suf : HasSuffix (r +:+ suf) suf = true.
Proof. unfold HasSuffix. rewrite rev_app. apply prefix_app. Qed.

Lemma HasSuffix_inv s suf :
  HasSuffix s suf = true -> s = take (len s - len suf) s +:+ suf.
Proof.
  unfold HasSuffix. intros H. apply prefix_iff in H as [r Hr].
  assert (Hs : s = rev r +:+ suf).
  { apply rev_inj. now rewrite rev_app, rev_involutive. }
  clear Hr. subst s. now rewrite len_app, Nat.add_sub, take_app.
Qed.

Lemma HasSuffix_iff s suf : HasSuffix s suf = true <-> exists r, s = r +:+ suf.
Proof.
  split.
  - intros H. eexists. now apply HasSuffix_inv.
  - intros [r ->]. apply HasSuffix_app.
Qed.


Lemma TrimSuffix_app r suf : TrimSuffix (r +:+ suf) suf = r.
Proof.
  unfold TrimSuffix. rewrite HasSuffix_app.
  change (String.length ?x) with (len x). rewrite len_app, Nat.add_sub. apply take_app.
Qed.

Lemma TrimPrefix_app p r : TrimPrefix (p +:+ r) p = r.
Proof. unfold TrimPrefix, HasPrefix. rewrite prefix_app. apply drop_app. Qed.


Lemma isOneOf_true tag ts : isOneOf tag ts = true -> In tag ts.
Proof.
  unfold isOneOf. intros H. apply existsb_exists in H as (x & Hin & Heq).
  apply String.eqb_eq in Heq. now subst.
Qed.

Lemma renderNode_preserved `{J : Json} n p :
  isOneOf (Type_ n) preservedTags = true ->
  renderNode n p = Some (writePreservedMarker n).
Proof.
  intros H. apply isOneOf_true in H. destruct n as [ty c t a m]. simpl in H.
  repeat (destruct H as [<- | H]; [reflexivity |]). destruct H.
Qed.





(** ** Marks: what the renderer writes and what the inline parser reads *)
Lemma applyMarks_app text pre post :
  applyMarks text (pre ++ post) = applyMarks (applyMarks text pre) post.
Proof. unfold applyMarks. apply fold_left_app. Qed.

Lemma applyMark_underline text m :
  MarkType m = "underline" -> applyMark text m = "_" +:+ text +:+ "_".
Proof. unfold applyMark. intros ->. reflexivity. Qed.

Lemma renderNode_text `{J : Json} n p :
  Type_ n = "text" -> renderNode n p = Some (applyMarks (Text n) (Marks n)).
Proof. destruct n as [ty c t a m]. cbn [Type_]. intros ->. reflexivity. Qed.

Lemma inlineNode_plain text : inlineNode (textNode text []).
Proof. repeat split. now left. Qed.

Lemma markNodes_inline pi m : Forall inlineNode (markNodes pi m).
Proof.
  unfold markNodes, patterns.
  do 5 (destruct pi as [|pi];
        [ cbn; constructor; [| constructor]; repeat split; right;
          eexists; split; [reflexivity | cbn; tauto] |]).
  cbn. constructor.
Qed.

Lemma parseInline_loop_inline fuel : forall remaining nodes,
  Forall inlineNode nodes -> Forall inlineNode (parseInline_loop fuel remaining nodes).
Proof.
  induction fuel as [|fuel IH]; intros remaining nodes Hn; cbn [parseInline_loop]; [exact Hn|].
  destruct (remaining =s ""); [exact Hn|].
  destruct (earliest remaining) as [[pi [[s e] cs]]|].
  - apply IH. apply Forall_app. split; [| apply markNodes_inline].
    destruct (0 <? s); [| exact Hn].
    apply Forall_app. split; [exact Hn |]. constructor; [apply inlineNode_plain | constructor].
  - apply Forall_app. split; [exact Hn |]. constructor; [apply inlineNode_plain | constructor].
Qed.

Lemma parseInline_inline text : Forall inlineNode (parseInline text).
Proof.
  unfold parseInline. destruct (text =s "").
  - constructor; [apply inlineNode_plain | constructor].
  - pose proof (parseInline_loop_inline (S (len text)) text [] (List.Forall_nil _)) as H.
    destruct (parseInline_loop (S (len text)) text []).
    + constructor; [apply inlineNode_plain | constructor].
    + exact H.
Qed.

(** C10: a text node with an underline mark is rendered with its text, as
    decorated by the marks before the underline, between two underscores
    (so ["_text_"] when underline is the only mark); and no node that
    [parseInline] returns, for any input, carries an underline mark: every
    mark it produces is link, strong, strike, code or em. *)
Theorem C10_underline_not_round_tripped :
  (forall (J : Json) (n : ADFNode) (p : string) (pre post : list ADFMark) (u : ADFMark),
      Type_ n = "text" -> Marks n = pre ++ u :: post -> MarkType u = "underline" ->
      renderNode n p
        = Some (applyMarks ("_" +:+ applyMarks (Text n) pre +:+ "_") post)) /\
  (forall (J : Json) (n : ADFNode) (p : string) (u : ADFMark),
      Type_ n = "text" -> Marks n = [u] -> MarkType u = "underline" ->
      renderNode n p = Some ("_" +:+ Text n +:+ "_")) /\
  (forall (text : string) (n : ADFNode) (m : ADFMark),
      In n (parseInline text) -> In m (Marks n) ->
      MarkType m <> "underline" /\ In (MarkType m) inlineMarkTypes).
Proof.
  assert (Hgen : forall (J : Json) n p pre post u,
      Type_ n = "text" -> Marks n = pre ++ u :: post -> MarkType u = "underline" ->
      renderNode n p = Some (applyMarks ("_" +:+ applyMarks (Text n) pre +:+ "_") post)).
  { intros J n p pre post u Hty Hm Hu.
    rewrite (renderNode_text n p Hty), Hm.
    change (pre ++ u :: post) with (pre ++ [u] ++ post).
    rewrite !applyMarks_app. cbn [applyMarks fold_left].
    now rewrite (applyMark_underline _ u Hu). }
  split; [exact Hgen | split].
  - intros J n p u Hty Hm Hu. apply (Hgen J n p [] [] u Hty); [now rewrite Hm | exact Hu].
  - intros text n m Hn Hm.
    pose proof (parseInline_inline text) as H.
    rewrite List.Forall_forall in H. destruct (H n Hn) as (_ & _ & [Hnil | (m' & Hm' & Hin)]).
    + rewrite Hnil in Hm. destruct Hm.
    + rewrite Hm' in Hm. destruct Hm as [<- | []].
      split; [| exact Hin].
      intros Heq. rewrite Heq in Hin. cbn in Hin.
      repeat (destruct Hin as [Hin | Hin]; [discriminate Hin |]). exact Hin.
Qed.

Lemma C10_underline_not_round_tripped_witness :
  renderNode (J := tagOnlyJson) (textNode "text" [mark "strong"; mark "underline"; mark "em"]) ""
    = Some "*_**text**_*"
  /\ renderNode (J := tagOnlyJson) (textNode "text" [mark "underline"]) "" = Some "_text_"
  /\ (MarkType (mark "strong") <> "underline" /\ In (MarkType (mark "strong")) inlineMarkTypes).
Proof.
  destruct C10_underline_not_round_tripped as (H1 & H2 & H3).
  split; [| split].
  - apply (H1 tagOnlyJson (textNode "text" [mark "strong"; mark "underline"; mark "em"]) ""
             [mark "strong"] [mark "em"] (mark "underline")); reflexivity.
  - apply (H2 tagOnlyJson (textNode "text" [mark "underline"]) "" (mark "underline"));
      reflexivity.
  - apply (H3 "_a_ **b**" (textNode "b" [mark "strong"]) (mark "strong")).
    + vm_compute. right. left. reflexivity.
    + left. reflexivity.
Defined.

(** ** Termination of the block parser *)

(** On a lone pipe row, a marker opening without data line and a line of
    seven [#], a turn of the loop reaches the paragraph case, whose
    inner loop stops at once on the very line that led there: the turn
    ends with [i] and [doc.Content] unchanged. *)
Lemma loneTableRow_turn `{J : Json} fuel :
  markdownToADF_loop (S fuel) (Split loneTableRow LF) 0 []
  = markdownToADF_loop fuel (Split loneTableRow LF) 0 [].
Proof. reflexivity. Qed.

Lemma brokenMarker_turn `{J : Json} fuel :
  markdownToADF_loop (S fuel) (Split brokenMarker LF) 0 []
  = markdownToADF_loop fuel (Split brokenMarker LF) 0 [].
Proof. reflexivity. Qed.

Lemma sevenHashes_turn `{J : Json} fuel :
  markdownToADF_loop (S fuel) (Split sevenHashes LF) 0 []
  = markdownToADF_loop fuel (Split sevenHashes LF) 0 [].
Proof. reflexivity. Qed.

Lemma stuck_loop `{J : Json} lines :
  (forall fuel, markdownToADF_loop (S fuel) lines 0 [] = markdownToADF_loop fuel lines 0 []) ->
  forall fuel, markdownToADF_loop fuel lines 0 [] = None.
Proof.
  intros Hturn fuel. induction fuel as [|fuel IH]; [reflexivity|].
  now rewrite Hturn.
Qed.

(** C4 fails on the code: [markdownToADF] does not return on a document
    that is a single pipe row, nor on a marker block whose middle line is
    not a data line, nor on a line of seven [#]; whatever the number of
    turns granted, the loop has not finished. *)
Theorem C4_parser_does_not_terminate (J : Json) (fuel : nat) :
  markdownToADF fuel loneTableRow = None /\
  markdownToADF fuel brokenMarker = None /\
  markdownToADF fuel sevenHashes = None.
Proof.
  unfold markdownToADF.
  rewrite (stuck_loop _ loneTableRow_turn), (stuck_loop _ brokenMarker_turn),
    (stuck_loop _ sevenHashes_turn).
  auto.
Qed.

(** ** Nested lists *)

(** C7 fails on the code.  The renderer writes a list of depth three with
    one more indentation per level, but [parseList] strips the whole
    indentation of every collected sub-line before it calls itself, so the
    third level is read as a sibling of the second. *)
Theorem C7_third_level_flattened (J : Json) (fuel : nat) :
  renderADF threeLevels = Some threeLevelsMarkdown /\
  listDepth threeLevels = 3 /\
  markdownToADF (5 + fuel) threeLevelsMarkdown
    = Some (docNode [node "bulletList"
              [item "a" [node "bulletList" [item "b" []; item "c" []]]]]) /\
  listDepth (docNode [node "bulletList"
              [item "a" [node "bulletList" [item "b" []; item "c" []]]]]) = 2.
Proof. repeat split; reflexivity. Qed.

(** ** Bold markers of table header cells *)










(** ** The frontmatter splitter *)

Lemma TrimLeft_spec s cutset :
  exists p, s = p +:+ TrimLeft s cutset /\ allIn p cutset = true /\
            startsIn (TrimLeft s cutset) cutset = false.
Proof.
  induction s as [|c s (p & Hp & Hall & Hst)]; simpl.
  - exists "". auto.
  - destruct (mem c cutset) eqn:Hc.
    + exists (String c p). simpl. rewrite Hc, Hall. repeat split; [now f_equal | exact Hst].
    + exists "". simpl. rewrite Hc. auto.
Qed.

Lemma TrimLeft_unique p : forall s r cutset,
  s = p +:+ r -> allIn p cutset = true -> startsIn r cutset = false ->
  TrimLeft s cutset = r.
Proof.
  induction p as [|c p IH]; intros s r cutset -> Hall Hst; simpl in *.
  - destruct r as [|d r]; simpl in *; [reflexivity | now rewrite Hst].
  - apply andb_prop in Hall as [Hc Hall]. rewrite Hc. now apply IH.
Qed.

Lemma Index_Some s sub : forall n,
  Index s sub = Some n ->
  s = take n s +:+ sub +:+ drop (n + len sub) s /\
  (forall k, k < n -> HasPrefix (drop k s) sub = false) /\
  n <= len s.
Proof.
  unfold HasPrefix.
  induction s as [|c s IH]; intros n; cbn [Index].
  - destruct (String.prefix sub "") eqn:Hp; [| discriminate].
    intros [= <-]. split; [| split; lia]. apply prefix_inv in Hp. exact Hp.
  - destruct (String.prefix sub (String c s)) eqn:Hp.
    + intros [= <-]. split; [| split; lia]. apply prefix_inv in Hp. exact Hp.
    + destruct (Index s sub) as [m|] eqn:Hi; [| discriminate].
      cbn [option_map]. intros [= <-]. destruct (IH m eq_refl) as (Hs & Hk & Hle).
      split; [| split].
      * simpl. f_equal. exact Hs.
      * intros [|k] Hlt; [exact Hp | simpl; apply Hk; lia].
      * slia.
Qed.

Lemma Index_prefix s sub : String.prefix sub s = true -> Index s sub = Some 0.
Proof. intros H. destruct s; cbn [Index]; now rewrite H. Qed.

Lemma Index_unique a : forall s sub b,
  s = a +:+ sub +:+ b ->
  (forall k, k < len a -> HasPrefix (drop k s) sub = false) ->
  Index s sub = Some (len a).
Proof.
  unfold HasPrefix.
  induction a as [|c a IH]; intros s sub b -> Hk.
  - change (Index (sub +:+ b) sub = Some 0). apply Index_prefix, prefix_app.
  - cbn [String.append Index].
    assert (H0 : 0 < len (String c a)) by slia.
    apply Hk in H0. cbn [drop String.append] in H0. rewrite H0.
    rewrite (IH (a +:+ sub +:+ b) sub b eq_refl); [reflexivity |].
    intros k Hlt. assert (HS : S k < len (String c a)) by slia.
    apply Hk in HS. exact HS.
Qed.

Lemma splitFrontmatter_shape content fm body :
  splitFrontmatter content = inl (fm, body) <->
  FrontmatterShape (TrimSpace content) fm body.
Proof.
  unfold splitFrontmatter, FrontmatterShape. fold closing.
  set (c := TrimSpace content). split.
  - destruct (HasPrefix c "---") eqn:Hp; [| discriminate]. cbn [negb].
    destruct (TrimLeft_spec (drop 3 c) newlines) as (nls & Hn & Hall & Hst).
    set (rest := TrimLeft (drop 3 c) newlines) in *.
    destruct (Index rest closing) as [idx|] eqn:Hi; [| discriminate].
    intros [= <- <-]. apply Index_Some in Hi as (Hr & Hk & Hle).
    exists nls, (drop (idx + 4) rest).
    assert (Hlen : len (take idx rest) = idx).
    { rewrite len_take. now apply Nat.min_l. }
    change (len closing) with 4 in Hr.
    repeat split.
    + unfold HasPrefix in Hp. apply prefix_inv in Hp. change (len "---") with 3 in Hp.
      rewrite <- Hr, <- Hn. exact Hp.
    + exact Hall.
    + now rewrite <- Hr.
    + intros k Hlt. rewrite <- Hr. apply Hk. lia.
  - intros (nls & tail & Hc & Hall & Hst & Hk & ->).
    rewrite Hc. unfold HasPrefix. rewrite prefix_app. cbn [negb].
    replace (drop 3 ("---" +:+ nls +:+ fm +:+ closing +:+ tail))
      with (nls +:+ fm +:+ closing +:+ tail) by reflexivity.
    rewrite (TrimLeft_unique nls _ (fm +:+ closing +:+ tail) newlines eq_refl Hall Hst).
    rewrite (Index_unique fm _ closing tail eq_refl Hk).
    rewrite take_app.
    replace (len fm + 4) with (len (fm +:+ closing)) by (rewrite len_app; reflexivity).
    rewrite <- sapp_assoc, drop_app. reflexivity.
Qed.

(** C9, as stated, fails: the delimiters need not be lines of their own.
    [---a] followed by [---b] is split, into [a] and [b], although neither
    line is exactly [---]. *)
Lemma C9_delimiters_are_not_lines :
  splitFrontmatter ("---a" +:+ str LF +:+ "---b") = inl ("a", "b") /\
  delimitedByLines ("---a" +:+ str LF +:+ "---b") = false.
Proof. split; reflexivity. Qed.

(** C9, amended: the splitter works on the content trimmed of white space.
    It succeeds exactly when the trimmed content is [---], line breaks, a
    block that does not start with a line break, the first occurrence of
    a line feed followed by [---], and a tail; it then returns that block
    as the metadata and the tail without its leading line breaks as the
    body.  In every other case it returns an error and no part of the
    content. *)
Theorem C9_split_frontmatter (content : string) :
  (forall fm body,
     splitFrontmatter content = inl (fm, body) <->
     FrontmatterShape (TrimSpace content) fm body) /\
  ((exists e, splitFrontmatter content = inr e) <->
   ~ exists fm body, FrontmatterShape (TrimSpace content) fm body).
Proof.
  split; [intros fm body; apply splitFrontmatter_shape |].
  split.
  - intros [e He] (fm & body & Hs). apply splitFrontmatter_shape in Hs. congruence.
  - intros Hn. destruct (splitFrontmatter content) as [[fm body]|e] eqn:Hs.
    + exfalso. apply Hn. exists fm, body. now apply splitFrontmatter_shape.
    + now exists e.
Qed.

Lemma C9_split_frontmatter_witness :
  FrontmatterShape (TrimSpace ticketFile)
    ("key: PROJ-1" +:+ str LF +:+ "title: T") "# PROJ-1: T".
Proof.
  apply (proj1 (C9_split_frontmatter ticketFile)). reflexivity.
Defined.

(** ** White-space trimming *)

Section TrimBy.
Variable sp1 : ascii -> bool.
Variable sp2 : ascii -> ascii -> bool.
Variable sp3 : ascii -> ascii -> ascii -> bool.

Let trim := trimBy sp1 sp2 sp3.
Let width := widthBy sp1 sp2 sp3.

Lemma trimBy_unfold s :
  trim s = match width s with 0 => s | S w => trim (drop (S w) s) end.
Proof.
  unfold trim, width.
  destruct s as [|a [|b [|c r]]]; cbn [trimBy widthBy drop];
    repeat (match goal with |- context [if ?b then _ else _] => destruct b end;
            cbn [trimBy widthBy drop]);
    reflexivity.
Qed.

Lemma width_le s : width s <= len s.
Proof.
  unfold width.
  destruct s as [|a [|b [|c r]]]; cbn [widthBy];
    repeat match goal with |- context [if ?b then _ else _] => destruct b end;
    slia.
Qed.

Lemma width_app a b : width a <> 0 -> width (a +:+ b) = width a.
Proof.
  unfold width.
  destruct a as [|x [|y [|z r]]]; cbn [widthBy String.append];
    repeat match goal with |- context [if ?b then _ else _] => destruct b end;
    try reflexivity; try congruence.
Qed.

Lemma trimBy_suffix s : exists p, s = p +:+ trim s.
Proof.
  remember (len s) as n eqn:Hn. revert s Hn.
  induction n as [n IH] using lt_wf_ind. intros s ->.
  rewrite trimBy_unfold. destruct (width s) as [|w] eqn:Hw.
  - now exists "".
  - pose proof (width_le s) as Hle. rewrite Hw in Hle.
    destruct (IH (len (drop (S w) s))) with (s := drop (S w) s) as [p Hp];
      [rewrite len_drop; lia | reflexivity |].
    exists (take (S w) s +:+ p). rewrite sapp_assoc, <- Hp. symmetry. apply take_drop.
Qed.

Lemma trimBy_width s : width (trim s) = 0.
Proof.
  remember (len s) as n eqn:Hn. revert s Hn.
  induction n as [n IH] using lt_wf_ind. intros s ->.
  rewrite trimBy_unfold. destruct (width s) as [|w] eqn:Hw; [exact Hw |].
  pose proof (width_le s) as Hle. rewrite Hw in Hle.
  apply (IH (len (drop (S w) s))); [rewrite len_drop; lia | reflexivity].
Qed.

Lemma trimBy_id s : width s = 0 -> trim s = s.
Proof. intros H. rewrite trimBy_unfold. now rewrite H. Qed.

Lemma trimBy_idem s : trim (trim s) = trim s.
Proof. apply trimBy_id, trimBy_width. Qed.

Lemma width_prefix a b : width (a +:+ b) = 0 -> width a = 0.
Proof.
  intros H. destruct (Nat.eq_dec (width a) 0) as [|Hn]; [assumption |].
  rewrite (width_app a b Hn) in H. contradiction.
Qed.

End TrimBy.

Lemma trimRightSpace_prefix s : exists q, s = trimRightSpace s +:+ q.
Proof.
  unfold trimRightSpace, trimLeftSpaceRev.
  destruct (trimBy_suffix asciiSpace (fun a b => space2 b a) (fun a b c => space3 c b a) (rev s))
    as [p Hp].
  exists (rev p). apply rev_inj. now rewrite rev_app, !rev_involutive.
Qed.

Lemma trimRightSpace_idem s : trimRightSpace (trimRightSpace s) = trimRightSpace s.
Proof.
  unfold trimRightSpace, trimLeftSpaceRev. now rewrite rev_involutive, trimBy_idem.
Qed.

Lemma trimLeftSpace_trimRight s :
  trimLeftSpace s = s -> trimLeftSpace (trimRightSpace s) = trimRightSpace s.
Proof.
  intros H. unfold trimLeftSpace in *. apply trimBy_id.
  destruct (trimRightSpace_prefix s) as [q Hq].
  apply (width_prefix _ _ _ _ q). rewrite <- Hq, <- H. apply trimBy_width.
Qed.

Lemma TrimSpace_idem s : TrimSpace (TrimSpace s) = TrimSpace s.
Proof.
  unfold TrimSpace.
  rewrite trimLeftSpace_trimRight; [apply trimRightSpace_idem |].
  unfold trimLeftSpace. apply trimBy_idem.
Qed.

(** ** Tables: the separator row *)

Lemma allIn_app a b cutset : allIn (a +:+ b) cutset = allIn a cutset && allIn b cutset.
Proof.
  induction a as [|c a IH]; simpl; [reflexivity |].
  now rewrite IH, andb_assoc.
Qed.

Lemma allIn_rev s cutset : allIn (rev s) cutset = allIn s cutset.
Proof.
  induction s as [|c s IH]; [reflexivity |].
  rewrite rev_cons, allIn_app, IH. simpl. rewrite andb_true_r. apply andb_comm.
Qed.

Lemma TrimLeft_empty s cutset : TrimLeft s cutset = "" <-> allIn s cutset = true.
Proof.
  induction s as [|c s IH]; simpl; [tauto |].
  destruct (mem c cutset); simpl; [exact IH |]. split; discriminate.
Qed.

Lemma Trim_empty s cutset : Trim s cutset = "" <-> allIn s cutset = true.
Proof.
  unfold Trim, TrimRight. rewrite TrimLeft_empty, allIn_rev. split.
  - intros H. destruct (TrimLeft_spec (rev s) cutset) as (p & Hp & Hall & _).
    rewrite <- (allIn_rev s), Hp, allIn_app, Hall, H. reflexivity.
  - intros H. rewrite <- allIn_rev in H. apply TrimLeft_empty in H. now rewrite H.
Qed.

Lemma stripColonDash_empty s : stripColonDash s = "" <-> allIn s ":-" = true.
Proof.
  induction s as [|c s IH]; cbn [stripColonDash allIn]; [tauto |].
  destruct (mem c ":-"); cbn [andb]; [exact IH |]. split; discriminate.
Qed.

Lemma eqb_empty_iff a b : (a =s "") = (b =s "") <-> (a = "" <-> b = "").
Proof.
  destruct (String.eqb_spec a ""), (String.eqb_spec b ""); split;
    try tauto; try congruence; try discriminate.
Qed.

Lemma forallb_map {A B} (f : B -> bool) (g : A -> B) l :
  forallb f (map g l) = forallb (fun x => f (g x)) l.
Proof. induction l as [|x l IH]; simpl; [reflexivity | now rewrite IH]. Qed.

Lemma forallb_pointwise {A} (f g : A -> bool) l :
  (forall x, f x = g x) -> forallb f l = forallb g l.
Proof. intros H. induction l as [|x l IH]; simpl; [reflexivity | now rewrite H, IH]. Qed.

(** The test of the source, [Trim(TrimSpace(cell), ":-") != ""] for some
    cell, is the test of the specification. *)
Lemma isSeparatorLine_spec line : isSeparatorLine line = separatorBySpec line.
Proof.
  unfold isSeparatorLine, separatorBySpec, splitTableRow.
  rewrite !forallb_map. apply forallb_pointwise. intros p. cbv beta.
  rewrite TrimSpace_idem. apply eqb_empty_iff.
  rewrite Trim_empty, stripColonDash_empty. reflexivity.
Qed.

Lemma Split_not_nil s sep : Split s sep <> [].
Proof.
  induction s as [|c s IH]; simpl; [discriminate |].
  destruct (Ascii.eqb c sep); [discriminate |].
  destruct (Split s sep); [contradiction | discriminate].
Qed.



Lemma parseMarkdownTable_rows lines i first second rest :
  map TrimSpace (takeWhile pipeLine (skipn i lines)) = first :: second :: rest ->
  parseMarkdownTable lines i
  = (Some (mkNode "table"
       (if separatorBySpec second
        then buildTableRow (splitTableRow first) true
               :: map (fun line => buildTableRow (splitTableRow line) false) rest
        else map (fun line => buildTableRow (splitTableRow line) false)
               (first :: second :: rest))
       "" tableAttrs []),
     i + 2 + length rest).
Proof.
  intros H. unfold parseMarkdownTable. fold pipeLine.
  assert (Hlen : length (takeWhile pipeLine (skipn i lines)) = 2 + length rest).
  { rewrite <- (length_map TrimSpace), H. reflexivity. }
  rewrite H, Hlen, isSeparatorLine_spec. f_equal. lia.
Qed.



(** ** The regular expressions *)

Lemma drop_drop n : forall m s, drop m (drop n s) = drop (n + m) s.
Proof.
  induction n as [|n IH]; intros m s; [reflexivity |].
  destruct s as [|c s]; simpl; [now destruct m | apply IH].
Qed.

Lemma rep_sound {R} k (kont : cont R) cs x : forall s min pos,
  rep k min pos s cs kont = Some x ->
  exists n, min <= n /\ n <= len s /\ kont (pos + n) (drop n s) cs = Some x.
Proof.
  induction s as [|c s IH]; intros min pos H; cbn [rep] in H.
  - destruct min; [| discriminate]. exists 0. rewrite Nat.add_0_r. split; [lia | split; [slia | exact H]].
  - assert (Hstop : match min with 0 => kont pos (String c s) cs | S _ => None end = Some x ->
              exists n, min <= n /\ n <= len (String c s) /\
                        kont (pos + n) (drop n (String c s)) cs = Some x).
    { destruct min; [| discriminate]. intros Hk. exists 0. rewrite Nat.add_0_r.
      split; [lia | split; [slia | exact Hk]]. }
    destruct (in_class c k); [| now apply Hstop].
    destruct (rep k (Nat.pred min) (S pos) s cs kont) as [y|] eqn:Hr; [| now apply Hstop].
    injection H as ->. apply IH in Hr as (n & Hmin & Hlen & Hk).
    exists (S n). split; [lia | split; [slia |]].
    replace (pos + S n) with (S pos + n) by lia. exact Hk.
Qed.

Lemma run_sound {R} re : forall (kont : cont R) pos s cs x,
  run re pos s cs kont = Some x ->
  exists n cs', minLen re <= n /\ n <= len s /\ kont (pos + n) (drop n s) cs' = Some x.
Proof.
  induction re as [c | k | min k | r1 IH1 r2 IH2 | r1 IH1 r2 IH2 | r IH | ];
    intros kont pos s cs x H; cbn [run minLen] in *.
  - destruct s as [|d s]; [discriminate |]. destruct (Ascii.eqb d c); [| discriminate].
    exists 1, cs. split; [lia | split; [slia |]]. now replace (pos + 1) with (S pos) by lia.
  - destruct s as [|d s]; [discriminate |]. destruct (in_class d k); [| discriminate].
    exists 1, cs. split; [lia | split; [slia |]]. now replace (pos + 1) with (S pos) by lia.
  - apply rep_sound in H as (n & ? & ? & ?). now exists n, cs.
  - apply IH1 in H as (n1 & cs1 & Hm1 & Hl1 & H).
    apply IH2 in H as (n2 & cs2 & Hm2 & Hl2 & H).
    rewrite len_drop in Hl2. rewrite drop_drop, <- Nat.add_assoc in H.
    exists (n1 + n2), cs2. split; [lia | split; [lia | exact H]].
  - destruct (run r1 pos s cs kont) as [y|] eqn:H1.
    + injection H as ->. apply IH1 in H1 as (n & cs' & ? & ? & ?).
      exists n, cs'. split; [lia | split; [lia | assumption]].
    + apply IH2 in H as (n & cs' & ? & ? & ?).
      exists n, cs'. split; [lia | split; [lia | assumption]].
  - apply IH in H as (n & cs' & ? & ? & ?). eexists n, _.
    split; [eassumption | split; eassumption].
  - destruct pos; [| discriminate]. exists 0, cs. split; [lia | split; [lia | exact H]].
Qed.

Lemma match_at_bounds re pos s a e cs :
  match_at re pos s = Some (a, e, cs) ->
  a = pos /\ pos + minLen re <= e /\ e <= pos + len s.
Proof.
  unfold match_at. intros H. apply run_sound in H as (n & cs' & Hm & Hl & H).
  injection H as <- <- <-. lia.
Qed.

Lemma find_from_bounds re : forall s pos a e cs,
  find_from re pos s = Some (a, e, cs) ->
  pos <= a /\ a + minLen re <= e /\ e <= pos + len s.
Proof.
  induction s as [|c s IH]; intros pos a e cs H; cbn [find_from] in H.
  - destruct (match_at re pos "") as [[[a' e'] cs']|] eqn:Hm; [| discriminate].
    injection H as -> -> ->. apply match_at_bounds in Hm. lia.
  - destruct (match_at re pos (String c s)) as [[[a' e'] cs']|] eqn:Hm.
    + injection H as -> -> ->. apply match_at_bounds in Hm. lia.
    + apply IH in H. slia.
Qed.

Lemma Find_bounds re s a e cs :
  FindStringSubmatchIndex re s = Some (a, e, cs) ->
  a + minLen re <= e /\ e <= len s.
Proof. unfold FindStringSubmatchIndex. intros H. apply find_from_bounds in H. lia. Qed.

(** ** Inline parsing: leftmost match, priority on ties *)

Lemma patterns_minLen : Forall (fun p => 3 <= minLen (re p)) patterns.
Proof. unfold patterns. repeat constructor; cbn; lia. Qed.

Lemma leftmost_bounds pi remaining a e cs :
  leftmost pi remaining = Some (a, e, cs) ->
  a + 3 <= e /\ e <= len remaining /\ pi < length patterns.
Proof.
  unfold leftmost. destruct (patterns !! pi) as [p|] eqn:Hp; [| discriminate].
  intros H. apply Find_bounds in H.
  pose proof (Forall_lookup_1 _ _ _ _ patterns_minLen Hp) as Hmin. cbv beta in Hmin.
  apply lookup_lt_Some in Hp. lia.
Qed.

Lemma leftmost_middle done p ps remaining :
  patterns = done ++ p :: ps ->
  leftmost (length done) remaining = FindStringSubmatchIndex (re p) remaining.
Proof. unfold leftmost. intros ->. now rewrite list_lookup_middle. Qed.

Lemma tryPattern_inv remaining done p ps st :
  patterns = done ++ p :: ps ->
  ScanInv remaining st (length done) ->
  ScanInv remaining (tryPattern remaining st (length done) p) (S (length done)).
Proof.
  intros Hpat Hinv. pose proof (leftmost_middle done p ps remaining Hpat) as Hl.
  unfold tryPattern. rewrite <- Hl.
  destruct (leftmost (length done) remaining) as [[[s e] cs]|] eqn:Hf.
  - pose proof (leftmost_bounds _ _ _ _ _ Hf) as (Hb1 & Hb2 & _).
    destruct st as [idx sel]. unfold ScanInv in *. cbn [fst snd] in *.
    destruct (Nat.ltb_spec s idx) as [Hlt | Hge]; cbn [fst snd].
    + split; [reflexivity |]. split; [lia |]. split; [exact Hf |].
      intros j loc' Hj Hloc'. cbn [start fst].
      destruct (Nat.eq_dec j (length done)) as [-> | Hne].
      * rewrite Hf in Hloc'. injection Hloc' as <-. right. cbn. lia.
      * assert (Hj' : j < length done) by lia.
        destruct sel as [[k loc]|].
        -- destruct Hinv as (Hidx & _ & _ & Hall).
           destruct (Hall j loc' Hj' Hloc') as [? | [? ?]]; left; lia.
        -- destruct Hinv as (_ & Hnone). rewrite (Hnone j Hj') in Hloc'. discriminate.
    + destruct sel as [[k loc]|].
      * destruct Hinv as (Hidx & Hk & Hloc & Hall).
        split; [exact Hidx |]. split; [lia |]. split; [exact Hloc |].
        intros j loc' Hj Hloc'.
        destruct (Nat.eq_dec j (length done)) as [-> | Hne].
        -- rewrite Hf in Hloc'. injection Hloc' as <-. cbn [start fst]. lia.
        -- apply Hall; [lia | exact Hloc'].
      * destruct Hinv as (Hidx & _). lia.
  - destruct st as [idx sel]. unfold ScanInv in *. cbn [fst snd] in *.
    destruct sel as [[k loc]|].
    + destruct Hinv as (Hidx & Hk & Hloc & Hall).
      split; [exact Hidx |]. split; [lia |]. split; [exact Hloc |].
      intros j loc' Hj Hloc'.
      destruct (Nat.eq_dec j (length done)) as [-> | Hne]; [congruence |].
      apply Hall; [lia | exact Hloc'].
    + destruct Hinv as (Hidx & Hnone). split; [exact Hidx |].
      intros j Hj. destruct (Nat.eq_dec j (length done)) as [-> | Hne]; [exact Hf |].
      apply Hnone. lia.
Qed.

Lemma scanPatterns_inv remaining : forall ps done st,
  patterns = done ++ ps ->
  ScanInv remaining st (length done) ->
  ScanInv remaining (scanPatterns remaining st (length done) ps) (length patterns).
Proof.
  induction ps as [|p ps IH]; intros done st Hpat Hinv; cbn [scanPatterns].
  - rewrite Hpat, app_nil_r. exact Hinv.
  - replace (S (length done)) with (length (done ++ [p]))
      by (rewrite length_app; simpl; lia).
    apply IH; [now rewrite <- app_assoc |].
    rewrite length_app, Nat.add_1_r. now apply (tryPattern_inv _ _ _ ps).
Qed.

Lemma leftmost_beyond pj remaining : length patterns <= pj -> leftmost pj remaining = None.
Proof.
  intros H. unfold leftmost. now rewrite (lookup_ge_None_2 patterns pj H).
Qed.

(** The choice of [parseInline] in one turn. *)
Lemma earliest_spec remaining :
  match earliest remaining with
  | Some (pi, loc) => Selected remaining pi loc
  | None => NoMatch remaining
  end.
Proof.
  unfold earliest.
  assert (H0 : ScanInv remaining (len remaining, None) (length (@nil pattern))).
  { split; [reflexivity |]. intros j Hj. simpl in Hj. lia. }
  pose proof (scanPatterns_inv remaining patterns [] _ eq_refl H0) as H.
  cbn [length] in H. unfold ScanInv in H.
  destruct (snd (scanPatterns remaining (len remaining, None) 0 patterns)) as [[k loc]|].
  - destruct H as (_ & Hk & Hloc & Hall). split; [exact Hloc |].
    intros pj loc' Hloc'. apply Hall; [| exact Hloc'].
    destruct loc' as [[a e] cs]. now apply leftmost_bounds in Hloc'.
  - destruct H as (_ & Hnone). intros pj.
    destruct (Nat.lt_ge_cases pj (length patterns)); [now apply Hnone |].
    now apply leftmost_beyond.
Qed.

Lemma parseInline_loop_scanned fuel : forall remaining nodes,
  len remaining < fuel ->
  exists scanned,
    parseInline_loop fuel remaining nodes = nodes ++ scanned /\ Scanned remaining scanned.
Proof.
  induction fuel as [|fuel IH]; intros remaining nodes Hlen; [lia |].
  cbn [parseInline_loop].
  destruct (String.eqb_spec remaining "") as [-> | Hne].
  - exists []. split; [now rewrite app_nil_r | constructor].
  - pose proof (earliest_spec remaining) as Hsel.
    destruct (earliest remaining) as [[pi [[s e] cs]]|].
    + pose proof Hsel as [Hloc _]. apply leftmost_bounds in Hloc as (Hb1 & Hb2 & _).
      destruct (IH (drop e remaining)
                  ((if 0 <? s then nodes ++ [textNode (take s remaining) []] else nodes)
                   ++ markNodes pi (matchStrings remaining (s, e, cs))))
        as (rest & Heq & Hrest); [rewrite len_drop; lia |].
      eexists. split; [| apply (Scanned_match remaining pi s e cs rest Hne Hsel Hrest)].
      rewrite Heq. destruct (0 <? s); now rewrite <- ?app_assoc.
    + exists [textNode remaining []]. split; [reflexivity | now constructor].
Qed.

Lemma markNodes_not_nil pi m : pi < length patterns -> markNodes pi m <> [].
Proof.
  unfold markNodes, patterns. intros H.
  do 5 (destruct pi as [|pi]; [discriminate |]). simpl in H. lia.
Qed.

Lemma Scanned_not_nil remaining nodes :
  Scanned remaining nodes -> remaining <> "" -> nodes <> [].
Proof.
  intros H Hne. destruct H as [| |remaining pi s e cs nodes _ [Hloc _] _];
    [contradiction | discriminate |].
  apply leftmost_bounds in Hloc as (_ & _ & Hpi).
  pose proof (markNodes_not_nil pi (matchStrings remaining (s, e, cs)) Hpi).
  destruct (0 <? s); [discriminate |].
  destruct (markNodes pi _); [contradiction | discriminate].
Qed.

Lemma parseInline_scanned text : text <> "" -> Scanned text (parseInline text).
Proof.
  intros Hne. unfold parseInline.
  destruct (String.eqb_spec text ""); [contradiction |].
  destruct (parseInline_loop_scanned (S (len text)) text []) as (nodes & Heq & Hs); [lia |].
  rewrite Heq. cbn [app].
  pose proof (Scanned_not_nil text nodes Hs Hne).
  destruct nodes; [contradiction | exact Hs].
Qed.



(** ** base64 *)

Lemma dec_enc i : i < 64 -> base64.dec (base64.enc i) = Some i.
Proof.
  intros H.
  assert (Hall : forallb (fun i => match base64.dec (base64.enc i) with
                                   | Some j => j =? i | None => false end) (seq 0 64) = true)
    by (vm_compute; reflexivity).
  rewrite forallb_forall in Hall. specialize (Hall i).
  destruct (base64.dec (base64.enc i)) as [j|].
  - f_equal. apply Nat.eqb_eq. apply Hall. apply in_seq. lia.
  - discriminate Hall. apply in_seq. lia.
Qed.

Lemma enc_chars i : i < 64 -> mem (base64.enc i) base64Chars = true.
Proof.
  intros H.
  assert (Hall : forallb (fun i => mem (base64.enc i) base64Chars) (seq 0 64) = true)
    by (vm_compute; reflexivity).
  rewrite forallb_forall in Hall. apply Hall. apply in_seq. lia.
Qed.

Lemma dec_pad : base64.dec base64.pad = None.
Proof. reflexivity. Qed.

Ltac byte_bound a :=
  let H := fresh "Hb" in
  pose proof (nat_ascii_bounded a) as H.

Lemma div_mod_4 x : x / 4 * 4 + x mod 4 = x.
Proof. pose proof (Nat.div_mod_eq x 4). lia. Qed.

Lemma byte1_ok x y : y < 256 -> x / 4 * 4 + (x mod 4 * 16 + y / 16) / 16 = x.
Proof.
  intros Hy. pose proof (Nat.div_mod_eq x 4).
  assert (y / 16 < 16) by (apply Nat.Div0.div_lt_upper_bound; lia).
  replace ((x mod 4 * 16 + y / 16) / 16) with (x mod 4).
  - lia.
  - symmetry. rewrite Nat.add_comm. rewrite Nat.div_add by lia.
    rewrite (Nat.div_small (y / 16)) by lia. reflexivity.
Qed.

Lemma byte2_ok x y z :
  y < 256 -> z < 256 ->
  (x mod 4 * 16 + y / 16) mod 16 * 16 + (y mod 16 * 4 + z / 64) / 4 = y.
Proof.
  intros Hy Hz. pose proof (Nat.div_mod_eq y 16).
  assert (y / 16 < 16) by (apply Nat.Div0.div_lt_upper_bound; lia).
  assert (z / 64 < 4) by (apply Nat.Div0.div_lt_upper_bound; lia).
  replace ((x mod 4 * 16 + y / 16) mod 16) with (y / 16).
  - replace ((y mod 16 * 4 + z / 64) / 4) with (y mod 16); [lia |].
    symmetry. rewrite Nat.add_comm, Nat.div_add by lia.
    rewrite (Nat.div_small (z / 64)) by lia. reflexivity.
  - symmetry. rewrite Nat.add_comm, Nat.Div0.mod_add. apply Nat.mod_small. lia.
Qed.

Lemma byte3_ok y z : z < 256 -> (y mod 16 * 4 + z / 64) mod 4 * 64 + z mod 64 = z.
Proof.
  intros Hz. pose proof (Nat.div_mod_eq z 64).
  assert (z / 64 < 4) by (apply Nat.Div0.div_lt_upper_bound; lia).
  replace ((y mod 16 * 4 + z / 64) mod 4) with (z / 64); [lia |].
  symmetry. rewrite Nat.add_comm, Nat.Div0.mod_add. apply Nat.mod_small. lia.
Qed.

Lemma idx_bounds x y z :
  x < 256 -> y < 256 -> z < 256 ->
  x / 4 < 64 /\ x mod 4 * 16 + y / 16 < 64 /\ y mod 16 * 4 + z / 64 < 64 /\ z mod 64 < 64.
Proof.
  intros Hx Hy Hz.
  assert (x / 4 < 64) by (apply Nat.Div0.div_lt_upper_bound; lia).
  assert (y / 16 < 16) by (apply Nat.Div0.div_lt_upper_bound; lia).
  assert (z / 64 < 4) by (apply Nat.Div0.div_lt_upper_bound; lia).
  pose proof (Nat.mod_upper_bound x 4). pose proof (Nat.mod_upper_bound y 16).
  pose proof (Nat.mod_upper_bound z 64). lia.
Qed.

Lemma EncodeToString_chars : forall s, allIn (base64.EncodeToString s) base64Chars = true.
Proof.
  intros s. remember (len s) as n eqn:Hn. revert s Hn.
  induction n as [n IH] using lt_wf_ind. intros s ->.
  destruct s as [|a [|b [|c r]]]; cbn [base64.EncodeToString allIn]; [reflexivity | | |].
  - byte_bound a. destruct (idx_bounds (nat_of_ascii a) 0 0) as (? & ? & _); [lia .. |].
    rewrite !enc_chars by (simpl in *; lia). reflexivity.
  - byte_bound a. byte_bound b.
    destruct (idx_bounds (nat_of_ascii a) (nat_of_ascii b) 0) as (? & ? & ? & _); [lia .. |].
    rewrite !enc_chars by (simpl in *; lia). reflexivity.
  - byte_bound a. byte_bound b. byte_bound c.
    destruct (idx_bounds (nat_of_ascii a) (nat_of_ascii b) (nat_of_ascii c))
      as (? & ? & ? & ?); [lia .. |].
    rewrite !enc_chars by lia. cbn [andb].
    apply (IH (len r)); [slia | reflexivity].
Qed.

Lemma base64Chars_no_newline c :
  mem c base64Chars = true -> (Ascii.eqb c CR || Ascii.eqb c LF) = false.
Proof.
  intros H. destruct (Ascii.eqb_spec c CR) as [-> |]; [vm_compute in H; discriminate |].
  destruct (Ascii.eqb_spec c LF) as [-> |]; [vm_compute in H; discriminate | reflexivity].
Qed.

Lemma stripNewlines_id s : allIn s base64Chars = true -> base64.stripNewlines s = s.
Proof.
  induction s as [|c s IH]; cbn [allIn base64.stripNewlines]; [reflexivity |].
  intros H. apply andb_prop in H as [Hc Hs].
  rewrite (base64Chars_no_newline c Hc), IH by exact Hs. reflexivity.
Qed.

Lemma decodeQuanta_encode : forall s,
  base64.decodeQuanta (base64.EncodeToString s) = Some s.
Proof.
  intros s. remember (len s) as n eqn:Hn. revert s Hn.
  induction n as [n IH] using lt_wf_ind. intros s ->.
  destruct s as [|a [|b [|c r]]];
    cbn [base64.EncodeToString base64.decodeQuanta]; [reflexivity | | |].
  - byte_bound a. destruct (idx_bounds (nat_of_ascii a) 0 0) as (? & ? & _); [lia .. |].
    rewrite !dec_enc by (simpl in *; lia). rewrite dec_pad.
    change (Ascii.eqb base64.pad base64.pad) with true. cbn [andb].
    unfold base64.byte1.
    replace (nat_of_ascii a / 4 * 4 + nat_of_ascii a mod 4 * 16 / 16) with (nat_of_ascii a).
    + now rewrite ascii_nat_embedding.
    + rewrite Nat.div_mul by lia. symmetry. apply div_mod_4.
  - byte_bound a. byte_bound b.
    destruct (idx_bounds (nat_of_ascii a) (nat_of_ascii b) 0) as (? & ? & ? & _); [lia .. |].
    rewrite !dec_enc by (simpl in *; lia). rewrite dec_pad.
    change (Ascii.eqb base64.pad base64.pad) with true. cbn iota.
    unfold base64.byte1, base64.byte2.
    rewrite byte1_ok by lia.
    pose proof (byte2_ok (nat_of_ascii a) (nat_of_ascii b) 0 Hb0 ltac:(lia)) as H2.
    change (0 / 64) with 0 in H2. rewrite Nat.add_0_r in H2. rewrite H2.
    now rewrite !ascii_nat_embedding.
  - byte_bound a. byte_bound b. byte_bound c.
    destruct (idx_bounds (nat_of_ascii a) (nat_of_ascii b) (nat_of_ascii c))
      as (? & ? & ? & ?); [lia .. |].
    rewrite !dec_enc by lia.
    rewrite (IH (len r)) with (s := r); [| slia | reflexivity].
    unfold base64.byte1, base64.byte2, base64.byte3.
    rewrite byte1_ok, byte2_ok, byte3_ok by lia.
    now rewrite !ascii_nat_embedding.
Qed.

(** What [DecodeString] returns on what [EncodeToString] wrote. *)
Lemma DecodeString_EncodeToString s :
  base64.DecodeString (base64.EncodeToString s) = Some s.
Proof.
  unfold base64.DecodeString.
  rewrite stripNewlines_id by apply EncodeToString_chars.
  apply decodeQuanta_encode.
Qed.

(** ** The marker codec *)

Lemma mem_app c a b : mem c (a +:+ b) = mem c a || mem c b.
Proof.
  induction a as [|x a IH]; cbn [String.append mem]; [reflexivity |].
  now rewrite IH, orb_assoc.
Qed.

Lemma Split_single s sep : mem sep s = false -> Split s sep = [s].
Proof.
  induction s as [|c s IH]; cbn [mem Split]; [reflexivity |].
  intros H. apply orb_false_iff in H as [Hc Hs].
  rewrite Ascii.eqb_sym, Hc, (IH Hs). reflexivity.
Qed.

Lemma Split_app a sep b :
  mem sep a = false -> Split (a +:+ String sep b) sep = a :: Split b sep.
Proof.
  induction a as [|c a IH]; cbn [mem Split String.append].
  - intros _. now rewrite Ascii.eqb_refl.
  - intros H. apply orb_false_iff in H as [Hc Hs].
    rewrite Ascii.eqb_sym, Hc, (IH Hs). reflexivity.
Qed.

Lemma allIn_mem s cutset c :
  allIn s cutset = true -> mem c cutset = false -> mem c s = false.
Proof.
  induction s as [|x s IH]; cbn [allIn mem]; [reflexivity |].
  intros H Hc. apply andb_prop in H as [Hx Hs]. rewrite (IH Hs Hc), orb_false_r.
  destruct (Ascii.eqb_spec c x) as [-> |]; [congruence | reflexivity].
Qed.

Lemma plainByte_width s :
  firstPlain s = true ->
  widthBy asciiSpace space2 space3 s = 0 /\
  widthBy asciiSpace (fun a b => space2 b a) (fun a b c => space3 c b a) s = 0.
Proof.
  destruct s as [|a r]; [split; reflexivity |]. cbn [firstPlain]. unfold plainByte.
  intros H. apply andb_prop in H as [Hs Hlt]. apply negb_true_iff in Hs.
  apply Nat.ltb_lt in Hlt.
  assert (H2 : forall b, space2 a b = false /\ space2 b a = false).
  { intros b. unfold space2. split.
    - destruct (Nat.eqb_spec (nat_of_ascii a) 194); [lia | reflexivity].
    - destruct (Nat.eqb_spec (nat_of_ascii a) 133); [lia |].
      destruct (Nat.eqb_spec (nat_of_ascii a) 160); [lia |]. apply andb_false_r. }
  assert (H3 : forall b c, space3 a b c = false /\ space3 c b a = false).
  { intros b c. unfold space3. split.
    - destruct (Nat.eqb_spec (nat_of_ascii a) 225); [lia |].
      destruct (Nat.eqb_spec (nat_of_ascii a) 226); [lia |].
      destruct (Nat.eqb_spec (nat_of_ascii a) 227); [lia | reflexivity].
    - destruct (Nat.eqb_spec (nat_of_ascii a) 128); [lia |].
      destruct (Nat.leb_spec 128 (nat_of_ascii a)); [lia |].
      destruct (Nat.eqb_spec (nat_of_ascii a) 168); [lia |].
      destruct (Nat.eqb_spec (nat_of_ascii a) 169); [lia |].
      destruct (Nat.eqb_spec (nat_of_ascii a) 175); [lia |].
      destruct (Nat.eqb_spec (nat_of_ascii a) 159); [lia |].
      cbn [andb orb]. now rewrite !andb_false_r. }
  unfold widthBy. rewrite Hs.
  destruct r as [|b [|c r]]; [split; reflexivity | |].
  - destruct (H2 b) as [-> ->]. split; reflexivity.
  - destruct (H2 b) as [-> ->]. destruct (H3 b c) as [-> ->]. split; reflexivity.
Qed.

Lemma TrimSpace_plain s :
  firstPlain s = true -> firstPlain (rev s) = true -> TrimSpace s = s.
Proof.
  intros Hf Hl. unfold TrimSpace, trimRightSpace, trimLeftSpace, trimLeftSpaceRev.
  rewrite (trimBy_id _ _ _ s) by apply (plainByte_width s Hf).
  rewrite (trimBy_id _ _ _ (rev s)) by apply (plainByte_width (rev s) Hl).
  apply rev_involutive.
Qed.

Lemma base64Chars_plain c : mem c base64Chars = true -> plainByte c = true.
Proof.
  intros H.
  assert (Hall : forallb (fun n => implb (mem (ascii_of_nat n) base64Chars)
                                     (plainByte (ascii_of_nat n))) (seq 0 256) = true)
    by (vm_compute; reflexivity).
  rewrite forallb_forall in Hall.
  specialize (Hall (nat_of_ascii c)). rewrite ascii_nat_embedding, H in Hall.
  apply Hall. apply in_seq. pose proof (nat_ascii_bounded c). lia.
Qed.

Lemma TrimSpace_base64 s : TrimSpace (base64.EncodeToString s) = base64.EncodeToString s.
Proof.
  pose proof (EncodeToString_chars s) as H.
  apply TrimSpace_plain.
  - destruct (base64.EncodeToString s) as [|c r]; [reflexivity |].
    cbn [allIn firstPlain] in *. apply andb_prop in H as [Hc _].
    now apply base64Chars_plain.
  - rewrite <- allIn_rev in H.
    destruct (rev (base64.EncodeToString s)) as [|c r]; [reflexivity |].
    cbn [allIn firstPlain] in *. apply andb_prop in H as [Hc _].
    now apply base64Chars_plain.
Qed.

Lemma lineAt_app pre ls k : lineAt (pre ++ ls) (length pre + k) = lineAt ls k.
Proof.
  unfold lineAt. rewrite lookup_app_r by lia.
  now replace (length pre + k - length pre) with k by lia.
Qed.


Lemma writePreservedMarker_lines `{J : Json} n js :
  json_Marshal n = Some js ->
  writePreservedMarker n
  = openLine n +:+ String LF (dataLine js +:+ String LF (preserveEnd +:+ String LF "")).
Proof.
  intros H. unfold writePreservedMarker, openLine, dataLine. rewrite H.
  rewrite !sapp_assoc. reflexivity.
Qed.

Lemma openLine_one_line n : mem LF (description n) = false -> mem LF (openLine n) = false.
Proof. intros H. unfold openLine. rewrite !mem_app, H. reflexivity. Qed.

Lemma dataLine_one_line js : mem LF (dataLine js) = false.
Proof.
  unfold dataLine. rewrite !mem_app.
  rewrite (allIn_mem _ base64Chars LF (EncodeToString_chars js) eq_refl). reflexivity.
Qed.


Lemma TrimSpace_dataLine js : TrimSpace (dataLine js) = dataLine js.
Proof.
  apply TrimSpace_plain; [reflexivity |].
  unfold dataLine. rewrite !rev_app. reflexivity.
Qed.

(** The payload that the reader extracts from a data line is the text
    that the writer encoded. *)
Lemma dataLine_payload js :
  TrimSpace (TrimSuffix (TrimPrefix (dataLine js) preserveData) " -->")
  = base64.EncodeToString js.
Proof.
  unfold dataLine. rewrite TrimPrefix_app, TrimSuffix_app. apply TrimSpace_base64.
Qed.


(** The descriptions of the tags that the renderer preserves hold on one
    line. *)
Lemma preserved_description_one_line n :
  isOneOf (Type_ n) preservedTags = true -> mem LF (description n) = false.
Proof.
  intros H. apply isOneOf_true in H. destruct n as [ty c t a m]. simpl in H.
  unfold description. cbn [Type_].
  repeat (destruct H as [<- | H]; [reflexivity |]). destruct H.
Qed.



(** ** Round trip through markdown *)



Lemma allBytes_mem p s c : allBytes p s = true -> p c = false -> mem c s = false.
Proof.
  induction s as [|x s IH]; cbn [allBytes mem]; [reflexivity |].
  intros H Hc. apply andb_prop in H as [Hx Hs]. rewrite (IH Hs Hc), orb_false_r.
  destruct (Ascii.eqb_spec c x) as [-> |]; [congruence | reflexivity].
Qed.

Lemma isLetter_plain c : isLetter c = true -> plainByte c = true.
Proof.
  intros H.
  assert (Hall : forallb (fun n => implb (isLetter (ascii_of_nat n))
                                     (plainByte (ascii_of_nat n))) (seq 0 256) = true)
    by (vm_compute; reflexivity).
  rewrite forallb_forall in Hall.
  specialize (Hall (nat_of_ascii c)). rewrite ascii_nat_embedding, H in Hall.
  apply Hall. apply in_seq. pose proof (nat_ascii_bounded c). lia.
Qed.

Lemma alnum_plain c : (isLetter c || isDigit c) = true -> plainByte c = true.
Proof.
  intros H.
  assert (Hall : forallb (fun n => implb (isLetter (ascii_of_nat n) || isDigit (ascii_of_nat n))
                                     (plainByte (ascii_of_nat n))) (seq 0 256) = true)
    by (vm_compute; reflexivity).
  rewrite forallb_forall in Hall.
  specialize (Hall (nat_of_ascii c)). rewrite ascii_nat_embedding, H in Hall.
  apply Hall. apply in_seq. pose proof (nat_ascii_bounded c). lia.
Qed.

(** What plain text is made of. *)
Lemma plainText_inv t :
  plainText t = true ->
  exists c r, t = String c r /\ isLetter c = true /\ allBytes wordByte t = true /\
              firstPlain (rev t) = true.
Proof.
  unfold plainText. intros H.
  apply andb_prop in H as [H Hl]. apply andb_prop in H as [Hall Hf].
  destruct t as [|c r]; [discriminate |]. exists c, r.
  repeat split; [exact Hf | exact Hall |].
  destruct (rev (String c r)) as [|d r']; [reflexivity |]. now apply alnum_plain.
Qed.



Lemma Bol_later re : forall s pos, find_from (Seq Bol re) (S pos) s = None.
Proof. induction s as [|c s IH]; intros pos; cbn; [reflexivity | apply IH]. Qed.

Lemma letter_not_digit c : isLetter c = true -> in_class c digit = false.
Proof.
  intros H.
  assert (Hall : forallb (fun n => implb (isLetter (ascii_of_nat n))
                                     (negb (in_class (ascii_of_nat n) digit))) (seq 0 256) = true)
    by (vm_compute; reflexivity).
  rewrite forallb_forall in Hall.
  specialize (Hall (nat_of_ascii c)). rewrite ascii_nat_embedding, H in Hall.
  apply negb_true_iff. apply Hall. apply in_seq. pose proof (nat_ascii_bounded c). lia.
Qed.



(** *** One turn of the block loop *)

Lemma turn_blank `{J : Json} fuel lines i content :
  i < length lines -> TrimSpace (lineAt lines i) = "" ->
  markdownToADF_loop (S fuel) lines i content
  = markdownToADF_loop fuel lines (i + 1) content.
Proof.
  intros Hi Hb. cbn [markdownToADF_loop].
  destruct (Nat.leb_spec (length lines) i); [lia |]. now rewrite Hb.
Qed.

Lemma turn_end `{J : Json} fuel lines i content :
  length lines <= i -> markdownToADF_loop (S fuel) lines i content = Some content.
Proof.
  intros Hi. cbn [markdownToADF_loop].
  destruct (Nat.leb_spec (length lines) i); [reflexivity | lia].
Qed.

Lemma turn_rule `{J : Json} fuel lines i content :
  i < length lines -> lineAt lines i = "---" ->
  markdownToADF_loop (S fuel) lines i content
  = markdownToADF_loop fuel lines (i + 1) (content ++ [node "rule" []]).
Proof.
  intros Hi Hl. cbn [markdownToADF_loop].
  destruct (Nat.leb_spec (length lines) i); [lia |]. rewrite Hl. reflexivity.
Qed.

Lemma turn_heading `{J : Json} fuel lines i content line level text :
  i < length lines -> lineAt lines i = line ->
  (TrimSpace line =s "") = false ->
  HasPrefix (TrimSpace line) preserveStart = false ->
  isRule line = false ->
  parseHeading line = (level, text) -> 0 < level ->
  markdownToADF_loop (S fuel) lines i content
  = markdownToADF_loop fuel lines (i + 1)
      (content ++ [mkNode "heading" (parseInline text) ""
                     {[ "level" := AInt (Z.of_nat level) ]} []]).
Proof.
  intros Hi Hl Hb Hm Hr Hh Hlevel. cbn [markdownToADF_loop].
  destruct (Nat.leb_spec (length lines) i); [lia |].
  rewrite Hl, Hb, Hm, Hr, Hh. cbn [fst].
  destruct (Nat.ltb_spec 0 level); [reflexivity | lia].
Qed.

Lemma turn_paragraph `{J : Json} fuel lines i content line paraLines :
  i < length lines -> lineAt lines i = line ->
  (TrimSpace line =s "") = false ->
  HasPrefix (TrimSpace line) preserveStart = false ->
  isRule line = false ->
  fst (parseHeading line) = 0 ->
  HasPrefix (TrimSpace line) "```" = false ->
  (HasPrefix line "> " || (line =s ">")) = false ->
  (HasPrefix line "- " || HasPrefix line "* ") = false ->
  MatchString ordRe line = false ->
  HasPrefix (TrimSpace line) "|" = false ->
  takeWhile (fun l => negb (paraStop l)) (skipn i lines) = paraLines ->
  paraLines <> [] ->
  markdownToADF_loop (S fuel) lines i content
  = markdownToADF_loop fuel lines (i + length paraLines)
      (content ++ [node "paragraph" (parseInline (Join paraLines " "))]).
Proof.
  intros Hi Hl Hb Hm Hr Hh Hc Hq Hu Ho Ht Hp Hne. cbn [markdownToADF_loop].
  destruct (Nat.leb_spec (length lines) i); [lia |].
  rewrite Hl, Hb, Hm, Hr, Hh, Hc, Hq, Hu, Ho, Ht, Hp. cbn [Nat.ltb Nat.leb].
  destruct paraLines; [contradiction | reflexivity].
Qed.

(** *** Plain text *)

Lemma find_lit_absent c re : forall s pos,
  mem c s = false -> find_from (Seq (Lit c) re) pos s = None.
Proof.
  induction s as [|d s IH]; intros pos H; [reflexivity |].
  cbn [mem] in H. apply orb_false_iff in H as [Hd Hs].
  cbn [find_from]. unfold match_at. cbn [run].
  rewrite Ascii.eqb_sym, Hd. now apply IH.
Qed.

Lemma plainText_NoMatch t : plainText t = true -> NoMatch t.
Proof.
  intros H. apply plainText_inv in H as (c & r & -> & _ & Hall & _).
  intros pj. unfold leftmost, patterns.
  do 5 (destruct pj as [|pj];
        [ apply find_lit_absent; now apply (allBytes_mem wordByte) |]).
  reflexivity.
Qed.

Lemma Scanned_NoMatch remaining nodes :
  Scanned remaining nodes -> remaining <> "" -> NoMatch remaining ->
  nodes = [textNode remaining []].
Proof.
  intros H Hne Hno. destruct H as [| |remaining pi s e cs nodes _ [Hloc _] _].
  - contradiction.
  - reflexivity.
  - rewrite (Hno pi) in Hloc. discriminate.
Qed.

Lemma parseInline_plain t : plainText t = true -> parseInline t = [textNode t []].
Proof.
  intros H. assert (Hne : t <> "").
  { apply plainText_inv in H as (c & r & -> & _). discriminate. }
  apply Scanned_NoMatch; [now apply parseInline_scanned | exact Hne |].
  now apply plainText_NoMatch.
Qed.

Lemma plainText_one_line t : plainText t = true -> mem LF t = false.
Proof.
  intros H. apply plainText_inv in H as (c & r & -> & _ & Hall & _).
  now apply (allBytes_mem wordByte).
Qed.



Lemma skipn_middle {A} (pre : list A) rest : skipn (length pre) (pre ++ rest) = rest.
Proof. induction pre as [|x pre IH]; [reflexivity | exact IH]. Qed.

Lemma lineAt_middle pre (l : string) post : lineAt (pre ++ l :: post) (length pre) = l.
Proof. unfold lineAt. now rewrite list_lookup_middle. Qed.


Lemma plainText_last t :
  plainText t = true -> exists d r, rev t = String d r /\ plainByte d = true.
Proof.
  unfold plainText. intros H. apply andb_prop in H as [_ Hl].
  destruct (rev t) as [|d r]; [discriminate |].
  exists d, r. split; [reflexivity | now apply alnum_plain].
Qed.

Lemma TrimSpace_after_space s : TrimSpace (String SP s) = TrimSpace s.
Proof. reflexivity. Qed.



Lemma turn_plain_rule `{J : Json} fuel pre post content :
  markdownToADF_loop (S fuel) (pre ++ "---" :: "" :: post) (length pre) content
  = markdownToADF_loop fuel (pre ++ "---" :: "" :: post) (length pre + 1)
      (content ++ [node "rule" []]).
Proof.
  apply turn_rule; [| apply lineAt_middle].
  rewrite length_app. cbn [length]. lia.
Qed.

(** *** Plain blocks *)

Lemma PlainBlock_level attrs f k :
  attrs !! "level" = Some (AFloat f) -> float_to_int f = Some k ->
  headingLevel attrs = Some k.
Proof. intros Ha Hf. unfold headingLevel. now rewrite Ha. Qed.




Lemma Equiv_text t : Equiv (textNode t []) (textNode t []).
Proof. constructor; try reflexivity; try constructor; discriminate. Qed.


(** *** Documents of plain blocks *)


Lemma Split_block l rest :
  mem LF l = false ->
  Split ((l +:+ str LF +:+ str LF) +:+ rest) LF = l :: "" :: Split rest LF.
Proof.
  intros H. rewrite !sapp_assoc.
  change (str LF +:+ str LF +:+ rest) with (String LF (String LF rest)).
  rewrite Split_app by exact H.
  cbn [Split]. change (Ascii.eqb LF LF) with true. reflexivity.
Qed.






(** * Further properties *)

(** *** Matches of the inline patterns *)


Lemma find_double_absent c re : forall s pos,
  noDouble c s = true -> find_from (Seq (Lit c) (Seq (Lit c) re)) pos s = None.
Proof.
  induction s as [|a s IH]; intros pos H; [reflexivity |].
  cbn [find_from]. unfold match_at. cbn [run].
  destruct s as [|b s].
  - destruct (Ascii.eqb a c); reflexivity.
  - cbn [noDouble] in H. apply andb_prop in H as [Hab Hs].
    apply negb_true_iff in Hab.
    destruct (Ascii.eqb a c); cbn [andb] in Hab.
    + rewrite Hab. now apply IH.
    + now apply IH.
Qed.

Lemma noDouble_absent c : forall t,
  mem c t = false -> noDouble c (t +:+ str c) = true.
Proof.
  induction t as [|a t IH]; intros H; [reflexivity |].
  cbn [mem] in H. apply orb_false_iff in H as [Ha Ht].
  cbn [String.append]. specialize (IH Ht).
  destruct (t +:+ str c) as [|b r] eqn:E; [reflexivity |].
  cbn [noDouble]. rewrite Ascii.eqb_sym, Ha. cbn [andb negb]. exact IH.
Qed.

(** A greedy repetition takes the whole of a text of the class when what
    follows is not of the class and the rest of the pattern matches
    there. *)
Lemma rep_greedy {R} k (kont : cont R) cs x rest :
  firstByte (fun c => in_class c k) rest = false ->
  forall t min pos,
    allBytes (fun c => in_class c k) t = true -> min <= len t ->
    kont (pos + len t) rest cs = Some x ->
    rep k min pos (t +:+ rest) cs kont = Some x.
Proof.
  intros Hrest. induction t as [|c t IH]; intros min pos Hall Hmin Hk.
  - assert (min = 0) by slia. subst min.
    cbn [String.append]. change (len "") with 0 in Hk. rewrite Nat.add_0_r in Hk.
    destruct rest as [|d rest]; cbn [rep]; [exact Hk |].
    cbn [firstByte] in Hrest. now rewrite Hrest.
  - cbn [allBytes] in Hall. apply andb_prop in Hall as [Hc Hall].
    cbn [String.append rep]. rewrite Hc.
    rewrite (IH (Nat.pred min) (S pos) Hall); [reflexivity | slia |].
    replace (S pos + len t) with (pos + len (String c t)) by slia. exact Hk.
Qed.

Lemma find_at_start re c s m :
  match_at re 0 (String c s) = Some m ->
  FindStringSubmatchIndex re (String c s) = Some m.
Proof.
  intros H. unfold FindStringSubmatchIndex. cbn [find_from]. now rewrite H.
Qed.

(** The pattern that matches at offset 0, none of the patterns before it
    in the table matching at all, is the one [parseInline] selects. *)
Lemma earliest_first remaining k e cs :
  (forall j, j < k -> leftmost j remaining = None) ->
  leftmost k remaining = Some (0, e, cs) ->
  earliest remaining = Some (k, (0, e, cs)).
Proof.
  intros Hbefore Hk. pose proof (earliest_spec remaining) as H.
  destruct (earliest remaining) as [[pi loc]|].
  - destruct H as [Hloc Hall].
    destruct (Hall k _ Hk) as [Hlt | [Hs Hle]]; [cbn in Hlt; lia |].
    destruct (Nat.eq_dec pi k) as [-> | Hne]; [congruence |].
    rewrite (Hbefore pi) in Hloc by lia. discriminate.
  - rewrite (H k) in Hk. discriminate.
Qed.

Lemma parseInline_whole w k e cs :
  earliest w = Some (k, (0, e, cs)) -> len w <= e ->
  parseInline w = markNodes k (matchStrings w (0, e, cs)).
Proof.
  intros He Hlen.
  assert (Hsel : Selected w k (0, e, cs)).
  { pose proof (earliest_spec w) as H. now rewrite He in H. }
  destruct Hsel as [Hloc _]. apply leftmost_bounds in Hloc as (Hb1 & Hb2 & Hk).
  assert (Hne : (w =s "") = false).
  { destruct w; [slia | reflexivity]. }
  unfold parseInline. rewrite Hne. cbn [parseInline_loop]. rewrite Hne, He.
  cbn [Nat.ltb Nat.leb app]. rewrite (drop_all w e Hlen).
  pose proof (markNodes_not_nil k (matchStrings w (0, e, cs)) Hk) as Hnn.
  destruct (len w) as [|n] eqn:E; [lia |]. cbn [parseInline_loop String.eqb].
  destruct (markNodes k (matchStrings w (0, e, cs))); [contradiction | reflexivity].
Qed.

Lemma noneOf_absent x : forall t,
  mem x t = false -> allBytes (fun c => in_class c (NoneOf (str x))) t = true.
Proof.
  induction t as [|c t IH]; intros H; [reflexivity |].
  cbn [mem] in H. apply orb_false_iff in H as [Hc Ht].
  cbn [allBytes]. rewrite (IH Ht), andb_true_r.
  cbn [in_class mem str]. now rewrite Ascii.eqb_sym, Hc.
Qed.

Lemma len_pos t : t <> "" -> 1 <= len t.
Proof. destruct t; [contradiction | slia]. Qed.

Ltac greedy Hm Hne :=
  apply rep_greedy;
  [ reflexivity | now apply noneOf_absent | now apply len_pos | ].

Lemma strong_match t :
  mem "*" t = false -> t <> "" ->
  leftmost 1 ("**" +:+ t +:+ "**") = Some (0, S (S (2 + len t)), [(2, 2 + len t)]).
Proof.
  intros Hm Hne. unfold leftmost, patterns. cbn [lookup list_lookup re].
  change ("**" +:+ t +:+ "**") with (String "*" (String "*" (t +:+ "**"))).
  apply find_at_start. unfold match_at, boldRe, plus. cbn [run].
  change (Ascii.eqb "*" "*") with true. cbn iota.
  greedy Hm Hne. reflexivity.
Qed.

Lemma strike_match t :
  mem "~" t = false -> t <> "" ->
  leftmost 2 ("~~" +:+ t +:+ "~~") = Some (0, S (S (2 + len t)), [(2, 2 + len t)]).
Proof.
  intros Hm Hne. unfold leftmost, patterns. cbn [lookup list_lookup re].
  change ("~~" +:+ t +:+ "~~") with (String "~" (String "~" (t +:+ "~~"))).
  apply find_at_start. unfold match_at, strikeRe, plus. cbn [run].
  change (Ascii.eqb "~" "~") with true. cbn iota.
  greedy Hm Hne. reflexivity.
Qed.

Lemma code_match t :
  mem "`" t = false -> t <> "" ->
  leftmost 3 ("`" +:+ t +:+ "`") = Some (0, S (1 + len t), [(1, 1 + len t)]).
Proof.
  intros Hm Hne. unfold leftmost, patterns. cbn [lookup list_lookup re].
  change ("`" +:+ t +:+ "`") with (String "`" (t +:+ "`")).
  apply find_at_start. unfold match_at, codeRe, plus. cbn [run].
  change (Ascii.eqb "`" "`") with true. cbn iota.
  greedy Hm Hne. reflexivity.
Qed.

Lemma em_match t :
  mem "*" t = false -> t <> "" ->
  leftmost 4 ("*" +:+ t +:+ "*") = Some (0, S (1 + len t), [(1, 1 + len t)]).
Proof.
  intros Hm Hne. unfold leftmost, patterns. cbn [lookup list_lookup re].
  change ("*" +:+ t +:+ "*") with (String "*" (t +:+ "*")).
  apply find_at_start. unfold match_at, italicRe, plus. cbn [run].
  change (Ascii.eqb "*" "*") with true. cbn iota.
  greedy Hm Hne. reflexivity.
Qed.

Lemma link_match t u :
  mem "]" t = false -> t <> "" -> mem ")" u = false -> u <> "" ->
  leftmost 0 ("[" +:+ t +:+ "](" +:+ u +:+ ")")
  = Some (0, S (S (S (1 + len t)) + len u),
          [(1, 1 + len t); (S (S (1 + len t)), S (S (1 + len t)) + len u)]).
Proof.
  intros Hm Hne Hmu Hneu. unfold leftmost, patterns. cbn [lookup list_lookup re].
  change ("[" +:+ t +:+ "](" +:+ u +:+ ")")
    with (String "[" (t +:+ String "]" (String "(" (u +:+ ")")))).
  apply find_at_start. unfold match_at, linkRe, plus. cbn [run].
  change (Ascii.eqb "[" "[") with true. cbn iota.
  greedy Hm Hne. cbn [run].
  change (Ascii.eqb "]" "]") with true. change (Ascii.eqb "(" "(") with true. cbn iota.
  greedy Hmu Hneu. reflexivity.
Qed.

(** *** Inline nodes of plain text *)

Lemma plainText_absent t x : plainText t = true -> wordByte x = false -> mem x t = false.
Proof.
  intros H Hx. apply plainText_inv in H as (c & r & -> & _ & Hall & _).
  now apply (allBytes_mem wordByte).
Qed.

Lemma plainText_not_empty t : plainText t = true -> t <> "".
Proof. intros H. apply plainText_inv in H as (c & r & -> & _). discriminate. Qed.




Lemma slice_inner pre t post :
  slice (pre +:+ t +:+ post) (len pre) (len pre + len t) = t.
Proof.
  unfold slice. rewrite drop_app.
  replace (len pre + len t - len pre) with (len t) by lia. apply take_app.
Qed.

Lemma slice_at s pre t post a b :
  s = pre +:+ t +:+ post -> a = len pre -> b = a + len t -> slice s a b = t.
Proof. intros -> -> ->. apply slice_inner. Qed.

Ltac absent H :=
  rewrite ?mem_app;
  repeat match goal with
         | |- context [mem ?x ?t] =>
             is_var t; rewrite (plainText_absent t x H eq_refl)
         end;
  reflexivity.

Ltac split_index j n :=
  lazymatch n with
  | O => idtac
  | S ?m =>
      destruct j as [|j];
      [ try lia; cbn [lookup list_lookup re] | try lia; split_index j m ]
  end.

Ltac no_earlier H :=
  let j := fresh "j" in
  let Hj := fresh "Hj" in
  intros j Hj; unfold leftmost, patterns; split_index j 5; try lia.

Lemma parseInline_strong t :
  plainText t = true -> parseInline ("**" +:+ t +:+ "**") = [textNode t [mark "strong"]].
Proof.
  intros H. pose proof (plainText_not_empty t H) as Hne.
  pose proof (strong_match t (plainText_absent t "*" H eq_refl) Hne) as Hk.
  assert (Hb : forall j, j < 1 -> leftmost j ("**" +:+ t +:+ "**") = None).
  { no_earlier H. apply find_lit_absent. absent H. }
  rewrite (parseInline_whole _ 1 _ _ (earliest_first _ 1 _ _ Hb Hk)).
  - cbn [markNodes patterns lookup list_lookup markFn matchStrings map sub default fst snd].
    change 2 with (len "**") at 1 2. now rewrite slice_inner.
  - rewrite !len_app. slia.
Qed.

Lemma parseInline_strike t :
  plainText t = true -> parseInline ("~~" +:+ t +:+ "~~") = [textNode t [mark "strike"]].
Proof.
  intros H. pose proof (plainText_not_empty t H) as Hne.
  pose proof (strike_match t (plainText_absent t "~" H eq_refl) Hne) as Hk.
  assert (Hb : forall j, j < 2 -> leftmost j ("~~" +:+ t +:+ "~~") = None).
  { no_earlier H; apply find_lit_absent; absent H. }
  rewrite (parseInline_whole _ 2 _ _ (earliest_first _ 2 _ _ Hb Hk)).
  - cbn [markNodes patterns lookup list_lookup markFn matchStrings map sub default fst snd].
    change 2 with (len "~~") at 1 2. now rewrite slice_inner.
  - rewrite !len_app. slia.
Qed.

Lemma parseInline_code t :
  plainText t = true -> parseInline ("`" +:+ t +:+ "`") = [textNode t [mark "code"]].
Proof.
  intros H. pose proof (plainText_not_empty t H) as Hne.
  pose proof (code_match t (plainText_absent t "`" H eq_refl) Hne) as Hk.
  assert (Hb : forall j, j < 3 -> leftmost j ("`" +:+ t +:+ "`") = None).
  { no_earlier H; apply find_lit_absent; absent H. }
  rewrite (parseInline_whole _ 3 _ _ (earliest_first _ 3 _ _ Hb Hk)).
  - cbn [markNodes patterns lookup list_lookup markFn matchStrings map sub default fst snd].
    change 1 with (len "`") at 1 2. now rewrite slice_inner.
  - rewrite !len_app. slia.
Qed.

Lemma noDouble_em t : plainText t = true -> noDouble "*" ("*" +:+ t +:+ "*") = true.
Proof.
  intros H. pose proof (plainText_absent t "*" H eq_refl) as Hm.
  pose proof (noDouble_absent "*" t Hm) as Hd.
  apply plainText_inv in H as (c & r & -> & Hc & _).
  change ("*" +:+ String c r +:+ "*") with (String "*" (String c (r +:+ "*"))).
  assert (E : forall a b s, noDouble "*" (String a (String b s))
    = negb (Ascii.eqb a "*" && Ascii.eqb b "*") && noDouble "*" (String b s))
    by reflexivity.
  cbn [mem] in Hm. apply orb_false_iff in Hm as [Hcs _].
  rewrite Ascii.eqb_sym in Hcs. rewrite E, Hcs, andb_false_r. exact Hd.
Qed.

Lemma parseInline_em t :
  plainText t = true -> parseInline ("*" +:+ t +:+ "*") = [textNode t [mark "em"]].
Proof.
  intros H. pose proof (plainText_not_empty t H) as Hne.
  pose proof (em_match t (plainText_absent t "*" H eq_refl) Hne) as Hk.
  assert (Hb : forall j, j < 4 -> leftmost j ("*" +:+ t +:+ "*") = None).
  { no_earlier H.
    - apply find_lit_absent. absent H.
    - apply find_double_absent. now apply noDouble_em.
    - apply find_lit_absent. absent H.
    - apply find_lit_absent. absent H. }
  rewrite (parseInline_whole _ 4 _ _ (earliest_first _ 4 _ _ Hb Hk)).
  - cbn [markNodes patterns lookup list_lookup markFn matchStrings map sub default fst snd].
    change 1 with (len "*") at 1 2. now rewrite slice_inner.
  - rewrite !len_app. slia.
Qed.

Lemma urlText_inv u :
  urlText u = true -> u <> "" /\ mem ")" u = false /\ mem LF u = false.
Proof.
  unfold urlText. intros H.
  apply andb_prop in H as [H H3]. apply andb_prop in H as [H1 H2].
  apply negb_true_iff in H1, H2, H3. apply String.eqb_neq in H1. auto.
Qed.

Lemma parseInline_link t u :
  plainText t = true -> urlText u = true ->
  parseInline ("[" +:+ t +:+ "](" +:+ u +:+ ")")
  = [textNode t [mkMark "link" {[ "href" := AString u ]}]].
Proof.
  intros H Hu. pose proof (plainText_not_empty t H) as Hne.
  apply urlText_inv in Hu as (Hneu & Hmu & _).
  pose proof (link_match t u (plainText_absent t "]" H eq_refl) Hne Hmu Hneu) as Hk.
  assert (Hb : forall j, j < 0 -> leftmost j ("[" +:+ t +:+ "](" +:+ u +:+ ")") = None)
    by (intros; lia).
  rewrite (parseInline_whole _ 0 _ _ (earliest_first _ 0 _ _ Hb Hk)).
  - cbn [markNodes patterns lookup list_lookup markFn matchStrings map sub default fst snd].
    rewrite (slice_at _ "[" t ("](" +:+ u +:+ ")") 1 (1 + len t)) by reflexivity.
    rewrite (slice_at _ ("[" +:+ t +:+ "](") u ")" (S (S (1 + len t))) (S (S (1 + len t)) + len u));
      [reflexivity | now rewrite !sapp_assoc | rewrite !len_app; slia | reflexivity].
  - rewrite !len_app. slia.
Qed.

(** *** The block dispatch on the line of an inline node *)

Lemma prefix_cons_eq c p r : String.prefix (String c p) (String c r) = String.prefix p r.
Proof. cbn [String.prefix]. destruct (ascii_dec c c); [reflexivity | congruence]. Qed.

Lemma prefix_cons_ne x p c r : x <> c -> String.prefix (String x p) (String c r) = false.
Proof. intros H. cbn [String.prefix]. destruct (ascii_dec x c); [contradiction | reflexivity]. Qed.

Lemma eqb_cons_eq c p r : (String c r =s String c p) = (r =s p).
Proof. cbn [String.eqb]. now rewrite Ascii.eqb_refl. Qed.

Lemma eqb_cons_ne x p c r : c <> x -> (String c r =s String x p) = false.
Proof.
  intros H. cbn [String.eqb]. destruct (Ascii.eqb_spec c x); [contradiction | reflexivity].
Qed.

Ltac char_ne Hc :=
  let E := fresh "E" in
  intros E; first [discriminate E | subst; vm_compute in Hc; discriminate Hc].

Ltac first_bytes Hc :=
  unfold HasPrefix, preserveStart;
  repeat first
    [ rewrite prefix_cons_eq
    | rewrite prefix_cons_ne by char_ne Hc
    | rewrite eqb_cons_eq
    | rewrite eqb_cons_ne by char_ne Hc ];
  reflexivity.

Lemma not_ordered c r : in_class c digit = false -> MatchString ordRe (String c r) = false.
Proof.
  intros Hc. unfold MatchString, FindStringSubmatchIndex, ordRe.
  cbn [find_from]. unfold match_at at 1. cbn [run rep plus].
  rewrite Hc. now rewrite Bol_later.
Qed.

Lemma inlineStart_tests c r w :
  isLetter c = true -> inlineStart c r w ->
  HasPrefix w preserveStart = false /\
  (w =s "") = false /\ (w =s "---") = false /\ (w =s "***") = false /\
  (w =s "___") = false /\
  HasPrefix w "#" = false /\ HasPrefix w "```" = false /\
  HasPrefix w "> " = false /\ (w =s ">") = false /\
  HasPrefix w "- " = false /\ HasPrefix w "* " = false /\
  HasPrefix w "|" = false /\
  MatchString ordRe w = false /\ firstPlain w = true.
Proof.
  intros Hc Hw.
  assert (Hd : in_class c digit = false) by now apply letter_not_digit.
  assert (Hp : plainByte c = true) by now apply isLetter_plain.
  destruct Hw as [-> | [-> | [-> | [-> | [-> | ->]]]]];
    (repeat match goal with |- _ /\ _ => split end;
     first [ reflexivity | exact Hp | first_bytes Hc
           | apply not_ordered; first [exact Hd | reflexivity] ]).
Qed.

Lemma inline_shape n :
  MarkedInline n -> exists c r, isLetter c = true /\ inlineStart c r (inlineText n).
Proof.
  intros [t Ht | t ty Ht Hty | t u attrs Ht Hu Ha];
    apply plainText_inv in Ht as (c & r & -> & Hc & _);
    unfold inlineText, inlineStart; cbn [Text Marks textNode].
  - exists c, r. split; [exact Hc | now left].
  - cbn in Hty. destruct Hty as [<- | [<- | [<- | [<- | []]]]]; cbn.
    + exists c, (r +:+ "**"). split; [exact Hc | right; now left].
    + exists c, (r +:+ "*"). split; [exact Hc | right; right; now left].
    + exists c, (r +:+ "`"). split; [exact Hc | do 3 right; now left].
    + exists c, (r +:+ "~~"). split; [exact Hc | do 4 right; now left].
  - cbn. eexists c, _. split; [exact Hc | do 5 right; reflexivity].
Qed.

Lemma inline_last n :
  MarkedInline n -> exists d r, rev (inlineText n) = String d r /\ plainByte d = true.
Proof.
  intros [t Ht | t ty Ht Hty | t u attrs Ht Hu Ha]; unfold inlineText; cbn [Text Marks textNode].
  - now apply plainText_last.
  - cbn in Hty. destruct Hty as [<- | [<- | [<- | [<- | []]]]];
      cbn [applyMarks fold_left applyMark MarkType mark String.eqb Ascii.eqb Bool.eqb];
      rewrite !rev_app; eexists _, _; split; reflexivity.
  - cbn [applyMarks fold_left applyMark MarkType MarkAttrs String.eqb Ascii.eqb Bool.eqb].
    rewrite !rev_app. eexists _, _; split; reflexivity.
Qed.

Lemma inline_one_line n : MarkedInline n -> mem LF (inlineText n) = false.
Proof.
  intros [t Ht | t ty Ht Hty | t u attrs Ht Hu Ha]; unfold inlineText; cbn [Text Marks textNode].
  - now apply plainText_one_line.
  - pose proof (plainText_one_line t Ht) as Hlf.
    cbn in Hty. destruct Hty as [<- | [<- | [<- | [<- | []]]]];
      cbn [applyMarks fold_left applyMark MarkType mark String.eqb Ascii.eqb Bool.eqb];
      rewrite !mem_app, Hlf; reflexivity.
  - pose proof (plainText_one_line t Ht) as Hlf.
    apply urlText_inv in Hu as (_ & _ & Hu).
    cbn [applyMarks fold_left applyMark MarkType MarkAttrs String.eqb Ascii.eqb Bool.eqb].
    unfold attrString. rewrite Ha, !mem_app, Hlf, Hu. reflexivity.
Qed.

Lemma inline_trimmed n : MarkedInline n -> TrimSpace (inlineText n) = inlineText n.
Proof.
  intros H. destruct (inline_shape n H) as (c & r & Hc & Hs).
  destruct (inline_last n H) as (d & r' & Hrev & Hd).
  apply TrimSpace_plain.
  - now apply (inlineStart_tests c r).
  - now rewrite Hrev.
Qed.

Lemma inline_parse n : MarkedInline n -> parseInline (inlineText n) = [reparsedInline n].
Proof.
  intros [t Ht | t ty Ht Hty | t u attrs Ht Hu Ha];
    unfold inlineText, reparsedInline; cbn [Text Marks textNode].
  - now apply parseInline_plain.
  - cbn in Hty. destruct Hty as [<- | [<- | [<- | [<- | []]]]]; cbn.
    + now apply parseInline_strong.
    + now apply parseInline_em.
    + now apply parseInline_code.
    + now apply parseInline_strike.
  - cbn [applyMarks fold_left applyMark MarkType MarkAttrs String.eqb Ascii.eqb Bool.eqb
         map reparsedMark].
    unfold attrString. rewrite Ha. now apply parseInline_link.
Qed.
(** *** One turn of the block loop on the line of an inline node *)

Lemma inline_facts n :
  MarkedInline n ->
  let w := inlineText n in
  TrimSpace w = w /\ mem LF w = false /\
  (exists d r, rev w = String d r /\ plainByte d = true) /\
  exists c r, isLetter c = true /\ inlineStart c r w.
Proof.
  intros H w. repeat split.
  - now apply inline_trimmed.
  - now apply inline_one_line.
  - now apply inline_last.
  - now apply inline_shape.
Qed.

Lemma paraStop_inline `{J : Json} n : MarkedInline n -> paraStop (inlineText n) = false.
Proof.
  intros H. unfold paraStop. rewrite (inline_trimmed n H).
  destruct (inline_shape n H) as (c & r & Hc & Hs).
  destruct (inlineStart_tests c r _ Hc Hs)
    as (H1 & H2 & H3 & H4 & H5 & H6 & H7 & H8 & H9 & H10 & H11 & H12 & H13 & _).
  now rewrite H1, H2, H3, H4, H6, H7, H8, H10, H11, H12, H13.
Qed.

Lemma turn_inline_paragraph `{J : Json} fuel pre post content n :
  MarkedInline n ->
  markdownToADF_loop (S fuel) (pre ++ inlineText n :: "" :: post) (length pre) content
  = markdownToADF_loop fuel (pre ++ inlineText n :: "" :: post) (length pre + 1)
      (content ++ [node "paragraph" [reparsedInline n]]).
Proof.
  intros H.
  pose proof (inline_trimmed n H) as Ht.
  pose proof (paraStop_inline n H) as Hstop.
  pose proof (inline_parse n H) as Hin.
  destruct (inline_shape n H) as (c & r & Hc & Hs).
  destruct (inlineStart_tests c r _ Hc Hs)
    as (H1 & H2 & H3 & H4 & H5 & H6 & H7 & H8 & H9 & H10 & H11 & H12 & H13 & _).
  rewrite (turn_paragraph fuel _ (length pre) content (inlineText n) [inlineText n]).
  - cbn [length Join String.concat]. now rewrite Hin.
  - rewrite length_app. cbn [length]. lia.
  - apply lineAt_middle.
  - now rewrite Ht.
  - now rewrite Ht.
  - unfold isRule. now rewrite Ht, H3, H4, H5.
  - unfold parseHeading. now rewrite H6.
  - now rewrite Ht.
  - now rewrite H8, H9.
  - now rewrite H10, H11.
  - exact H13.
  - now rewrite Ht.
  - rewrite skipn_middle. cbn [takeWhile]. rewrite Hstop. cbn [negb]. reflexivity.
  - discriminate.
Qed.

Lemma heading_facts `{J : Json} w n :
  TrimSpace w = w -> mem LF w = false ->
  (exists d r, rev w = String d r /\ plainByte d = true) ->
  1 <= n <= 6 ->
  let line := Repeat "#" n +:+ " " +:+ w in
  TrimSpace line = line /\ (line =s "") = false /\
  HasPrefix line preserveStart = false /\ isRule line = false /\
  parseHeading line = (n, w) /\ mem LF line = false.
Proof.
  intros Ht Hlf (d & r & Hrev & Hd) Hn line.
  assert (Htrim : TrimSpace line = line).
  { apply TrimSpace_plain.
    - subst line. destruct n as [|n]; [lia | reflexivity].
    - subst line. rewrite <- sapp_assoc, rev_app, Hrev. exact Hd. }
  assert (Hcases : n = 1 \/ n = 2 \/ n = 3 \/ n = 4 \/ n = 5 \/ n = 6) by lia.
  split; [exact Htrim |].
  unfold isRule, parseHeading. rewrite Htrim. subst line.
  destruct Hcases as [-> | [-> | [-> | [-> | [-> | ->]]]]];
    cbn -[TrimSpace mem];
    rewrite ?TrimSpace_after_space, ?Ht;
    (repeat split; [reflexivity .. |]);
    cbn [mem]; rewrite Hlf; reflexivity.
Qed.

Lemma turn_inline_heading `{J : Json} fuel pre post content n k :
  MarkedInline n -> 1 <= k <= 6 ->
  markdownToADF_loop (S fuel)
    (pre ++ (Repeat "#" k +:+ " " +:+ inlineText n) :: "" :: post) (length pre) content
  = markdownToADF_loop fuel
      (pre ++ (Repeat "#" k +:+ " " +:+ inlineText n) :: "" :: post) (length pre + 1)
      (content ++ [mkNode "heading" [reparsedInline n] ""
                     {[ "level" := AInt (Z.of_nat k) ]} []]).
Proof.
  intros H Hk.
  destruct (inline_facts n H) as (Ht & Hlf & Hlast & _).
  destruct (heading_facts (inlineText n) k Ht Hlf Hlast Hk) as (Htrim & Hne & Hm & Hr & Hh & _).
  rewrite (turn_heading fuel _ (length pre) content
             (Repeat "#" k +:+ " " +:+ inlineText n) k (inlineText n)).
  - now rewrite (inline_parse n H).
  - rewrite length_app. cbn [length]. lia.
  - apply lineAt_middle.
  - now rewrite Htrim.
  - now rewrite Htrim.
  - exact Hr.
  - exact Hh.
  - lia.
Qed.

(** *** Marked blocks *)

Lemma markedLine_paragraph n attrs :
  markedLine (mkNode "paragraph" [n] "" attrs []) = inlineText n.
Proof. unfold markedLine. cbn. rewrite ?sapp_nil_r. reflexivity. Qed.

Lemma markedLine_heading n attrs f k :
  attrs !! "level" = Some (AFloat f) -> float_to_int f = Some k ->
  markedLine (mkNode "heading" [n] "" attrs [])
  = Repeat "#" (Z.to_nat k) +:+ " " +:+ inlineText n.
Proof.
  intros Ha Hf. unfold markedLine.
  cbn [Type_ Attrs Content String.eqb Ascii.eqb Bool.eqb].
  rewrite (PlainBlock_level attrs f k Ha Hf).
  cbn [default map String.concat]. unfold id. rewrite ?sapp_nil_r. reflexivity.
Qed.

Lemma render_inline `{J : Json} n p :
  MarkedInline n -> renderNode n p = Some (inlineText n).
Proof. intros [t Ht | t ty Ht Hty | t u attrs Ht Hu Ha]; reflexivity. Qed.

Lemma render_marked_block `{J : Json} b p :
  MarkedBlock b -> renderNode b p = Some (markedLine b +:+ str LF +:+ str LF).
Proof.
  intros [n attrs Hn | n attrs f k Hn Ha Hf Hk | attrs].
  - rewrite markedLine_paragraph.
    cbn [renderNode Type_ Attrs Content String.eqb Ascii.eqb Bool.eqb map concatAll].
    fold (renderNode n). rewrite (render_inline n _ Hn). cbn [concatAll].
    now rewrite sapp_nil_r.
  - rewrite (markedLine_heading n attrs f k Ha Hf).
    cbn [renderNode Type_ Attrs Content String.eqb Ascii.eqb Bool.eqb].
    rewrite (PlainBlock_level attrs f k Ha Hf).
    destruct (Z.ltb_spec k 0); [lia |].
    cbn [map concatAll default]. fold (renderNode n). rewrite (render_inline n _ Hn).
    unfold id. now rewrite sapp_nil_r, !sapp_assoc.
  - reflexivity.
Qed.

Lemma markedLine_one_line `{J : Json} b : MarkedBlock b -> mem LF (markedLine b) = false.
Proof.
  intros [n attrs Hn | n attrs f k Hn Ha Hf Hk | attrs].
  - rewrite markedLine_paragraph. now apply inline_one_line.
  - rewrite (markedLine_heading n attrs f k Ha Hf).
    destruct (inline_facts n Hn) as (Ht & Hlf & Hlast & _).
    apply (heading_facts (inlineText n) (Z.to_nat k) Ht Hlf Hlast). lia.
  - reflexivity.
Qed.

Lemma turn_marked_block `{J : Json} fuel pre post content b :
  MarkedBlock b ->
  markdownToADF_loop (S fuel) (pre ++ markedLine b :: "" :: post) (length pre) content
  = markdownToADF_loop fuel (pre ++ markedLine b :: "" :: post) (length pre + 1)
      (content ++ [reparsedBlock b]).
Proof.
  intros [n attrs Hn | n attrs f k Hn Ha Hf Hk | attrs].
  - rewrite markedLine_paragraph. now apply turn_inline_paragraph.
  - rewrite (markedLine_heading n attrs f k Ha Hf). unfold reparsedBlock.
    cbn [Type_ Attrs Content String.eqb Ascii.eqb Bool.eqb map].
    rewrite (PlainBlock_level attrs f k Ha Hf). cbn [default]. unfold id.
    rewrite turn_inline_heading by (try exact Hn; lia).
    now rewrite Z2Nat.id by lia.
  - apply turn_plain_rule.
Qed.

Lemma Equiv_inline n : MarkedInline n -> Equiv n (reparsedInline n).
Proof.
  intros [t Ht | t ty Ht Hty | t u attrs Ht Hu Ha]; unfold reparsedInline;
    cbn [Text Marks textNode map].
  - apply Equiv_text.
  - constructor; try reflexivity; try discriminate; [| constructor].
    cbn [Marks textNode]. constructor; [| constructor].
    unfold markAgree, reparsedMark. cbn [MarkType mark].
    cbn in Hty. destruct Hty as [<- | [<- | [<- | [<- | []]]]]; now split.
  - constructor; try reflexivity; try discriminate; [| constructor].
    cbn [Marks textNode]. constructor; [| constructor].
    unfold markAgree, reparsedMark. cbn [MarkType MarkAttrs String.eqb Ascii.eqb Bool.eqb].
    split; [reflexivity |].
    unfold attrString at 2. now rewrite lookup_singleton_eq.
Qed.

Lemma Equiv_reparsedBlock b : MarkedBlock b -> Equiv b (reparsedBlock b).
Proof.
  intros [n attrs Hn | n attrs f k Hn Ha Hf Hk | attrs].
  - constructor; try reflexivity; try discriminate; try constructor.
    + now apply Equiv_inline.
    + constructor.
  - unfold reparsedBlock. cbn [Type_ Attrs Content String.eqb Ascii.eqb Bool.eqb].
    rewrite (PlainBlock_level attrs f k Ha Hf).
    constructor; try reflexivity; try discriminate; try constructor.
    + intros _. cbn [Attrs default]. unfold id, levelValue.
      now rewrite Ha, lookup_singleton_eq.
    + now apply Equiv_inline.
    + constructor.
  - constructor; try reflexivity; try discriminate; constructor.
Qed.

(** *** Documents of marked blocks *)

Lemma render_marked_blocks `{J : Json} blocks p :
  Forall MarkedBlock blocks ->
  concatAll (map (fun b => renderNode b p) blocks)
  = Some (fold_right String.append ""
            (map (fun b => markedLine b +:+ str LF +:+ str LF) blocks)).
Proof.
  induction 1 as [|b blocks Hb _ IH]; [reflexivity |].
  cbn [map concatAll fold_right]. now rewrite (render_marked_block b p Hb), IH.
Qed.

Lemma Split_marked_blocks `{J : Json} blocks :
  Forall MarkedBlock blocks ->
  Split (fold_right String.append ""
           (map (fun b => markedLine b +:+ str LF +:+ str LF) blocks)) LF
  = markedLines blocks.
Proof.
  unfold markedLines.
  induction 1 as [|b blocks Hb _ IH]; [reflexivity |].
  cbn [map fold_right flat_map app].
  rewrite Split_block by now apply markedLine_one_line.
  now rewrite IH.
Qed.

Lemma loop_marked_blocks `{J : Json} blocks : forall pre content fuel,
  Forall MarkedBlock blocks ->
  markdownToADF_loop (2 * length blocks + 2 + fuel) (pre ++ markedLines blocks)
    (length pre) content
  = Some (content ++ map reparsedBlock blocks).
Proof.
  unfold markedLines.
  induction blocks as [|b blocks IH]; intros pre content fuel Hall.
  - cbn [length map flat_map app Nat.mul Nat.add].
    rewrite turn_blank; [| rewrite length_app; cbn; lia | now rewrite lineAt_middle].
    rewrite turn_end; [now rewrite app_nil_r | rewrite length_app; cbn; lia].
  - apply Forall_cons_1 in Hall as [Hb Hall].
    cbn [flat_map app length map].
    replace (2 * S (length blocks) + 2 + fuel)
      with (S (S (2 * length blocks + 2 + fuel))) by lia.
    rewrite turn_marked_block by exact Hb.
    rewrite turn_blank.
    + replace (pre ++ markedLine b :: "" :: flat_map (fun b => [markedLine b; ""]) blocks ++ [""])
        with ((pre ++ [markedLine b; ""]) ++ flat_map (fun b => [markedLine b; ""]) blocks ++ [""])
        by (now rewrite <- app_assoc).
      replace (length pre + 1 + 1) with (length (pre ++ [markedLine b; ""]))
        by (rewrite length_app; cbn; lia).
      rewrite IH by exact Hall. now rewrite <- app_assoc.
    + rewrite !length_app. cbn. lia.
    + replace (pre ++ markedLine b :: "" :: flat_map (fun b => [markedLine b; ""]) blocks ++ [""])
        with ((pre ++ [markedLine b]) ++ "" :: flat_map (fun b => [markedLine b; ""]) blocks ++ [""])
        by (now rewrite <- app_assoc).
      replace (length pre + 1) with (length (pre ++ [markedLine b]))
        by (rewrite length_app; cbn; lia).
      now rewrite lineAt_middle.
Qed.

Lemma Forall2_reparsedBlock blocks :
  Forall MarkedBlock blocks -> Forall2 Equiv blocks (map reparsedBlock blocks).
Proof.
  induction 1 as [|b blocks Hb _ IH]; constructor; [now apply Equiv_reparsedBlock | exact IH].
Qed.

(** X1: a document of rules and of paragraphs and headings (of level 1
    to 6) that hold one node of plain text, unmarked, or marked strong, em,
    code or strike, or linked to a target without a closing parenthesis or
    a line feed, is rendered to a text that the parser reads back, given
    two turns per block and two more, as a tree structurally equivalent to
    the document: these marks survive the round trip. *)
Theorem marked_round_trip (J : Json) (d : ADFNode) :
  MarkedDocument d ->
  exists md,
    renderADF d = Some md /\
    forall fuel, exists d',
      markdownToADF (2 * length (Content d) + 2 + fuel) md = Some d' /\ Equiv d d'.
Proof.
  destruct d as [ty blocks txt attrs marks]. intros (Hty & Htxt & Hmarks & Hall).
  cbn [Type_ Text Marks Content] in *. subst ty txt marks.
  eexists. split.
  - unfold renderADF. cbn [renderNode Type_ Content String.eqb Ascii.eqb Bool.eqb].
    apply render_marked_blocks. exact Hall.
  - intros fuel. exists (docNode (map reparsedBlock blocks)). split.
    + unfold markdownToADF. rewrite (Split_marked_blocks blocks Hall).
      change (markedLines blocks) with ([] ++ markedLines blocks).
      change 0 with (length (@nil string)) at 2.
      rewrite (loop_marked_blocks blocks [] [] fuel Hall). reflexivity.
    + constructor; try reflexivity; try discriminate; [constructor |].
      now apply Forall2_reparsedBlock.
Qed.

Lemma marked_round_trip_witness :
  exists md,
    renderADF (J := tagOnlyJson) boldAndLink = Some md /\
    forall fuel, exists d',
      markdownToADF (J := tagOnlyJson) (2 * length (Content boldAndLink) + 2 + fuel) md
        = Some d' /\
      Equiv boldAndLink d'.
Proof.
  apply (marked_round_trip tagOnlyJson boldAndLink).
  repeat split; try reflexivity.
  constructor; [| constructor; [| constructor; [| constructor]]].
  - apply (MarkedHeading _ _ (float_of_pos 3) 3%Z); try reflexivity; [| lia].
    apply InlineMarked; [reflexivity | cbn; tauto].
  - apply MarkedParagraph. apply InlineMarked; [reflexivity | cbn; tauto].
  - apply MarkedParagraph. apply (InlineLink _ "http://x"); reflexivity.
Defined.
(** ** The text of a match *)

Lemma rep_text {R} k (kont : cont R) cs x : forall s min pos,
  rep k min pos s cs kont = Some x ->
  exists w s', s = w +:+ s' /\ min <= len w /\
    allBytes (fun c => in_class c k) w = true /\
    kont (pos + len w) s' cs = Some x.
Proof.
  induction s as [|c s IH]; intros min pos H; cbn [rep] in H.
  - destruct min; [| discriminate]. exists "", "". rewrite Nat.add_0_r.
    repeat split; [slia | exact H].
  - assert (Hstop : match min with 0 => kont pos (String c s) cs | S _ => None end = Some x ->
              exists w s', String c s = w +:+ s' /\ min <= len w /\
                allBytes (fun c => in_class c k) w = true /\
                kont (pos + len w) s' cs = Some x).
    { destruct min; [| discriminate]. intros Hk. exists "", (String c s).
      rewrite Nat.add_0_r. repeat split; [slia | exact Hk]. }
    destruct (in_class c k) eqn:Hc; [| now apply Hstop].
    destruct (rep k (Nat.pred min) (S pos) s cs kont) as [y|] eqn:Hr; [| now apply Hstop].
    injection H as ->. apply IH in Hr as (w & s' & -> & Hmin & Hall & Hk).
    exists (String c w), s'. repeat split.
    + slia.
    + cbn [allBytes]. now rewrite Hc.
    + replace (pos + len (String c w)) with (S pos + len w) by slia. exact Hk.
Qed.

Lemma run_text {R} re : forall (kont : cont R) pos s cs x,
  run re pos s cs kont = Some x ->
  exists w s' cs', s = w +:+ s' /\ Matched re pos w cs cs' /\
    kont (pos + len w) s' cs' = Some x.
Proof.
  induction re as [c | k | min k | r1 IH1 r2 IH2 | r1 IH1 r2 IH2 | r IH | ];
    intros kont pos s cs x H; cbn [run Matched] in *.
  - destruct s as [|d s]; [discriminate |].
    destruct (Ascii.eqb_spec d c) as [-> |]; [| discriminate].
    exists (str c), s, cs. repeat split. now replace (pos + len (str c)) with (S pos) by slia.
  - destruct s as [|d s]; [discriminate |]. destruct (in_class d k) eqn:Hd; [| discriminate].
    exists (str d), s, cs. split; [reflexivity |]. split; [now exists d |].
    now replace (pos + len (str d)) with (S pos) by slia.
  - apply rep_text in H as (w & s' & -> & ? & ? & ?). now exists w, s', cs.
  - apply IH1 in H as (w1 & s1 & cs1 & -> & Hm1 & H).
    apply IH2 in H as (w2 & s2 & cs2 & -> & Hm2 & H).
    exists (w1 +:+ w2), s2, cs2. split; [now rewrite sapp_assoc |].
    split; [now exists w1, w2, cs1 |].
    now rewrite len_app, Nat.add_assoc.
  - destruct (run r1 pos s cs kont) as [y|] eqn:H1.
    + injection H as ->. apply IH1 in H1 as (w & s' & cs' & ? & ? & ?).
      exists w, s', cs'. auto.
    + apply IH2 in H as (w & s' & cs' & ? & ? & ?).
      exists w, s', cs'. auto.
  - apply IH in H as (w & s' & cs' & ? & ? & ?).
    exists w, s', (cs' ++ [(pos, pos + len w)]). split; [assumption |].
    split; [now exists cs' | assumption].
  - destruct pos; [| discriminate]. exists "", s, cs. repeat split. exact H.
Qed.

Lemma match_at_text re pos s a e cs :
  match_at re pos s = Some (a, e, cs) ->
  exists w s', s = w +:+ s' /\ a = pos /\ e = pos + len w /\ Matched re pos w [] cs.
Proof.
  unfold match_at. intros H. apply run_text in H as (w & s' & cs' & -> & Hm & H).
  injection H as <- <- <-. now exists w, s'.
Qed.

Lemma find_from_text re : forall s pos a e cs,
  find_from re pos s = Some (a, e, cs) ->
  exists pre w post, s = pre +:+ w +:+ post /\ a = pos + len pre /\
    e = a + len w /\ Matched re a w [] cs.
Proof.
  induction s as [|c s IH]; intros pos a e cs H; cbn [find_from] in H.
  - destruct (match_at re pos "") as [[[a' e'] cs']|] eqn:Hm; [| discriminate].
    injection H as -> -> ->. apply match_at_text in Hm as (w & s' & Hs & -> & -> & Hw).
    exists "", w, s'. rewrite Nat.add_0_r. auto.
  - destruct (match_at re pos (String c s)) as [[[a' e'] cs']|] eqn:Hm.
    + injection H as -> -> ->. apply match_at_text in Hm as (w & s' & Hs & -> & -> & Hw).
      exists "", w, s'. rewrite Nat.add_0_r. auto.
    + apply IH in H as (pre & w & post & -> & -> & -> & Hw).
      exists (String c pre), w, post.
      replace (pos + len (String c pre)) with (S pos + len pre) by slia. auto.
Qed.

Lemma leftmost_text pi remaining a e cs :
  leftmost pi remaining = Some (a, e, cs) ->
  exists p pre w post,
    patterns !! pi = Some p /\ remaining = pre +:+ w +:+ post /\
    a = len pre /\ e = len pre + len w /\ Matched (re p) (len pre) w [] cs.
Proof.
  unfold leftmost. destruct (patterns !! pi) as [p|]; [| discriminate].
  unfold FindStringSubmatchIndex. intros H.
  apply find_from_text in H as (pre & w & post & -> & -> & -> & Hm).
  now exists p, pre, w, post.
Qed.
Lemma render_text_node `{J : Json} t marks p :
  renderNode (textNode t marks) p = Some (applyMarks t marks).
Proof. reflexivity. Qed.

Ltac open_match Hm :=
  cbn [Matched] in Hm;
  repeat match goal with
         | H : ex _ |- _ => destruct H
         | H : _ /\ _ |- _ => destruct H
         end;
  subst;
  cbn [app map matchStrings sub lookup list_lookup default fst snd];
  unfold id; rewrite render_text_node;
  cbn [concatAll applyMarks fold_left applyMark MarkType MarkAttrs mark
       String.eqb Ascii.eqb Bool.eqb].

Ltac group_slice pre g post :=
  rewrite (slice_at _ pre g post);
  [ | now rewrite !sapp_assoc | rewrite ?len_app; slia | rewrite ?len_app; slia ].

Lemma rendered_match `{J : Json} pi p pre w post cs :
  patterns !! pi = Some p -> Matched (re p) (len pre) w [] cs ->
  concatAll (map (fun n => renderNode n "")
    (markNodes pi (matchStrings (pre +:+ w +:+ post) (len pre, len pre + len w, cs))))
  = Some w.
Proof.
  intros Hp Hm. unfold markNodes. rewrite Hp. unfold patterns in Hp.
  destruct pi as [|[|[|[|[|pi]]]]]; cbn [lookup list_lookup] in Hp; try discriminate;
    injection Hp as <-; cbn [re markFn] in *.
  - unfold linkRe, plus in Hm. open_match Hm.
    match goal with
    | Ht : allBytes (fun c => in_class c (NoneOf "]")) ?t = true,
      Hu : allBytes (fun c => in_class c (NoneOf ")")) ?u = true |- _ =>
        group_slice (pre +:+ "[") t ("](" +:+ u +:+ ")" +:+ post);
        group_slice (pre +:+ "[" +:+ t +:+ "](") u (")" +:+ post)
    end.
    unfold attrString. rewrite lookup_singleton_eq.
    rewrite ?sapp_nil_r, ?sapp_assoc. reflexivity.
  - unfold boldRe, plus in Hm. open_match Hm.
    match goal with
    | Ht : allBytes _ ?t = true |- _ => group_slice (pre +:+ "**") t ("**" +:+ post)
    end.
    rewrite ?sapp_nil_r, ?sapp_assoc. reflexivity.
  - unfold strikeRe, plus in Hm. open_match Hm.
    match goal with
    | Ht : allBytes _ ?t = true |- _ => group_slice (pre +:+ "~~") t ("~~" +:+ post)
    end.
    rewrite ?sapp_nil_r, ?sapp_assoc. reflexivity.
  - unfold codeRe, plus in Hm. open_match Hm.
    match goal with
    | Ht : allBytes _ ?t = true |- _ => group_slice (pre +:+ "`") t ("`" +:+ post)
    end.
    rewrite ?sapp_nil_r, ?sapp_assoc. reflexivity.
  - unfold italicRe, plus in Hm. open_match Hm.
    match goal with
    | Ht : allBytes _ ?t = true |- _ => group_slice (pre +:+ "*") t ("*" +:+ post)
    end.
    rewrite ?sapp_nil_r, ?sapp_assoc. reflexivity.
Qed.

Lemma concatAll_app l1 l2 :
  concatAll (l1 ++ l2)
  = match concatAll l1, concatAll l2 with
    | Some a, Some b => Some (a +:+ b)
    | _, _ => None
    end.
Proof.
  induction l1 as [|[x|] l1 IH]; cbn [app concatAll].
  - now destruct (concatAll l2).
  - rewrite IH. destruct (concatAll l1), (concatAll l2); try reflexivity.
    now rewrite sapp_assoc.
  - reflexivity.
Qed.

Lemma take_slice_drop r s e :
  s <= e -> e <= len r -> take s r +:+ slice r s e +:+ drop e r = r.
Proof.
  intros Hs He. unfold slice.
  rewrite <- (take_drop s r) at 4. f_equal.
  replace e with (s + (e - s)) at 2 by lia. rewrite <- drop_drop.
  apply take_drop.
Qed.

Lemma rendered_scan `{J : Json} text nodes :
  Scanned text nodes ->
  concatAll (map (fun n => renderNode n "") nodes) = Some text.
Proof.
  induction 1 as [| remaining Hne Hno | remaining pi s e cs nodes Hne [Hl _] _ IH].
  - reflexivity.
  - cbn [map concatAll]. rewrite render_text_node. cbn. now rewrite sapp_nil_r.
  - apply leftmost_text in Hl as (p & pre & w & post & Hp & -> & -> & -> & Hm).
    rewrite !map_app, !concatAll_app, IH, (rendered_match pi p pre w post cs Hp Hm).
    assert (Hpre : concatAll (map (fun n => renderNode n "")
                      (if 0 <? len pre
                       then [textNode (take (len pre) (pre +:+ w +:+ post)) []] else []))
                   = Some pre).
    { rewrite take_app. destruct pre; reflexivity || (cbn; now rewrite sapp_nil_r). }
    rewrite Hpre. f_equal.
    replace (drop (len pre + len w) (pre +:+ w +:+ post)) with post;
      [reflexivity |].
    rewrite <- sapp_assoc, <- len_app. now rewrite drop_app.
Qed.

(** X2: the inline parser loses no byte.  For every text, rendering the
    inline nodes that [parseInline] returns gives the text back: the plain
    stretches are kept as they are, and each marked node is rendered to
    the very bytes of the match it was built from. *)
Theorem parseInline_lossless (J : Json) (text : string) (ty : string) :
  renderInlineChildren (node ty (parseInline text)) = Some text.
Proof.
  unfold renderInlineChildren. cbn [Content node].
  destruct (String.eqb_spec text "") as [-> | Hne]; [reflexivity |].
  apply rendered_scan. now apply parseInline_scanned.
Qed.
(** ** The headings stripped from a body *)

Lemma prefix_trans a b s :
  String.prefix (a +:+ b) s = true -> String.prefix a s = true.
Proof.
  intros H. apply prefix_iff in H as [r ->]. rewrite sapp_assoc. apply prefix_app.
Qed.

Lemma title_test_key first key :
  HasPrefix first ("# " +:+ key) || HasPrefix first "# " = HasPrefix first "# ".
Proof.
  unfold HasPrefix.
  destruct (String.prefix ("# " +:+ key) first) eqn:H; [| reflexivity].
  now rewrite (prefix_trans "# " key first H).
Qed.

Lemma title_test_title first title :
  (first =s "# " +:+ title) || HasPrefix first "# " = HasPrefix first "# ".
Proof.
  unfold HasPrefix.
  destruct (String.eqb_spec first ("# " +:+ title)) as [-> |]; [| reflexivity].
  now rewrite prefix_app.
Qed.

(** X3: the title heading is recognised by its first two bytes alone.
    Whatever the key and the title, [stripTitleHeading] and
    [stripConfluenceTitleHeading] return the same text: both remove the
    first line as soon as, trimmed, it begins with a hash and a space, so
    that a heading that names another ticket or another page is removed
    as well. *)
Theorem title_heading_whatever_key (body key title : string) :
  stripTitleHeading body key = stripConfluenceTitleHeading body title /\
  stripTitleHeading body key = stripTitleHeading body "".
Proof.
  unfold stripTitleHeading, stripConfluenceTitleHeading.
  destruct (SplitN body LF 2) as [|l0 rest]; [split; reflexivity |].
  cbn zeta. now rewrite !title_test_key, title_test_title.
Qed.

Lemma Index_byte c : forall s,
  match Index s (str c) with
  | Some n => mem c (take n s) = false /\ s = take n s +:+ str c +:+ drop (n + 1) s
  | None => mem c s = false
  end.
Proof.
  unfold str. induction s as [|d s IH]; [reflexivity |].
  cbn [Index String.prefix].
  destruct (ascii_dec c d) as [<- | Hne].
  - destruct s; cbn [String.prefix]; split; reflexivity.
  - destruct (Index s (String c "")) as [n|]; cbn [option_map take drop mem Nat.add].
    + destruct IH as [Hm Hs]. destruct (Ascii.eqb_spec c d); [contradiction |].
      split; [exact Hm |]. cbn [String.append]. now f_equal.
    + destruct (Ascii.eqb_spec c d); [contradiction | exact IH].
Qed.

Lemma SplitN_two body :
  (mem LF body = false /\ SplitN body LF 2 = [body]) \/
  (exists a b, body = a +:+ str LF +:+ b /\ mem LF a = false /\ SplitN body LF 2 = [a; b]).
Proof.
  cbn [SplitN]. pose proof (Index_byte LF body) as H.
  destruct (Index body (str LF)) as [n|].
  - right. destruct H as [Hm Hs]. now exists (take n body), (drop (n + 1) body).
  - now left.
Qed.

(** X4: [stripTitleHeading] removes at most the first line and the line
    ends that follow it.  Either the first line, trimmed, does not begin
    with a hash and a space and the body is returned as it is; or it does,
    and what is returned is what follows that line, without the line
    feeds and carriage returns it begins with: nothing else is removed
    and nothing is added. *)
Theorem stripTitleHeading_first_line (body key : string) :
  (exists first,
     mem LF first = false /\ HasPrefix (TrimSpace first) "# " = false /\
     (body = first \/ exists rest, body = first +:+ str LF +:+ rest) /\
     stripTitleHeading body key = body) \/
  (mem LF body = false /\ HasPrefix (TrimSpace body) "# " = true /\
   stripTitleHeading body key = "") \/
  (exists first ends,
     mem LF first = false /\ HasPrefix (TrimSpace first) "# " = true /\
     allIn ends newlines = true /\
     startsIn (stripTitleHeading body key) newlines = false /\
     body = first +:+ str LF +:+ ends +:+ stripTitleHeading body key).
Proof.
  unfold stripTitleHeading.
  destruct (SplitN_two body) as [[Hm ->] | (a & b & Hb & Hm & ->)];
    cbn zeta; rewrite title_test_key.
  - destruct (HasPrefix (TrimSpace body) "# ") eqn:Hp.
    + right; left. auto.
    + left. exists body. auto.
  - destruct (HasPrefix (TrimSpace a) "# ") eqn:Hp.
    + right; right. destruct (TrimLeft_spec b newlines) as (p & Hs & Hall & Hst).
      exists a, p. repeat split; try assumption. now rewrite <- Hs.
    + left. exists a. repeat split; try assumption. right. now exists b.
Qed.
(** ** The comparison of the labels *)

Lemma labels_map_lookup a : forall (m : gmap string bool) v,
  default false (fold_left (fun (m : gmap string bool) v => <[v := true]> m) a m !! v) = true
  <-> In v a \/ default false (m !! v) = true.
Proof.
  induction a as [|x a IH]; intros m v; cbn [fold_left In].
  - tauto.
  - rewrite IH. destruct (decide (x = v)) as [-> | Hne].
    + rewrite lookup_insert_eq. cbn. tauto.
    + rewrite lookup_insert_ne by exact Hne. split; [intros [H | H] | intros [[H | H] | H]]; auto.
Qed.

Lemma labelsEqual_spec a b :
  labelsEqual a b = true <-> length a = length b /\ incl b a.
Proof.
  unfold labelsEqual. destruct (Nat.eqb_spec (length a) (length b)) as [E | E]; cbn [negb].
  - rewrite forallb_forall. split.
    + intros H. split; [exact E |]. intros v Hv. apply H in Hv.
      apply labels_map_lookup in Hv as [Hv | Hv]; [exact Hv |].
      rewrite lookup_empty in Hv. discriminate.
    + intros [_ H] v Hv. apply labels_map_lookup. left. now apply H.
  - split; [discriminate | intros [H _]; contradiction].
Qed.

(** X5: [labelsEqual] compares the labels as sets of the same size.  When
    the second list (in [computeChanges], the labels that Jira holds) has
    no duplicate, the answer is [true] exactly when the first list is a
    rearrangement of the second. *)
Theorem labelsEqual_permutation (a b : list string) :
  List.NoDup b -> (labelsEqual a b = true <-> Permutation a b).
Proof.
  intros Hb. rewrite labelsEqual_spec. split.
  - intros [Hlen Hincl]. symmetry.
    apply NoDup_Permutation_bis; [exact Hb | lia | exact Hincl].
  - intros H. split; [now apply Permutation_length |].
    intros v Hv. eapply Permutation_in; [symmetry; exact H | exact Hv].
Qed.

Lemma labelsEqual_permutation_witness :
  List.NoDup ["bug"; "ui"] /\
  (labelsEqual ["ui"; "bug"] ["bug"; "ui"] = true <-> Permutation ["ui"; "bug"] ["bug"; "ui"]).
Proof.
  assert (H : List.NoDup ["bug"; "ui"]).
  { constructor; [| constructor; [| constructor]]; cbn; intuition discriminate. }
  split; [exact H | apply (labelsEqual_permutation ["ui"; "bug"] ["bug"; "ui"] H)].
Defined.

(** X6: without that condition [labelsEqual] is not symmetric: whenever
    the first list holds a label twice and the second list holds the same
    labels with another one in place of the repetition, the lists are
    found equal in one order and different in the other. *)
Theorem labelsEqual_not_symmetric (x y : string) (l : list string) :
  x <> y -> ~ In y l ->
  labelsEqual (x :: y :: l) (x :: x :: l) = true /\
  labelsEqual (x :: x :: l) (x :: y :: l) = false.
Proof.
  intros Hxy Hy. split.
  - apply labelsEqual_spec. split; [reflexivity |].
    intros v [<- | [<- | Hv]]; cbn; auto.
  - apply not_true_is_false. intros H. apply labelsEqual_spec in H as [_ H].
    destruct (H y) as [E | [E | E]]; cbn; auto.
Qed.

Lemma labelsEqual_not_symmetric_witness :
  labelsEqual ["a"; "b"] ["a"; "a"] = true /\
  labelsEqual ["a"; "a"] ["a"; "b"] = false.
Proof.
  apply (labelsEqual_not_symmetric "a" "b" []); [discriminate | intros []].
Defined.
(** ** What [TrimSpace] keeps *)

Lemma TrimSpace_inside s : exists p q, s = p +:+ TrimSpace s +:+ q.
Proof.
  unfold TrimSpace.
  destruct (trimBy_suffix asciiSpace space2 space3 s) as [p Hp].
  destruct (trimRightSpace_prefix (trimLeftSpace s)) as [q Hq].
  exists p, q. unfold trimLeftSpace in *. now rewrite <- Hq.
Qed.

Lemma mem_TrimSpace c s : mem c s = false -> mem c (TrimSpace s) = false.
Proof.
  intros H. destruct (TrimSpace_inside s) as (p & q & Hs).
  rewrite Hs, !mem_app in H.
  apply orb_false_iff in H as [_ H]. now apply orb_false_iff in H as [H _].
Qed.

Lemma prefix_mem c p s : HasPrefix s (String c p) = true -> mem c s = true.
Proof.
  unfold HasPrefix. intros H. apply prefix_iff in H as [r ->].
  cbn [String.append mem]. now rewrite Ascii.eqb_refl.
Qed.

Lemma absent_not_prefix c p s : mem c s = false -> HasPrefix (TrimSpace s) (String c p) = false.
Proof.
  intros H. apply not_true_is_false. intros Hp. apply prefix_mem in Hp.
  now rewrite (mem_TrimSpace c s H) in Hp.
Qed.

Lemma plainByte_no_space d :
  plainByte d = true ->
  asciiSpace d = false /\
  (forall a, space2 a d = false /\ space2 d a = false) /\
  (forall a b, space3 d a b = false /\ space3 a d b = false /\ space3 a b d = false).
Proof.
  unfold plainByte. intros H. apply andb_prop in H as [Hs Hlt].
  apply negb_true_iff in Hs. apply Nat.ltb_lt in Hlt.
  split; [exact Hs |]. split.
  - intros a. unfold space2. split.
    + destruct (Nat.eqb_spec (nat_of_ascii d) 133); [lia |].
      destruct (Nat.eqb_spec (nat_of_ascii d) 160); [lia |]. apply andb_false_r.
    + destruct (Nat.eqb_spec (nat_of_ascii d) 194); [lia | reflexivity].
  - intros a b. unfold space3. repeat split.
    + destruct (Nat.eqb_spec (nat_of_ascii d) 225); [lia |].
      destruct (Nat.eqb_spec (nat_of_ascii d) 226); [lia |].
      destruct (Nat.eqb_spec (nat_of_ascii d) 227); [lia | reflexivity].
    + destruct (Nat.eqb_spec (nat_of_ascii d) 154); [lia |].
      destruct (Nat.eqb_spec (nat_of_ascii d) 128); [lia |].
      destruct (Nat.eqb_spec (nat_of_ascii d) 129); [lia |].
      now rewrite !andb_false_r.
    + destruct (Nat.eqb_spec (nat_of_ascii d) 128); [lia |].
      destruct (Nat.leb_spec 128 (nat_of_ascii d)); [lia |].
      destruct (Nat.eqb_spec (nat_of_ascii d) 168); [lia |].
      destruct (Nat.eqb_spec (nat_of_ascii d) 169); [lia |].
      destruct (Nat.eqb_spec (nat_of_ascii d) 175); [lia |].
      destruct (Nat.eqb_spec (nat_of_ascii d) 159); [lia |].
      cbn [andb orb]. now rewrite !andb_false_r.
Qed.

Lemma width_before_plain x d y :
  plainByte d = true ->
  widthBy asciiSpace (fun a b => space2 b a) (fun a b c => space3 c b a)
    (x +:+ String d y) <= len x.
Proof.
  intros Hd. destruct (plainByte_no_space d Hd) as (H1 & H2 & H3).
  destruct x as [|a [|b [|c x]]];
    [ cbn [String.append];
      now rewrite (proj2 (plainByte_width (String d y) Hd))
    | cbn [String.append widthBy] .. ].
  - destruct (asciiSpace a); [slia |]. destruct (H2 a) as [_ ->].
    destruct y as [|e y]; [slia |]. destruct (H3 e a) as (_ & -> & _). slia.
  - destruct (asciiSpace a); [slia |]. destruct (space2 b a); [slia |].
    destruct (H3 b a) as (-> & _ & _). slia.
  - destruct (asciiSpace a); [slia |]. destruct (space2 b a); [slia |].
    destruct (space3 c b a); slia.
Qed.

Lemma trimRev_keeps d y : plainByte d = true -> forall n x, len x <= n ->
  exists x', trimLeftSpaceRev (x +:+ String d y) = x' +:+ String d y.
Proof.
  intros Hd. unfold trimLeftSpaceRev.
  induction n as [|n IH]; intros x Hn; rewrite trimBy_unfold;
    pose proof (width_before_plain x d y Hd) as Hw;
    destruct (widthBy _ _ _ (x +:+ String d y)) as [|w] eqn:E;
    try (now exists x); try lia.
  rewrite drop_app_le by lia.
  apply IH. rewrite len_drop. lia.
Qed.

Lemma HasPrefix_TrimSpace l p d :
  firstPlain l = true -> plainByte d = true ->
  HasPrefix l (p +:+ str d) = true -> HasPrefix (TrimSpace l) (p +:+ str d) = true.
Proof.
  unfold HasPrefix. intros Hl Hd H. apply prefix_iff in H as [r ->].
  unfold TrimSpace, trimLeftSpace.
  rewrite (trimBy_id _ _ _ _ (proj1 (plainByte_width _ Hl))).
  unfold trimRightSpace. rewrite rev_app, rev_app.
  change (rev (str d)) with (str d).
  change (str d +:+ rev p) with (String d (rev p)).
  destruct (trimRev_keeps d (rev p) Hd (len (rev r)) (rev r) (le_n _)) as [x' ->].
  change (String d (rev p)) with (str d +:+ rev p).
  rewrite !rev_app, rev_involutive. change (rev (str d)) with (str d).
  apply prefix_app.
Qed.
(** ** The parser returns on calm documents *)

Lemma mem_drop c n : forall s, mem c s = false -> mem c (drop n s) = false.
Proof.
  induction n as [|n IH]; intros [|d s] H; cbn [drop]; try assumption.
  cbn [mem] in H. apply orb_false_iff in H as [_ H]. now apply IH.
Qed.

Lemma sevenFree_drop n : forall s, sevenFree s = true -> sevenFree (drop n s) = true.
Proof.
  induction n as [|n IH]; intros [|d s] H; cbn [drop]; try assumption.
  cbn [sevenFree] in H. apply andb_prop in H as [_ H]. now apply IH.
Qed.

Lemma calm_inv s :
  calm s = true -> mem "|" s = false /\ mem "<" s = false /\ sevenFree s = true.
Proof.
  unfold calm. intros H. apply andb_prop in H as [H H3]. apply andb_prop in H as [H1 H2].
  apply negb_true_iff in H1, H2. auto.
Qed.

Lemma calmLine_drop n l : calmLine l -> calmLine (drop n l).
Proof.
  intros [H Hlf]. apply calm_inv in H as (H1 & H2 & H3). split; [| now apply mem_drop].
  unfold calm. now rewrite !mem_drop, sevenFree_drop.
Qed.

Lemma calmLine_TrimPrefix l p : calmLine l -> calmLine (TrimPrefix l p).
Proof.
  intros H. unfold TrimPrefix. destruct (HasPrefix l p); [now apply calmLine_drop | exact H].
Qed.

Lemma len_TrimPrefix l p : len (TrimPrefix l p) <= len l.
Proof.
  unfold TrimPrefix. destruct (HasPrefix l p); [rewrite len_drop |]; unfold len; lia.
Qed.

Lemma calmLine_heading l :
  calmLine l -> HasPrefix l "#" = true -> 0 < fst (parseHeading l).
Proof.
  intros [H _] Hp. apply calm_inv in H as (_ & _ & H).
  unfold parseHeading. rewrite Hp. cbn [negb].
  destruct l as [|c l]; [discriminate |].
  cbn [sevenFree] in H. apply andb_prop in H as [H _]. apply Nat.leb_le in H.
  destruct (Nat.ltb_spec 6 (countHashes (String c l))); [lia |]. cbn [fst].
  unfold HasPrefix in Hp. cbn [String.prefix] in Hp.
  destruct (ascii_dec "#" c) as [<- |]; [| discriminate]. cbn. lia.
Qed.

(** *** Lists *)

Lemma length_takeWhile {A} (p : A -> bool) l : length (takeWhile p l) <= length l.
Proof. induction l as [|x l IH]; cbn; [lia |]. destruct (p x); cbn; lia. Qed.

Lemma parseList_returns : forall fuel lines i ordered items,
  length lines - i < fuel ->
  exists items' newI,
    parseList_loop fuel lines i ordered items = Some (items', newI) /\
    i <= newI /\
    (i < length lines ->
     FindStringSubmatchIndex (if ordered then ordRe else listRe) (lineAt lines i) <> None ->
     i < newI).
Proof.
  induction fuel as [|fuel IH]; intros lines i ordered items Hf; [lia |].
  cbn [parseList_loop].
  destruct (Nat.leb_spec (length lines) i) as [Hi | Hi].
  { exists items, i. split; [reflexivity | split; [lia | intros; lia]]. }
  destruct (FindStringSubmatchIndex (if ordered then ordRe else listRe) (lineAt lines i))
    as [[[a e] cs]|] eqn:Hfind.
  2:{ exists items, i. split; [reflexivity | split; [lia | intros _ H; now contradiction H]]. }
  assert (Hsub : forall p, length (takeWhile p (skipn (i + 1) lines)) <= length lines - (i + 1)).
  { intros p. etransitivity; [apply length_takeWhile |]. rewrite length_skipn. lia. }
  destruct ((i + 1 <? length lines) && MatchString indentedBulletRe (lineAt lines (i + 1))).
  - destruct (IH (map (fun l => TrimLeft l (String SP (String TAB "")))
                    (takeWhile (MatchString indentedBulletRe) (skipn (i + 1) lines)))
                0 false []) as (sub & k & -> & _).
    { rewrite length_map. specialize (Hsub (MatchString indentedBulletRe)). lia. }
    edestruct (IH lines (i + 1 + length (takeWhile (MatchString indentedBulletRe)
                                           (skipn (i + 1) lines))) ordered)
      as (items' & newI & -> & Hle & _); [lia |].
    exists items', newI. split; [reflexivity | split; intros; lia].
  - destruct ((i + 1 <? length lines) && MatchString indentedOrdRe (lineAt lines (i + 1))).
    + destruct (IH (map (fun l => TrimLeft l (String SP (String TAB "")))
                      (takeWhile (MatchString indentedOrdRe) (skipn (i + 1) lines)))
                  0 true []) as (sub & k & -> & _).
      { rewrite length_map. specialize (Hsub (MatchString indentedOrdRe)). lia. }
      edestruct (IH lines (i + 1 + length (takeWhile (MatchString indentedOrdRe)
                                             (skipn (i + 1) lines))) ordered)
        as (items' & newI & -> & Hle & _); [lia |].
      exists items', newI. split; [reflexivity | split; intros; lia].
    + edestruct (IH lines (i + 1) ordered) as (items' & newI & -> & Hle & _); [lia |].
      exists items', newI. split; [reflexivity | split; intros; lia].
Qed.
(** *** The measure of the block loop *)

Lemma skipn_lineAt (lines : list string) i :
  i < length lines -> skipn i lines = lineAt lines i :: skipn (S i) lines.
Proof.
  revert i. induction lines as [|l lines IH]; intros [|i] H; cbn in *; try lia; try reflexivity.
  rewrite IH by lia. reflexivity.
Qed.

Lemma size_cons x l : size (x :: l) = S (len x) + size l.
Proof. reflexivity. Qed.

Lemma size_skipn_le lines : forall i j, i <= j -> size (skipn j lines) <= size (skipn i lines).
Proof.
  induction lines as [|l lines IH]; intros i j H.
  - now rewrite !skipn_nil.
  - destruct i as [|i], j as [|j]; cbn [skipn]; try lia.
    + specialize (IH 0 j ltac:(lia)). rewrite skipn_O in IH. rewrite size_cons. lia.
    + apply IH. lia.
Qed.

Lemma size_next lines i j :
  i < length lines -> i < j -> 2 * size (skipn j lines) + 2 <= 2 * size (skipn i lines).
Proof.
  intros Hi Hj. rewrite (skipn_lineAt lines i Hi), size_cons.
  pose proof (size_skipn_le lines (S i) j ltac:(lia)). lia.
Qed.

Lemma size_length lines : length lines <= size lines.
Proof. induction lines as [|l lines IH]; [cbn; lia |]. rewrite size_cons. cbn [length]. lia. Qed.

Lemma size_takeWhile (p : string -> bool) l : size (takeWhile p l) <= size l.
Proof.
  induction l as [|x l IH]; cbn [takeWhile]; [lia |].
  destruct (p x); rewrite ?size_cons; [lia | cbn; lia].
Qed.

Lemma size_Split s : size (Split s LF) = S (len s).
Proof.
  induction s as [|c s IH]; [reflexivity |].
  cbn [Split]. destruct (Ascii.eqb c LF).
  - rewrite size_cons, IH. slia.
  - destruct (Split s LF) as [|h t]; [discriminate |].
    rewrite size_cons in *. slia.
Qed.

Lemma Split_Join qs :
  qs <> [] -> Forall (fun l => mem LF l = false) qs -> Split (Join qs (str LF)) LF = qs.
Proof.
  unfold Join. induction qs as [|x qs IH]; intros Hne Hall; [contradiction |].
  apply Forall_cons_1 in Hall as [Hx Hall].
  destruct qs as [|y qs]; [now apply Split_single |].
  change (String.concat (str LF) (x :: y :: qs))
    with (x +:+ String LF (String.concat (str LF) (y :: qs))).
  rewrite Split_app by exact Hx. f_equal. now apply IH.
Qed.

(** *** Block quotes *)

Lemma quote_line_shorter line :
  HasPrefix line "> " || (line =s ">") = true ->
  isQuoteLine line = true /\
  len (TrimPrefix (TrimPrefix line "> ") ">") < len line.
Proof.
  intros H. apply orb_prop in H as [H | H].
  - split; [unfold isQuoteLine; now rewrite H |].
    unfold TrimPrefix at 2. rewrite H.
    pose proof (len_TrimPrefix (drop (String.length "> ") line) ">").
    rewrite len_drop in H0. apply prefix_len in H. cbn in *. lia.
  - apply String.eqb_eq in H as ->. split; reflexivity || (cbn; lia).
Qed.

Lemma size_quoted quoted :
  size (map (fun l => TrimPrefix (TrimPrefix l "> ") ">") quoted) <= size quoted.
Proof.
  induction quoted as [|q quoted IH]; [reflexivity |].
  cbn [map]. rewrite !size_cons.
  pose proof (len_TrimPrefix (TrimPrefix q "> ") ">").
  pose proof (len_TrimPrefix q "> "). lia.
Qed.

(** *** Lists *)

Lemma bullet_line_item line :
  HasPrefix line "- " || HasPrefix line "* " = true ->
  FindStringSubmatchIndex listRe line <> None.
Proof.
  unfold HasPrefix. intros H.
  apply orb_prop in H as [H | H]; apply prefix_iff in H as [r ->]; discriminate.
Qed.

Lemma ordered_line_item line :
  MatchString ordRe line = true -> FindStringSubmatchIndex ordRe line <> None.
Proof. unfold MatchString. now destruct (FindStringSubmatchIndex ordRe line). Qed.

(** *** Paragraphs *)

Lemma fence_trimmed l : HasPrefix l "```" = true -> HasPrefix (TrimSpace l) "```" = true.
Proof.
  intros H. apply (HasPrefix_TrimSpace l "``" "`"); [| reflexivity | exact H].
  unfold HasPrefix in H. apply prefix_iff in H as [r ->]. reflexivity.
Qed.

Lemma paragraph_starts `{J : Json} line :
  calmLine line ->
  (TrimSpace line =s "") = false -> isRule line = false ->
  (0 <? fst (parseHeading line)) = false ->
  HasPrefix (TrimSpace line) "```" = false ->
  HasPrefix line "> " || (line =s ">") = false ->
  HasPrefix line "- " || HasPrefix line "* " = false ->
  MatchString ordRe line = false ->
  paraStop line = false.
Proof.
  intros Hc Hb Hr Hh Hf Hq Hl Ho. unfold paraStop.
  pose proof Hc as [Hcalm _]. apply calm_inv in Hcalm as (Hpipe & Hlt & _).
  unfold isRule in Hr. apply orb_false_iff in Hr as [Hr _].
  apply orb_false_iff in Hr as [Hr1 Hr2].
  apply orb_false_iff in Hq as [Hq _]. apply orb_false_iff in Hl as [Hl1 Hl2].
  assert (Hhash : HasPrefix line "#" = false).
  { apply not_true_is_false. intros H. apply (calmLine_heading line Hc) in H.
    apply Nat.ltb_ge in Hh. lia. }
  assert (Hfence : HasPrefix line "```" = false).
  { apply not_true_is_false. intros H. apply fence_trimmed in H. congruence. }
  rewrite Hb, Hhash, Hfence, Hq, Hl1, Hl2, Hr1, Hr2, Ho.
  unfold preserveStart. now rewrite !absent_not_prefix.
Qed.
(** *** The block loop *)
Lemma Forall_takeWhile {A} (P : A -> Prop) p l : Forall P l -> Forall P (takeWhile p l).
Proof.
  induction 1 as [|x l Hx _ IH]; cbn [takeWhile]; [constructor |].
  destruct (p x); [now constructor | constructor].
Qed.


Lemma loop_returns `{J : Json} : forall fuel lines i content,
  Forall calmLine lines -> 2 * size (skipn i lines) + 2 <= fuel ->
  exists c, markdownToADF_loop fuel lines i content = Some c.
Proof.
  induction fuel as [|fuel IH]; intros lines i content Hcalm Hf; [lia |].
  cbn [markdownToADF_loop].
  destruct (Nat.leb_spec (length lines) i) as [Hi | Hi]; [eauto |].
  assert (Hnext : forall j, i < j -> 2 * size (skipn j lines) + 2 <= fuel).
  { intros j Hj. pose proof (size_next lines i j Hi Hj). lia. }
  pose proof (skipn_lineAt lines i Hi) as Hskip.
  assert (Hline : calmLine (lineAt lines i)).
  { unfold lineAt. destruct (lines !! i) as [l|] eqn:E.
    - exact (Forall_lookup_1 _ _ _ _ Hcalm E).
    - apply lookup_ge_None in E. lia. }
  remember (lineAt lines i) as line eqn:Eline.
  destruct (TrimSpace line =s "") eqn:Hb; [apply IH; [exact Hcalm | apply Hnext; lia] |].
  pose proof Hline as [Hc _]. apply calm_inv in Hc as (Hpipe & Hlt & _).
  unfold preserveStart at 1. rewrite (absent_not_prefix "<" _ line Hlt).
  destruct (isRule line) eqn:Hr; [apply IH; [exact Hcalm | apply Hnext; lia] |].
  destruct (0 <? fst (parseHeading line)) eqn:Hh.
  { destruct (parseHeading line) as [level text].
    apply IH; [exact Hcalm | apply Hnext; lia]. }
  destruct (HasPrefix (TrimSpace line) "```") eqn:Hfence.
  { apply IH; [exact Hcalm | apply Hnext].
    match goal with |- context [if ?b then _ else _] => destruct b end; lia. }
  destruct (HasPrefix line "> " || (line =s ">")) eqn:Hq.
  { destruct (quote_line_shorter line Hq) as [Hql Hshort].
    rewrite Hskip. cbn [takeWhile]. rewrite Hql.
    remember (takeWhile isQuoteLine (skipn (S i) lines)) as rest eqn:Erest.
    assert (Hrest : Forall calmLine rest).
    { subst rest. apply Forall_takeWhile, Forall_drop, Hcalm. }
    assert (Hsize : size rest <= size (skipn (S i) lines)).
    { subst rest. apply size_takeWhile. }
    rewrite Split_Join; [| discriminate |].
    2:{ apply Forall_map, Forall_cons. split.
        - now apply calmLine_TrimPrefix, calmLine_TrimPrefix.
        - eapply Forall_impl; [exact Hrest |]. intros l Hl.
          now apply calmLine_TrimPrefix, calmLine_TrimPrefix. }
    edestruct (IH (map (fun l => TrimPrefix (TrimPrefix l "> ") ">") (line :: rest)) 0 [])
      as [inner ->].
    - apply Forall_map, Forall_cons. split.
      + now apply calmLine_TrimPrefix, calmLine_TrimPrefix.
      + eapply Forall_impl; [exact Hrest |]. intros l Hl.
        now apply calmLine_TrimPrefix, calmLine_TrimPrefix.
    - rewrite skipn_O. cbn [map]. rewrite size_cons.
      pose proof (size_quoted rest). rewrite Hskip, size_cons in Hf. lia.
    - apply IH; [exact Hcalm | apply Hnext; cbn [length]; lia]. }
  assert (Hfuel : length lines - i < fuel).
  { pose proof (size_length (skipn i lines)). rewrite length_skipn in H. lia. }
  destruct (HasPrefix line "- " || HasPrefix line "* ") eqn:Hl.
  { destruct (parseList_returns fuel lines i false [] Hfuel) as (items & newI & Hp & _ & Hadv).
    unfold parseList. rewrite Hp. apply IH; [exact Hcalm | apply Hnext, Hadv; [exact Hi |]].
    rewrite <- Eline. now apply bullet_line_item. }
  destruct (MatchString ordRe line) eqn:Ho.
  { destruct (parseList_returns fuel lines i true [] Hfuel) as (items & newI & Hp & _ & Hadv).
    unfold parseList. rewrite Hp. apply IH; [exact Hcalm | apply Hnext, Hadv; [exact Hi |]].
    rewrite <- Eline. now apply ordered_line_item. }
  rewrite (absent_not_prefix "|" _ line Hpipe).
  rewrite Hskip. cbn [takeWhile].
  rewrite (paragraph_starts line Hline Hb Hr Hh Hfence Hq Hl Ho). cbn [negb].
  apply IH; [exact Hcalm | apply Hnext; cbn [length]; lia].
Qed.
(** *** The lines of a calm text *)

Lemma Split_no_sep sep : forall s, Forall (fun l => mem sep l = false) (Split s sep).
Proof.
  induction s as [|c s IH]; cbn [Split]; [now repeat constructor |].
  destruct (Ascii.eqb c sep) eqn:E; [now constructor |].
  pose proof (Split_not_nil s sep) as Hne.
  destruct (Split s sep) as [|h t]; [contradiction |].
  apply Forall_cons_1 in IH as [Hh Ht]. constructor; [| exact Ht].
  cbn [mem]. now rewrite Ascii.eqb_sym, E.
Qed.

Lemma Split_absent c sep : forall s,
  mem c s = false -> Forall (fun l => mem c l = false) (Split s sep).
Proof.
  induction s as [|d s IH]; cbn [Split mem]; intros H; [now repeat constructor |].
  apply orb_false_iff in H as [Hd Hs]. specialize (IH Hs).
  destruct (Ascii.eqb d sep); [now constructor |].
  pose proof (Split_not_nil s sep) as Hne.
  destruct (Split s sep) as [|h t]; [contradiction |].
  apply Forall_cons_1 in IH as [Hh Ht]. constructor; [| exact Ht].
  cbn [mem]. now rewrite Hd.
Qed.

Lemma countHashes_head sep : forall s h t,
  Split s sep = h :: t -> countHashes h <= countHashes s.
Proof.
  induction s as [|d s IH]; cbn [Split]; intros h t H.
  - injection H as <- <-. lia.
  - destruct (Ascii.eqb d sep).
    + injection H as <- <-. cbn. lia.
    + pose proof (Split_not_nil s sep) as Hne.
      destruct (Split s sep) as [|h' t'] eqn:E; [contradiction |].
      injection H as <- <-. cbn [countHashes]. specialize (IH h' t' eq_refl).
        destruct (Ascii.eqb d "#"); lia.
Qed.

Lemma Split_sevenFree sep : forall s,
  sevenFree s = true -> Forall (fun l => sevenFree l = true) (Split s sep).
Proof.
  induction s as [|d s IH]; intros H; [now repeat constructor |].
  cbn [sevenFree] in H. apply andb_prop in H as [Hd Hs]. specialize (IH Hs).
  apply Nat.leb_le in Hd. cbn [Split].
  destruct (Ascii.eqb d sep); [now constructor |].
  pose proof (Split_not_nil s sep) as Hne.
  destruct (Split s sep) as [|h t] eqn:E; [contradiction |].
  apply Forall_cons_1 in IH as [Hh Ht]. constructor; [| exact Ht].
  pose proof (countHashes_head sep s h t E) as Hle.
  cbn [sevenFree]. rewrite Hh, andb_true_r. apply Nat.leb_le.
  cbn [countHashes] in *. destruct (Ascii.eqb d "#"); lia.
Qed.

Lemma calm_lines md : calm md = true -> Forall calmLine (Split md LF).
Proof.
  intros H. apply calm_inv in H as (H1 & H2 & H3).
  pose proof (Split_no_sep LF md) as Hlf.
  pose proof (Split_absent "|" LF md H1) as Hp.
  pose proof (Split_absent "<" LF md H2) as Hl.
  pose proof (Split_sevenFree LF md H3) as Hs.
  induction (Split md LF) as [|l ls IH]; [constructor |].
  apply Forall_cons_1 in Hlf as [Ha Hlf], Hp as [Hb Hp], Hl as [Hc Hl], Hs as [Hd Hs].
  constructor; [| now apply IH].
  split; [| exact Ha]. unfold calm. now rewrite Hb, Hc, Hd.
Qed.

(** X7: the parser returns on every calm document.  When the text holds
    no pipe, no [<] and no run of seven [#], the loop of [markdownToADF],
    the loops of [parseList] and the calls of [markdownToADF] on the text
    of block quotes all come to an end: two turns per byte and four more
    are enough for the document to be returned. *)
Theorem markdownToADF_returns (J : Json) (md : string) :
  calm md = true ->
  forall fuel, exists content,
    markdownToADF (2 * len md + 4 + fuel) md = Some (docNode content).
Proof.
  intros H fuel. unfold markdownToADF.
  destruct (loop_returns (2 * len md + 4 + fuel) (Split md LF) 0 []) as [c ->].
  - now apply calm_lines.
  - rewrite skipn_O, size_Split. lia.
  - now exists c.
Qed.

Lemma markdownToADF_returns_witness :
  calm calmDocument = true /\
  forall fuel, exists content,
    markdownToADF (J := tagOnlyJson) (2 * len calmDocument + 4 + fuel) calmDocument
    = Some (docNode content).
Proof.
  split; [reflexivity | apply (markdownToADF_returns tagOnlyJson calmDocument); reflexivity].
Defined.
(** ** The lines on which the parser does not advance *)

Lemma raw_prefix_false line c r x p :
  TrimSpace line = String c r -> plainByte x = true -> x <> c ->
  HasPrefix line (String x p) = false.
Proof.
  intros Ht Hx Hne. apply not_true_is_false. intros H.
  assert (H1 : HasPrefix line (str x) = true).
  { unfold HasPrefix in *. now apply (prefix_trans (str x) p). }
  assert (Hf : firstPlain line = true).
  { unfold HasPrefix in H1. apply prefix_iff in H1 as [q ->]. exact Hx. }
  apply (HasPrefix_TrimSpace line "" x Hf Hx) in H1.
  rewrite Ht in H1. unfold HasPrefix in H1. cbn in H1.
  destruct (ascii_dec x c); [contradiction | discriminate].
Qed.

Lemma ordered_first line :
  MatchString ordRe line = true ->
  exists d r, line = String d r /\ in_class d digit = true.
Proof.
  destruct line as [|d r]; [discriminate |]. intros H.
  destruct (in_class d digit) eqn:E; [now exists d, r |].
  now rewrite (not_ordered d r E) in H.
Qed.

Lemma digit_plain d : in_class d digit = true -> plainByte d = true /\ isDigit d = true.
Proof.
  unfold in_class, digit. cbn [mem]. intros H.
  repeat (apply orb_prop in H as [H | H];
          [apply Ascii.eqb_eq in H as ->; split; reflexivity |]).
  discriminate.
Qed.

Lemma raw_not_ordered line c r :
  TrimSpace line = String c r -> in_class c digit = false ->
  MatchString ordRe line = false.
Proof.
  intros Ht Hc. apply not_true_is_false. intros H.
  apply ordered_first in H as (d & q & -> & Hd).
  destruct (digit_plain d Hd) as [Hp _].
  assert (H1 : HasPrefix (TrimSpace (String d q)) (str d) = true).
  { apply (HasPrefix_TrimSpace _ "" d); [exact Hp | exact Hp |].
    unfold HasPrefix. apply (prefix_app (str d) q). }
  rewrite Ht in H1. unfold HasPrefix in H1. cbn in H1.
  destruct (ascii_dec d c) as [<- |]; [congruence | discriminate].
Qed.

(** One turn that changes nothing: the line is no blank line, no rule, no
    fence, no quotation and no list item, and the marker, the heading and
    the table that it could open are refused. *)
Lemma turn_stuck `{J : Json} fuel lines i content c r :
  i < length lines ->
  TrimSpace (lineAt lines i) = String c r ->
  c = "#"%char \/ c = "|"%char \/ c = "<"%char ->
  fst (if HasPrefix (String c r) preserveStart
       then parsePreservedMarker lines i else (None, i)) = None ->
  fst (parseHeading (lineAt lines i)) = 0 ->
  fst (if HasPrefix (String c r) "|"
       then parseMarkdownTable lines i else (None, i)) = None ->
  paraStop (lineAt lines i) = true ->
  markdownToADF_loop (S fuel) lines i content = markdownToADF_loop fuel lines i content.
Proof.
  intros Hi Ht Hc Hm Hh Htab Hstop. cbn [markdownToADF_loop].
  destruct (Nat.leb_spec (length lines) i) as [| _]; [lia |].
  rewrite (skipn_lineAt lines i Hi).
  remember (lineAt lines i) as line eqn:Eline.
  assert (Hraw : forall x p, plainByte x = true -> x <> c -> HasPrefix line (String x p) = false).
  { intros x p. now apply (raw_prefix_false line c r). }
  assert (Hq : (line =s ">") = false).
  { destruct (String.eqb_spec line ">") as [-> |]; [| reflexivity].
    cbv in Ht. injection Ht as <- _. destruct Hc as [? | [? | ?]]; discriminate. }
  assert (Ho : MatchString ordRe line = false).
  { apply (raw_not_ordered line c r Ht). destruct Hc as [-> | [-> | ->]]; reflexivity. }
  unfold isRule. rewrite Ht, Hh, Ho, Hq.
  destruct (if HasPrefix (String c r) preserveStart then parsePreservedMarker lines i
            else (None, i)) as [[n|] endI]; [discriminate |].
  destruct (if HasPrefix (String c r) "|" then parseMarkdownTable lines i
            else (None, i)) as [[t|] newI]; [discriminate |].
  cbn [takeWhile]. rewrite Hstop. cbn [negb]. rewrite Nat.add_0_r.
  assert (Hfence : HasPrefix (String c r) "```" = false).
  { destruct Hc as [-> | [-> | ->]]; reflexivity. }
  rewrite Hfence.
  rewrite !Hraw by (first [reflexivity | destruct Hc as [-> | [-> | ->]]; discriminate]).
  destruct Hc as [-> | [-> | ->]]; reflexivity.
Qed.

Lemma stuck_forever `{J : Json} lines i content :
  (forall fuel, markdownToADF_loop (S fuel) lines i content
                = markdownToADF_loop fuel lines i content) ->
  forall fuel, markdownToADF_loop fuel lines i content = None.
Proof.
  intros Hturn fuel. induction fuel as [|fuel IH]; [reflexivity |]. now rewrite Hturn.
Qed.

Lemma trimmed_first line c p :
  HasPrefix (TrimSpace line) (String c p) = true ->
  exists r, TrimSpace line = String c r.
Proof.
  unfold HasPrefix. intros H. apply prefix_iff in H as [q Hq]. rewrite Hq. now eexists.
Qed.

Lemma no_heading line c r :
  TrimSpace line = String c r -> c <> "#"%char -> parseHeading line = (0, "").
Proof.
  intros Ht Hc. unfold parseHeading.
  rewrite (raw_prefix_false line c r "#" "" Ht eq_refl); [reflexivity | congruence].
Qed.

Lemma lineAt_next lines i l rest :
  skipn (S i) lines = l :: rest -> lineAt lines (i + 1) = l.
Proof.
  intros H. unfold lineAt.
  replace (lines !! (i + 1)) with (skipn (S i) lines !! 0).
  - now rewrite H.
  - rewrite lookup_drop. f_equal. lia.
Qed.

Lemma lone_row lines i :
  i < length lines ->
  HasPrefix (TrimSpace (lineAt lines i)) "|" = true ->
  HasPrefix (TrimSpace (lineAt lines (i + 1))) "|" = false ->
  fst (parseMarkdownTable lines i) = None.
Proof.
  intros Hi Hp Hn. unfold parseMarkdownTable.
  rewrite (skipn_lineAt lines i Hi). cbn [takeWhile]. rewrite Hp.
  destruct (skipn (S i) lines) as [|l rest] eqn:E; [reflexivity |].
  cbn [takeWhile]. rewrite <- (lineAt_next lines i l rest E), Hn. reflexivity.
Qed.

(** X8: the lines on which the parser does not advance.  When the loop of
    [markdownToADF] reaches a line that begins with seven [#] or more, or
    a pipe row that is not followed by another pipe row, or the opening of
    a marker block that [parsePreservedMarker] refuses, the turn leaves
    the index and the content as they are: no number of turns makes the
    function return. *)
Theorem markdownToADF_stuck (J : Json) (lines : list string) (i : nat)
    (content : list ADFNode) :
  i < length lines ->
  7 <= countHashes (lineAt lines i) \/
  (HasPrefix (TrimSpace (lineAt lines i)) "|" = true /\
   HasPrefix (TrimSpace (lineAt lines (i + 1))) "|" = false) \/
  (HasPrefix (TrimSpace (lineAt lines i)) preserveStart = true /\
   fst (parsePreservedMarker lines i) = None) ->
  forall fuel, markdownToADF_loop fuel lines i content = None.
Proof.
  intros Hi H. apply stuck_forever. intros fuel.
  destruct H as [Hh | [[Hp Hn] | [Hp Hm]]].
  - assert (Hp : HasPrefix (lineAt lines i) "#" = true).
    { destruct (lineAt lines i) as [|c l]; [cbn in Hh; lia |].
      cbn [countHashes] in Hh. destruct (Ascii.eqb_spec c "#") as [-> |]; [apply (prefix_app "#" l) | lia]. }
    assert (Hf : firstPlain (lineAt lines i) = true).
    { unfold HasPrefix in Hp. apply prefix_iff in Hp as [q ->]. reflexivity. }
    destruct (trimmed_first _ "#" ""
                (HasPrefix_TrimSpace _ "" "#" Hf eq_refl Hp)) as [r Ht].
    apply (turn_stuck fuel lines i content "#" r Hi Ht); [auto | reflexivity | | reflexivity |].
    + unfold parseHeading. rewrite Hp. cbn [negb].
      destruct (Nat.ltb_spec 6 (countHashes (lineAt lines i))); [reflexivity | lia].
    + unfold paraStop. rewrite Hp. cbn [orb]. now rewrite orb_true_r.
  - destruct (trimmed_first _ _ _ Hp) as [r Ht].
    apply (turn_stuck fuel lines i content "|" r Hi Ht); [auto | reflexivity | | |].
    + now rewrite (no_heading _ "|" r Ht).
    + rewrite <- Ht, Hp. now apply lone_row.
    + unfold paraStop. rewrite Hp. now rewrite orb_true_r.
  - destruct (trimmed_first _ _ _ Hp) as [r Ht].
    apply (turn_stuck fuel lines i content "<" r Hi Ht); [auto | | | reflexivity |].
    + rewrite <- Ht, Hp. exact Hm.
    + now rewrite (no_heading _ "<" r Ht).
    + unfold paraStop. rewrite Hp. now rewrite orb_true_r.
Qed.

Lemma markdownToADF_stuck_witness :
  2 < length stuckLines /\
  forall fuel, markdownToADF_loop (J := tagOnlyJson) fuel stuckLines 2 [] = None.
Proof.
  assert (H : 2 < length stuckLines) by (cbn; lia).
  split; [exact H |].
  apply (markdownToADF_stuck tagOnlyJson stuckLines 2 [] H).
  right; left. split; reflexivity.
Defined.
(** ** The layout of a table *)

Section Padded.
Variable sp1 : ascii -> bool.
Variable sp2 : ascii -> ascii -> bool.
Variable sp3 : ascii -> ascii -> ascii -> bool.
Variable d : ascii.
Hypothesis d2 : forall a, sp2 a d = false.
Hypothesis d3 : forall a b, sp3 a d b = false /\ sp3 a b d = false.

Lemma width_snoc c y :
  c <> "" -> widthBy sp1 sp2 sp3 c = 0 -> widthBy sp1 sp2 sp3 (c +:+ String d y) = 0.
Proof.
  intros Hne. destruct c as [|a [|b [|e c]]]; [contradiction | ..];
    cbn [String.append widthBy].
  - destruct (sp1 a); [discriminate |]. intros _. rewrite d2.
    destruct y; [reflexivity |]. now rewrite (proj1 (d3 a a0)).
  - destruct (sp1 a); [discriminate |]. destruct (sp2 a b); [discriminate |].
    intros _. now rewrite (proj2 (d3 a b)).
  - tauto.
Qed.

End Padded.

Lemma trimmed_left c : TrimSpace c = c -> trimLeftSpace c = c /\ trimRightSpace c = c.
Proof.
  intros H. unfold TrimSpace in H.
  destruct (trimBy_suffix asciiSpace space2 space3 c) as [p Hp]. fold trimLeftSpace in Hp.
  destruct (trimRightSpace_prefix (trimLeftSpace c)) as [q Hq].
  assert (Hlen : len p = 0 /\ len q = 0).
  { pose proof (f_equal len Hp) as H1. pose proof (f_equal len Hq) as H2.
    rewrite len_app in H1, H2. rewrite H in H2. lia. }
  destruct Hlen as [Hlp Hlq]. destruct p; [| discriminate]. cbn in Hp.
  split; [now symmetry |]. now rewrite <- Hp in H.
Qed.

Lemma TrimSpace_padded c : TrimSpace c = c -> TrimSpace (" " +:+ c +:+ " ") = c.
Proof.
  intros H. destruct (trimmed_left c H) as [Hl Hr].
  destruct (String.eqb_spec c "") as [-> | Hne]; [reflexivity |].
  assert (H2 : forall a, space2 a " " = false).
  { intros a. unfold space2. change (nat_of_ascii " ") with 32. cbn [Nat.eqb orb].
    apply andb_false_r. }
  assert (H3 : forall a b, space3 a " " b = false /\ space3 a b " " = false).
  { intros a b. unfold space3. change (nat_of_ascii " ") with 32.
    cbn [Nat.eqb Nat.leb]. rewrite ?andb_false_r, ?andb_false_l. split; reflexivity. }
  unfold TrimSpace. change (trimLeftSpace (" " +:+ c +:+ " ")) with (trimLeftSpace (c +:+ " ")).
  assert (Hw : widthBy asciiSpace space2 space3 c = 0).
  { rewrite <- Hl at 1. apply trimBy_width. }
  unfold trimLeftSpace at 1. rewrite trimBy_id.
  2:{ apply width_snoc; [apply H2 | apply H3 | exact Hne | exact Hw]. }
  unfold trimRightSpace. rewrite rev_app.
  change (trimLeftSpaceRev (rev " " +:+ rev c)) with (trimLeftSpaceRev (rev c)).
  exact Hr.
Qed.

Lemma Split_cells cells :
  cells <> [] -> Forall (fun c => mem "|" c = false) cells ->
  Split (" " +:+ Join cells " | " +:+ " ") "|" = map (fun c => " " +:+ c +:+ " ") cells.
Proof.
  unfold Join. induction cells as [|c cells IH]; intros Hne Hall; [contradiction |].
  apply Forall_cons_1 in Hall as [Hc Hall].
  destruct cells as [|c' cells].
  - cbn [String.concat map]. apply Split_single. rewrite !mem_app, Hc. reflexivity.
  - change (String.concat " | " (c :: c' :: cells))
      with (c +:+ " | " +:+ String.concat " | " (c' :: cells)).
    replace (" " +:+ (c +:+ " | " +:+ String.concat " | " (c' :: cells)) +:+ " ")
      with ((" " +:+ c +:+ " ") +:+ String "|" (" " +:+ String.concat " | " (c' :: cells) +:+ " ")).
    + rewrite Split_app by (rewrite !mem_app, Hc; reflexivity).
      cbn [map]. f_equal. now apply IH.
    + rewrite !sapp_assoc. reflexivity.
Qed.

Lemma rowLine_trimmed cells : TrimSpace (rowLine cells) = rowLine cells.
Proof.
  apply TrimSpace_plain; [reflexivity |].
  unfold rowLine. rewrite <- sapp_assoc, rev_app. reflexivity.
Qed.

Lemma splitTableRow_rowLine cells :
  cells <> [] -> Forall cellOK cells -> splitTableRow (rowLine cells) = cells.
Proof.
  intros Hne Hall. unfold splitTableRow. rewrite rowLine_trimmed. unfold rowLine.
  change ("| " +:+ Join cells " | " +:+ " |") with ("|" +:+ (" " +:+ Join cells " | " +:+ " |")).
  rewrite TrimPrefix_app.
  replace (" " +:+ Join cells " | " +:+ " |") with ((" " +:+ Join cells " | " +:+ " ") +:+ "|")
    by (rewrite !sapp_assoc; reflexivity).
  rewrite TrimSuffix_app, Split_cells; [| exact Hne |].
  - rewrite map_map. rewrite <- (map_id cells) at 2. apply map_ext_Forall.
    eapply Forall_impl; [exact Hall |]. intros c (Hc & _). now apply TrimSpace_padded.
  - eapply Forall_impl; [exact Hall |]. now intros c (_ & Hc & _).
Qed.

Lemma padRow_spec row cols : padRow row cols = row ++ repeat "" (cols - length row).
Proof.
  unfold padRow. generalize (cols - length row) as n. intros n. revert row.
  induction n as [|n IH]; intros row; cbn [padRow_loop repeat].
  - now rewrite app_nil_r.
  - now rewrite IH, <- app_assoc.
Qed.

Lemma cellOK_empty : cellOK "".
Proof. repeat split. Qed.

Lemma padRow_OK row cols : Forall cellOK row -> Forall cellOK (padRow row cols).
Proof.
  intros H. rewrite padRow_spec. apply Forall_app. split; [exact H |].
  induction (cols - length row) as [|n IH]; cbn [repeat]; constructor;
    [apply cellOK_empty | exact IH].
Qed.

Lemma padRow_not_nil row cols : 0 < cols -> padRow row cols <> [].
Proof.
  intros H. rewrite padRow_spec. destruct row as [|c row]; [| discriminate].
  cbn [length app]. rewrite Nat.sub_0_r. destruct cols; [lia | discriminate].
Qed.

Lemma concat_empty l : String.concat "" l = fold_right String.append "" l.
Proof.
  induction l as [|x l IH]; [reflexivity |].
  destruct l as [|y l]; [cbn; now rewrite sapp_nil_r |].
  change (String.concat "" (x :: y :: l)) with (x +:+ "" +:+ String.concat "" (y :: l)).
  rewrite IH. reflexivity.
Qed.

Lemma Join_one_line cells sep :
  mem LF sep = false -> Forall (fun c => mem LF c = false) cells ->
  mem LF (Join cells sep) = false.
Proof.
  intros Hsep. unfold Join. induction 1 as [|c cells Hc _ IH]; [reflexivity |].
  destruct cells as [|c' cells]; [exact Hc |].
  change (String.concat sep (c :: c' :: cells))
    with (c +:+ sep +:+ String.concat sep (c' :: cells)).
  now rewrite !mem_app, Hc, Hsep, IH.
Qed.

Lemma rowLine_one_line cells : Forall cellOK cells -> mem LF (rowLine cells) = false.
Proof.
  intros H. unfold rowLine. rewrite !mem_app, Join_one_line; [reflexivity .. |].
  eapply Forall_impl; [exact H |]. now intros c (_ & _ & Hc).
Qed.

Lemma Split_lines ls tail :
  Forall (fun l => mem LF l = false) ls ->
  Split (fold_right (fun l acc => l +:+ str LF +:+ acc) tail ls) LF = ls ++ Split tail LF.
Proof.
  induction 1 as [|l ls Hl _ IH]; [reflexivity |].
  cbn [fold_right app]. change (str LF +:+ ?x) with (String LF x).
  rewrite Split_app by exact Hl. now rewrite IH.
Qed.

Lemma takeWhile_stop {A} (p : A -> bool) ls x r :
  Forall (fun l => p l = true) ls -> p x = false -> takeWhile p (ls ++ x :: r) = ls.
Proof.
  intros Hall Hx. induction Hall as [|l ls Hl _ IH]; cbn [app takeWhile].
  - now rewrite Hx.
  - now rewrite Hl, IH.
Qed.

Lemma separator_recognised cols :
  0 < cols -> separatorBySpec (rowLine (repeat "---" cols)) = true.
Proof.
  intros H. unfold separatorBySpec. rewrite splitTableRow_rowLine.
  - induction cols as [|n IH]; [reflexivity |]. cbn [repeat forallb].
    destruct n; [reflexivity | apply IH; lia].
  - destruct cols; [lia | discriminate].
  - induction cols as [|n IH]; [constructor |]. cbn [repeat]. constructor.
    + repeat split.
    + destruct n; [constructor | apply IH; lia].
Qed.

Lemma tableLine_rowLine cells : tableLine cells = rowLine cells +:+ str LF.
Proof. unfold tableLine, rowLine. now rewrite !sapp_assoc. Qed.

Lemma tableLines_fold (f : list string -> list string) rest tail :
  fold_right String.append "" (map (fun row => tableLine (f row)) rest) +:+ tail
  = fold_right (fun l acc => l +:+ str LF +:+ acc) tail (map (fun r => rowLine (f r)) rest).
Proof.
  induction rest as [|r rest IH]; [reflexivity |].
  cbn [map fold_right]. now rewrite tableLine_rowLine, !sapp_assoc, IH.
Qed.

Lemma writeTable_lines first rest :
  writeTable (first :: rest)
  = fold_right (fun l acc => l +:+ str LF +:+ acc) (str LF)
      (rowLine (padRow first (maxCols (first :: rest)))
       :: rowLine (repeat "---" (maxCols (first :: rest)))
       :: map (fun r => rowLine (padRow r (maxCols (first :: rest)))) rest).
Proof.
  unfold writeTable. fold (maxCols (first :: rest)).
  rewrite concat_empty, !tableLine_rowLine. cbn [fold_right].
  rewrite !sapp_assoc. do 4 f_equal.
  apply (tableLines_fold (fun r => padRow r (maxCols (first :: rest)))).
Qed.

(** X9: what the renderer prints for a table is read back with the same
    cell texts.  When the table has a column, and every cell text is
    trimmed and holds no pipe and no line feed, [parseMarkdownTable] on
    the lines of [writeTable] returns a table with the rows padded to the
    widest one, always with the first row as header row, whatever the
    cells of the first row were: the separator line that [writeTable]
    puts under every first row is the sign of a header for the parser. *)
Theorem table_layout_round_trip (first : list string) (rest : list (list string)) :
  0 < maxCols (first :: rest) ->
  Forall (Forall cellOK) (first :: rest) ->
  parseMarkdownTable (Split (writeTable (first :: rest)) LF) 0
  = (Some (mkNode "table"
       (buildTableRow (padRow first (maxCols (first :: rest))) true
        :: map (fun r => buildTableRow (padRow r (maxCols (first :: rest))) false) rest)
       "" tableAttrs []),
     2 + length rest).
Proof.
  intros Hcols Hall. apply Forall_cons_1 in Hall as [Hfirst Hrest].
  remember (maxCols (first :: rest)) as cols eqn:Ecols.
  assert (Hsep : Forall cellOK (repeat "---" cols)).
  { clear. induction cols as [|n IH]; constructor; [repeat split | exact IH]. }
  assert (Hlines : Forall (fun l => mem LF l = false /\ pipeLine l = true /\ TrimSpace l = l)
            (rowLine (padRow first cols) :: rowLine (repeat "---" cols)
             :: map (fun r => rowLine (padRow r cols)) rest)).
  { assert (Hrow : forall cells, Forall cellOK cells ->
              mem LF (rowLine cells) = false /\ pipeLine (rowLine cells) = true /\
              TrimSpace (rowLine cells) = rowLine cells).
    { intros cells Hc. split; [now apply rowLine_one_line |].
      unfold pipeLine. rewrite rowLine_trimmed. split; reflexivity. }
    constructor; [now apply Hrow, padRow_OK |].
    constructor; [now apply Hrow |].
    apply Forall_map. eapply Forall_impl; [exact Hrest |].
    intros r Hr. now apply Hrow, padRow_OK. }
  rewrite writeTable_lines, <- Ecols, Split_lines.
  2:{ eapply Forall_impl; [exact Hlines |]. now intros l (Hl & _). }
  change (Split (str LF) LF) with ["" ; ""].
  rewrite (parseMarkdownTable_rows _ 0 (rowLine (padRow first cols))
             (rowLine (repeat "---" cols))
             (map (fun r => rowLine (padRow r cols)) rest)).
  - rewrite separator_recognised by exact Hcols.
    rewrite splitTableRow_rowLine; [| now apply padRow_not_nil | now apply padRow_OK].
    rewrite length_map, map_map. do 4 f_equal.
    apply map_ext_Forall. eapply Forall_impl; [exact Hrest |]. intros r Hr. cbv beta.
    rewrite splitTableRow_rowLine; [reflexivity | now apply padRow_not_nil | now apply padRow_OK].
  - rewrite skipn_O. rewrite takeWhile_stop; [| | reflexivity].
    + rewrite <- (map_id (_ :: _ :: _)) at 2. apply map_ext_Forall.
      eapply Forall_impl; [exact Hlines |]. now intros l (_ & _ & Hl).
    + eapply Forall_impl; [exact Hlines |]. now intros l (_ & Hl & _).
Qed.

Lemma table_layout_round_trip_witness :
  parseMarkdownTable (Split (writeTable raggedRows) LF) 0
  = (Some (mkNode "table"
       [ buildTableRow ["Name"; "Role"; "Since"] true;
         buildTableRow ["Ada"; "dev"; ""] false;
         buildTableRow ["Bob"; ""; ""] false ]
       "" tableAttrs []),
     4).
Proof.
  apply (table_layout_round_trip ["Name"; "Role"; "Since"] [["Ada"; "dev"]; ["Bob"]]).
  - cbn. lia.
  - repeat constructor.
Defined.
(** ** Code blocks *)

Lemma Join_Split s : Join (Split s LF) (str LF) = s.
Proof.
  unfold Join. induction s as [|c s IH]; [reflexivity |].
  cbn [Split]. pose proof (Split_not_nil s LF) as Hne.
  destruct (Ascii.eqb_spec c LF) as [-> | Hc].
  - destruct (Split s LF) as [|h t]; [contradiction |].
    change (String.concat (str LF) ("" :: h :: t))
      with ("" +:+ str LF +:+ String.concat (str LF) (h :: t)).
    now rewrite IH.
  - destruct (Split s LF) as [|h t]; [contradiction |].
    destruct t as [|h' t].
    + cbn [String.concat] in *. now rewrite IH.
    + change (String.concat (str LF) (String c h :: h' :: t))
        with (String c (h +:+ str LF +:+ String.concat (str LF) (h' :: t))).
      f_equal. exact IH.
Qed.

Lemma fence_line_trimmed lang :
  TrimSpace lang = lang -> TrimSpace ("```" +:+ lang) = "```" +:+ lang.
Proof.
  intros H. destruct (trimmed_left lang H) as [_ Hr].
  destruct (String.eqb_spec lang "") as [-> | Hne]; [reflexivity |].
  unfold TrimSpace, trimLeftSpace.
  rewrite (trimBy_id _ _ _ _ (proj1 (plainByte_width ("```" +:+ lang) eq_refl))).
  unfold trimRightSpace, trimLeftSpaceRev. rewrite rev_app.
  change (rev "```") with "```". rewrite trimBy_id; [now rewrite rev_app, rev_involutive |].
  destruct (plainByte_no_space "`" eq_refl) as (_ & H2 & H3).
  apply width_snoc.
  - intros a. apply H2.
  - intros a b. split; apply H3.
  - intros E. apply Hne. apply rev_inj. now rewrite E.
  - unfold trimRightSpace, trimLeftSpaceRev in Hr. apply (f_equal rev) in Hr.
    rewrite rev_involutive in Hr. rewrite <- Hr at 1. apply trimBy_width.
Qed.

Lemma turn_fence `{J : Json} fuel lines i content line :
  i < length lines -> lineAt lines i = line ->
  (TrimSpace line =s "") = false ->
  HasPrefix (TrimSpace line) preserveStart = false ->
  isRule line = false ->
  fst (parseHeading line) = 0 ->
  HasPrefix (TrimSpace line) "```" = true ->
  markdownToADF_loop (S fuel) lines i content
  = let lang := TrimSpace (TrimPrefix (TrimSpace line) "```") in
    let codeLines :=
      takeWhile (fun l => negb (TrimSpace l =s "```")) (skipn (i + 1) lines) in
    let j := i + 1 + length codeLines in
    markdownToADF_loop fuel lines (if j <? length lines then j + 1 else j)
      (content ++ [codeBlock lang (Join codeLines (str LF))]).
Proof.
  intros Hi Hl Hb Hm Hr Hh Hf. cbn [markdownToADF_loop].
  destruct (Nat.leb_spec (length lines) i); [lia |].
  rewrite Hl, Hb, Hm, Hr, Hh, Hf. reflexivity.
Qed.

Lemma Split_append sep b : forall a,
  Split (a +:+ String sep b) sep = Split a sep ++ Split b sep.
Proof.
  induction a as [|c a IH]; cbn [String.append Split].
  - now rewrite Ascii.eqb_refl.
  - rewrite IH. destruct (Ascii.eqb c sep); [reflexivity |].
    pose proof (Split_not_nil a sep). destruct (Split a sep); [contradiction | reflexivity].
Qed.

(** X10: a code block comes back as it was.  For a language that is
    trimmed and holds no line feed (or is empty), and a code text none of
    whose lines is a closing fence, the rendering of the document that
    holds the code block is parsed, in four turns, to that very
    document: the text between the fences is kept byte for byte. *)
Theorem codeBlock_round_trip (J : Json) (lang code : string) :
  TrimSpace lang = lang -> mem LF lang = false -> fenceFree code = true ->
  exists md,
    renderADF (docNode [codeBlock lang code]) = Some md /\
    forall fuel, markdownToADF (4 + fuel) md = Some (docNode [codeBlock lang code]).
Proof.
  intros Ht Hlf Hfree.
  exists (("```" +:+ lang) +:+ String LF (code +:+ String LF ("```" +:+ String LF (str LF)))).
  assert (Hlang : attrString (if lang =s "" then ∅ else {["language" := AString lang]})
                    "language" = lang).
  { unfold attrString. destruct (String.eqb_spec lang "") as [-> |]; [reflexivity |].
    now rewrite lookup_singleton_eq. }
  split.
  { unfold renderADF. cbn [docNode renderNode Type_ Content String.eqb Ascii.eqb Bool.eqb
      map concatAll codeBlock Attrs Text textNode String.concat].
    rewrite Hlang, sapp_nil_r, !sapp_assoc. reflexivity. }
  intros fuel. unfold markdownToADF.
  rewrite Split_app by (now rewrite mem_app, Hlf).
  rewrite Split_append.
  change (Split ("```" +:+ String LF (str LF)) LF) with ["```"; ""; ""].
  set (line := "```" +:+ lang). set (body := Split code LF).
  assert (Htrim : TrimSpace line = line) by now apply fence_line_trimmed.
  assert (Hbody : takeWhile (fun l => negb (TrimSpace l =s "```")) (body ++ ["```"; ""; ""])
                  = body).
  { apply takeWhile_stop; [| reflexivity].
    apply List.Forall_forall. intros l Hl. unfold fenceFree in Hfree.
    rewrite forallb_forall in Hfree. now apply Hfree. }
  change (4 + fuel) with (S (S (S (S fuel)))).
  rewrite (turn_fence _ _ 0 [] line).
  2: cbn [length]; lia.
  2: reflexivity.
  2: now rewrite Htrim.
  2: now rewrite Htrim.
  2: unfold isRule; now rewrite Htrim.
  2: reflexivity.
  2: rewrite Htrim; apply (prefix_app "```" lang).
  cbv zeta. rewrite Htrim.
  replace (TrimPrefix line "```") with lang by (symmetry; apply (TrimPrefix_app "```" lang)).
  rewrite Ht.
  change (skipn (0 + 1) (line :: body ++ ["```"; ""; ""])) with (body ++ ["```"; ""; ""]).
  rewrite Hbody.
  replace (Join body (str LF)) with code by (symmetry; apply Join_Split).
  cbn [length]. rewrite length_app. cbn [length].
  destruct (Nat.ltb_spec (0 + 1 + length body) (S (length body + 3))); [| lia].
  replace (line :: body ++ ["```"; ""; ""]) with ((line :: body ++ ["```"]) ++ "" :: [""])
    by (cbn [app]; now rewrite <- app_assoc).
  replace (0 + 1 + length body + 1) with (length (line :: body ++ ["```"]))
    by (cbn [length]; rewrite length_app; cbn [length]; lia).
  rewrite turn_blank;
    [| rewrite !length_app; cbn [length]; lia | now rewrite lineAt_middle].
  replace ((line :: body ++ ["```"]) ++ "" :: [""])
    with ((line :: body ++ ["```"; ""]) ++ "" :: [])
    by (cbn [app]; now rewrite <- !app_assoc).
  replace (length (line :: body ++ ["```"]) + 1) with (length (line :: body ++ ["```"; ""]))
    by (cbn [length]; rewrite !length_app; cbn [length]; lia).
  rewrite turn_blank;
    [| rewrite !length_app; cbn [length]; lia | now rewrite lineAt_middle].
  rewrite turn_end; [reflexivity | rewrite !length_app; cbn [length]; lia].
Qed.

Lemma codeBlock_round_trip_witness :
  exists md,
    renderADF (J := tagOnlyJson) (docNode [codeBlock "go" goCode]) = Some md /\
    forall fuel,
      markdownToADF (J := tagOnlyJson) (4 + fuel) md = Some (docNode [codeBlock "go" goCode]).
Proof.
  apply (codeBlock_round_trip tagOnlyJson "go" goCode); reflexivity.
Defined.
(** ** A parsed heading, rendered *)

Lemma render_reparsedInline `{J : Json} n p :
  MarkedInline n -> renderNode (reparsedInline n) p = Some (inlineText n).
Proof.
  intros [t Ht | t ty Ht Hty | t u attrs Ht Hu Ha]; unfold reparsedInline, inlineText;
    cbn [Text Marks textNode map]; rewrite render_text_node.
  - reflexivity.
  - cbn in Hty. destruct Hty as [<- | [<- | [<- | [<- | []]]]]; reflexivity.
  - unfold reparsedMark. cbn [MarkType MarkAttrs String.eqb Ascii.eqb Bool.eqb applyMarks
      fold_left applyMark].
    unfold attrString at 1. now rewrite lookup_singleton_eq.
Qed.

(** X11: the level of a heading does not survive parsing and rendering
    again.  The parser stores the level as an [int], the renderer reads
    it only as a [float64]: the tree parsed from a heading line of any
    level from 1 to 6 is rendered as a heading of level 2. *)
Theorem parsed_heading_rendered_at_level_two (J : Json) (n : ADFNode) (k : nat) :
  MarkedInline n -> 1 <= k <= 6 ->
  forall fuel, exists d,
    markdownToADF (4 + fuel) (Repeat "#" k +:+ " " +:+ inlineText n +:+ str LF +:+ str LF)
      = Some d /\
    renderADF d = Some ("## " +:+ inlineText n +:+ str LF +:+ str LF).
Proof.
  intros Hn Hk fuel.
  destruct (inline_facts n Hn) as (Ht & Hlf & Hlast & _).
  destruct (heading_facts (inlineText n) k Ht Hlf Hlast Hk) as (_ & _ & _ & _ & _ & Hline).
  exists (docNode [mkNode "heading" [reparsedInline n] "" {[ "level" := AInt (Z.of_nat k) ]} []]).
  split.
  - unfold markdownToADF.
    replace (Repeat "#" k +:+ " " +:+ inlineText n +:+ str LF +:+ str LF)
      with ((Repeat "#" k +:+ " " +:+ inlineText n) +:+ String LF (str LF))
      by (now rewrite !sapp_assoc).
    rewrite Split_app by exact Hline.
    change (Split (str LF) LF) with ["" ; ""].
    change (4 + fuel) with (S (S (S (S fuel)))).
    rewrite (turn_inline_heading _ [] ["" ] [] n k Hn Hk). cbn [length app].
    rewrite turn_blank; [| cbn; lia | reflexivity].
    rewrite turn_blank; [| cbn; lia | reflexivity].
    rewrite turn_end; [reflexivity | cbn; lia].
  - unfold renderADF.
    cbn [docNode renderNode Type_ Content Attrs String.eqb Ascii.eqb Bool.eqb map concatAll].
    unfold headingLevel. rewrite lookup_singleton_eq.
    cbn [Z.ltb Z.compare map concatAll]. fold (renderNode (reparsedInline n)).
    rewrite (render_reparsedInline n "" Hn). cbn [concatAll Z.to_nat Pos.to_nat Pos.iter_op].
    cbn [Repeat Nat.add]. rewrite ?sapp_nil_r, ?sapp_assoc. reflexivity.
Qed.

Lemma parsed_heading_rendered_at_level_two_witness :
  1 <= 1 <= 6 /\
  forall fuel, exists d,
    markdownToADF (J := tagOnlyJson) (4 + fuel) (lines_of ["# **Title**"; ""; ""]) = Some d /\
    renderADF (J := tagOnlyJson) d = Some (lines_of ["## **Title**"; ""; ""]).
Proof.
  split; [lia |].
  apply (parsed_heading_rendered_at_level_two tagOnlyJson (textNode "Title" [mark "strong"]) 1);
    [apply InlineMarked; [reflexivity | cbn; tauto] | lia].
Defined.
(** ** The list parser *)

Lemma parseList_shape : forall fuel lines i ordered items items' newI,
  parseList_loop fuel lines i ordered items = Some (items', newI) ->
  i <= length lines ->
  i <= newI <= length lines /\
  exists new, items' = items ++ new /\
    Forall (fun it => Type_ it = "listItem") new /\ length new <= newI - i.
Proof.
  induction fuel as [|fuel IH]; intros lines i ordered items items' newI H Hi; [discriminate |].
  cbn [parseList_loop] in H.
  destruct (Nat.leb_spec (length lines) i) as [Hle | Hlt].
  { injection H as <- <-. split; [lia |]. exists []. rewrite app_nil_r. repeat split; [constructor | cbn; lia]. }
  destruct (FindStringSubmatchIndex (if ordered then ordRe else listRe) (lineAt lines i))
    as [[[a e] cs]|].
  2:{ injection H as <- <-. split; [lia |]. exists []. rewrite app_nil_r.
      repeat split; [constructor | cbn; lia]. }
  assert (Hsub : forall p, i + 1 + length (takeWhile p (skipn (i + 1) lines)) <= length lines).
  { intros p. pose proof (length_takeWhile p (skipn (i + 1) lines)) as Hl.
    rewrite length_skipn in Hl. lia. }
  assert (Hstep : forall j item,
    i + 1 <= j -> j <= length lines ->
    parseList_loop fuel lines j ordered (items ++ [item]) = Some (items', newI) ->
    Type_ item = "listItem" ->
    i <= newI <= length lines /\
    exists new, items' = items ++ new /\
      Forall (fun it => Type_ it = "listItem") new /\ length new <= newI - i).
  { intros j item Hj Hjl Hrec Hty.
    destruct (IH _ _ _ _ _ _ Hrec Hjl) as (Hn & new & -> & Hall & Hlen).
    split; [lia |]. exists (item :: new). rewrite <- app_assoc. split; [reflexivity |].
    split; [now constructor | cbn [length]; lia]. }
  destruct ((i + 1 <? length lines) && MatchString indentedBulletRe (lineAt lines (i + 1))).
  - destruct (parseList_loop fuel _ 0 false []) as [[subItems k]|]; [| discriminate].
    eapply Hstep; [| apply Hsub | exact H | reflexivity]. lia.
  - destruct ((i + 1 <? length lines) && MatchString indentedOrdRe (lineAt lines (i + 1))).
    + destruct (parseList_loop fuel _ 0 true []) as [[subItems k]|]; [| discriminate].
      eapply Hstep; [| apply Hsub | exact H | reflexivity]. lia.
    + eapply Hstep; [| | exact H | reflexivity]; lia.
Qed.

(** X12: [parseList] returns on every input.  One turn more than there
    are lines left is enough, whatever the nesting; the index that it
    returns is not before the index it was given and not past the end of
    the lines, every node that it returns is a list item, and each item
    has taken at least one line. *)
Theorem parseList_total (lines : list string) (i : nat) (ordered : bool) (fuel : nat) :
  exists items newI,
    parseList (length lines - i + 1 + fuel) lines i ordered = Some (items, newI) /\
    i <= newI /\ (i <= length lines -> newI <= length lines) /\
    Forall (fun it => Type_ it = "listItem") items /\
    length items <= newI - i.
Proof.
  unfold parseList.
  destruct (parseList_returns (length lines - i + 1 + fuel) lines i ordered [])
    as (items & newI & H & Hle & _); [lia |].
  exists items, newI. split; [exact H |]. split; [exact Hle |].
  destruct (Nat.le_gt_cases i (length lines)) as [Hi | Hi].
  - destruct (parseList_shape _ _ _ _ _ _ _ H Hi) as (Hn & new & -> & Hall & Hlen).
    cbn [app]. split; [intros _; lia |]. split; assumption.
  - replace (length lines - i + 1 + fuel) with (S fuel) in H by lia.
    cbn [parseList_loop] in H. destruct (Nat.leb_spec (length lines) i); [| lia].
    injection H as <- <-. split; [lia |]. split; [constructor | cbn; lia].
Qed.
(** ** Flat lists *)

Lemma uint_digits u :
  allBytes (fun c => in_class c digit) (NilEmpty.string_of_uint u) = true.
Proof. induction u; cbn [NilEmpty.string_of_uint allBytes]; [reflexivity | exact IHu ..]. Qed.

Lemma revapp_nil d : forall acc,
  Decimal.revapp d acc = Decimal.Nil -> d = Decimal.Nil /\ acc = Decimal.Nil.
Proof.
  induction d; intros acc H; cbn [Decimal.revapp] in H; [now split | ..];
    apply IHd in H as [_ H]; discriminate H.
Qed.

Lemma succ_not_nil d : Decimal.Little.succ d <> Decimal.Nil.
Proof. destruct d; discriminate. Qed.

Lemma to_little_uint_not_nil n : forall acc,
  acc <> Decimal.Nil -> Nat.to_little_uint n acc <> Decimal.Nil.
Proof.
  induction n as [|n IH]; intros acc H; cbn [Nat.to_little_uint]; [exact H |].
  apply IH, succ_not_nil.
Qed.

Lemma itoa_digits k :
  allBytes (fun c => in_class c digit) (itoa k) = true /\ 1 <= len (itoa k).
Proof.
  unfold itoa. split; [apply uint_digits |].
  destruct (Nat.to_uint k) as [| | | | | | | | | |] eqn:E; cbn; try lia.
  unfold Nat.to_uint, Decimal.rev in E. apply revapp_nil in E as [E _].
  now apply to_little_uint_not_nil in E.
Qed.

Lemma ordered_prefix_match ds w :
  allBytes (fun c => in_class c digit) ds = true -> 1 <= len ds ->
  FindStringSubmatchIndex ordRe (ds +:+ ". " +:+ w) = Some (0, len ds + 2, []).
Proof.
  intros Hall Hlen. destruct ds as [|d ds]; [cbn in Hlen; lia |].
  cbn [String.append]. apply find_at_start.
  unfold match_at, ordRe, plus. cbn [run].
  apply (rep_greedy digit _ [] _ (". " +:+ w) eq_refl (String d ds) 1 0 Hall Hlen).
  cbn [String.append]. change (Ascii.eqb "." ".") with true. cbn iota.
  change (in_class " " space) with true. cbn iota. do 3 f_equal. lia.
Qed.

Lemma item_prefix_cases ordered i :
  itemPrefix ordered i = "- " \/
  exists d ds, itemPrefix ordered i = String d ds +:+ ". " /\ in_class d digit = true /\
    allBytes (fun c => in_class c digit) (String d ds) = true.
Proof.
  destruct ordered; [right | now left]. unfold itemPrefix.
  destruct (itoa_digits (i + 1)) as [Hall Hlen].
  destruct (itoa (i + 1)) as [|d ds]; [cbn in Hlen; lia |].
  exists d, ds. split; [reflexivity |]. split; [| exact Hall].
  cbn [allBytes] in Hall. now apply andb_prop in Hall as [Hd _].
Qed.

Ltac digit_cases Hd :=
  unfold in_class, digit in Hd; cbn [mem] in Hd;
  repeat (apply orb_prop in Hd as [Hd | Hd]; [apply Ascii.eqb_eq in Hd as -> |]);
  [.. | discriminate Hd].

Lemma not_indented c r :
  in_class c space = false ->
  MatchString indentedBulletRe (String c r) = false /\
  MatchString indentedOrdRe (String c r) = false.
Proof.
  intros Hc.
  assert (Htab : Ascii.eqb c TAB = false).
  { destruct (Ascii.eqb_spec c TAB) as [-> |]; [discriminate | reflexivity]. }
  unfold MatchString, FindStringSubmatchIndex, indentedBulletRe, indentedOrdRe, indent.
  split; cbn [find_from]; unfold match_at at 1; cbn [run rep]; rewrite Hc, Htab;
    now rewrite Bol_later.
Qed.

(** The tests of the block dispatch and of [parseList] on the line of an
    item. *)
Lemma item_line_tests `{J : Json} ordered i n :
  MarkedInline n ->
  let line := itemPrefix ordered i +:+ inlineText n in
  TrimSpace line = line /\ mem LF line = false /\
  (line =s "") = false /\ HasPrefix line preserveStart = false /\
  isRule line = false /\ fst (parseHeading line) = 0 /\
  HasPrefix line "```" = false /\
  HasPrefix line "> " || (line =s ">") = false /\
  HasPrefix line "- " || HasPrefix line "* " = negb ordered /\
  MatchString ordRe line = ordered /\
  FindStringSubmatchIndex (if ordered then ordRe else listRe) line
    = Some (0, len (itemPrefix ordered i), []) /\
  MatchString indentedBulletRe line = false /\
  MatchString indentedOrdRe line = false.
Proof.
  intros Hn line.
  destruct (inline_facts n Hn) as (Ht & Hlf & (d' & r' & Hrev & Hd') & _).
  assert (Htrim : forall p, firstPlain p = true -> p <> "" ->
            TrimSpace (p +:+ inlineText n) = p +:+ inlineText n).
  { intros p Hp Hne. apply TrimSpace_plain.
    - destruct p; [contradiction | exact Hp].
    - now rewrite rev_app, Hrev. }
  unfold isRule.
  destruct (item_prefix_cases ordered i) as [E | (d & ds & E & Hd & Hall)].
  - assert (ordered = false) as ->.
    { destruct ordered; [| reflexivity]. unfold itemPrefix in E.
      destruct (itoa_digits (i + 1)) as [Hall _].
      destruct (itoa (i + 1)) as [|d ds]; [discriminate |].
      injection E as -> _. discriminate. }
    subst line. rewrite E, Htrim by (reflexivity || discriminate).
    cbn [String.append]. repeat split; try reflexivity.
    + cbn [mem]. now rewrite Hlf.
    + assert (Hp : HasPrefix (String "-" (String " " (inlineText n))) "- " = true)
        by apply (prefix_app "- ").
      now rewrite Hp.
    + now apply not_ordered.
    + now apply not_indented.
    + now apply not_indented.
  - assert (ordered = true) as ->.
    { destruct ordered; [reflexivity |]. unfold itemPrefix in E. injection E as <- _.
      discriminate. }
    assert (Hmatch := ordered_prefix_match (String d ds) (inlineText n) Hall ltac:(cbn; lia)).
    subst line. rewrite E, Htrim.
    2:{ cbn. now destruct (digit_plain d Hd). }
    2:{ discriminate. }
    rewrite ?sapp_assoc. rewrite ?sapp_assoc in Hmatch.
    assert (Hlen : len (String d ds +:+ ". ") = len (String d ds) + 2).
    { rewrite len_app. reflexivity. }
    rewrite Hlen. unfold MatchString at 1. rewrite Hmatch.
    assert (Hone : mem LF (String d ds +:+ ". " +:+ inlineText n) = false).
    { assert (Hds : mem LF (String d ds) = false).
      { clear -Hall. induction (String d ds) as [|c s IH]; [reflexivity |].
        cbn [allBytes] in Hall. apply andb_prop in Hall as [Hc Hs]. cbn [mem].
        rewrite (IH Hs), orb_false_r. digit_cases Hc; reflexivity. }
      rewrite !mem_app, Hds, Hlf. reflexivity. }
    cbn [String.append] in *.
    assert (Hsp : in_class d space = false) by (digit_cases Hd; reflexivity).
    repeat split; try reflexivity; try exact Hone; try exact Hmatch;
      try (now apply not_indented);
      digit_cases Hd; reflexivity.
Qed.

Lemma render_flatItem `{J : Json} n p :
  MarkedInline n -> renderNode (flatItem n) p = Some (p +:+ inlineText n +:+ str LF).
Proof.
  intros Hn. unfold flatItem.
  cbn [renderNode node Type_ Content String.eqb Ascii.eqb Bool.eqb mapi map concatAll
       Nat.eqb andb].
  fold (renderNode n). rewrite (render_inline n "" Hn). cbn [concatAll].
  now rewrite !sapp_nil_r.
Qed.

Lemma mapi_cons {A B} (f : nat -> A -> B) i x l :
  mapi f i (x :: l) = f i x :: mapi f (S i) l.
Proof. reflexivity. Qed.

Lemma render_flatItems `{J : Json} ordered ns : forall i0,
  Forall MarkedInline ns ->
  concatAll (mapi (fun i c => renderNode c (itemPrefix ordered i)) i0 (map flatItem ns))
  = Some (fold_right (fun l acc => l +:+ str LF +:+ acc) "" (itemLines ordered i0 ns)).
Proof.
  induction ns as [|n ns IH]; intros i0 Hall; [reflexivity |].
  apply Forall_cons_1 in Hall as [Hn Hall].
  unfold itemLines. cbn [map]. rewrite !mapi_cons. cbn [concatAll fold_right].
  rewrite (render_flatItem n _ Hn). fold (itemLines ordered (S i0) ns).
  rewrite (IH (S i0) Hall). now rewrite !sapp_assoc.
Qed.

Lemma mapi_const {A B} (f : A -> B) l : forall i, mapi (fun _ x => f x) i l = map f l.
Proof.
  induction l as [|x l IH]; intros i; [reflexivity |].
  rewrite mapi_cons. cbn [map]. f_equal. apply IH.
Qed.

Lemma render_flatList `{J : Json} ordered ns :
  Forall MarkedInline ns ->
  renderADF (node "doc" [flatList ordered ns])
  = Some (fold_right (fun l acc => l +:+ str LF +:+ acc) "" (itemLines ordered 0 ns)).
Proof.
  intros Hall. unfold renderADF, flatList.
  cbn [renderNode node Type_ Content String.eqb Ascii.eqb Bool.eqb map concatAll].
  pose proof (render_flatItems ordered ns 0 Hall) as H.
  destruct ordered; cbn [listTag String.eqb Ascii.eqb Bool.eqb].
  - unfold itemPrefix in H at 1. rewrite H. now rewrite sapp_nil_r.
  - unfold itemPrefix in H at 1. rewrite (mapi_const (fun c => renderNode c "- ")) in H.
    rewrite H. now rewrite sapp_nil_r.
Qed.

Lemma parseList_item fuel lines i (ordered : bool) items line e :
  i < length lines -> lineAt lines i = line ->
  FindStringSubmatchIndex (if ordered then ordRe else listRe) line = Some (0, e, []) ->
  MatchString indentedBulletRe (lineAt lines (i + 1)) = false ->
  MatchString indentedOrdRe (lineAt lines (i + 1)) = false ->
  parseList_loop (S fuel) lines i ordered items
  = parseList_loop fuel lines (i + 1) ordered
      (items ++ [node "listItem" [node "paragraph" (parseInline (drop e line))]]).
Proof.
  intros Hi Hl Hfind Hb Ho. cbn [parseList_loop].
  destruct (Nat.leb_spec (length lines) i); [lia |].
  rewrite Hl, Hfind, Hb, Ho, !andb_false_r. reflexivity.
Qed.

Lemma parseList_stop fuel lines i (ordered : bool) items :
  lineAt lines i = "" -> parseList_loop (S fuel) lines i ordered items = Some (items, i).
Proof.
  intros Hl. cbn [parseList_loop]. destruct (length lines <=? i); [reflexivity |].
  rewrite Hl. now destruct ordered.
Qed.

Lemma empty_not_indented :
  MatchString indentedBulletRe "" = false /\ MatchString indentedOrdRe "" = false.
Proof. split; reflexivity. Qed.

Lemma parseList_flat `{J : Json} ordered post ns : forall i0 pre items fuel,
  Forall MarkedInline ns ->
  parseList_loop (length ns + 1 + fuel)
    (pre ++ itemLines ordered i0 ns ++ "" :: post) (length pre) ordered items
  = Some (items ++ map (fun n => flatItem (reparsedInline n)) ns, length pre + length ns).
Proof.
  induction ns as [|n ns IH]; intros i0 pre items fuel Hall.
  - cbn [length itemLines mapi app map Nat.add]. rewrite parseList_stop.
    + now rewrite app_nil_r, Nat.add_0_r.
    + apply lineAt_middle.
  - apply Forall_cons_1 in Hall as [Hn Hall].
    unfold itemLines. rewrite mapi_cons. fold (itemLines ordered (S i0) ns).
    cbn [length app Nat.add].
    destruct (item_line_tests ordered i0 n Hn)
      as (_ & _ & _ & _ & _ & _ & _ & _ & _ & _ & Hfind & _ & _).
    rewrite (parseList_item _ _ (length pre) ordered items
               (itemPrefix ordered i0 +:+ inlineText n) (len (itemPrefix ordered i0))).
    + rewrite drop_app, (inline_parse n Hn).
      replace (pre ++ (itemPrefix ordered i0 +:+ inlineText n)
                 :: itemLines ordered (S i0) ns ++ "" :: post)
        with ((pre ++ [itemPrefix ordered i0 +:+ inlineText n])
                ++ itemLines ordered (S i0) ns ++ "" :: post)
        by (now rewrite <- app_assoc).
      replace (length pre + 1) with (length (pre ++ [itemPrefix ordered i0 +:+ inlineText n]))
        by (rewrite length_app; reflexivity).
      rewrite (IH (S i0) _ _ fuel Hall). rewrite length_app, <- app_assoc. cbn [length map app].
      do 2 f_equal. lia.
    + rewrite length_app. cbn [length]. lia.
    + apply lineAt_middle.
    + exact Hfind.
    + replace (pre ++ (itemPrefix ordered i0 +:+ inlineText n)
                 :: itemLines ordered (S i0) ns ++ "" :: post)
        with ((pre ++ [itemPrefix ordered i0 +:+ inlineText n])
                ++ itemLines ordered (S i0) ns ++ "" :: post)
        by (now rewrite <- app_assoc).
      replace (length pre + 1) with (length (pre ++ [itemPrefix ordered i0 +:+ inlineText n]))
        by (rewrite length_app; reflexivity).
      destruct ns as [|n' ns'].
      * cbn [itemLines mapi app]. rewrite lineAt_middle. apply empty_not_indented.
      * unfold itemLines. rewrite mapi_cons. cbn [app]. rewrite lineAt_middle.
        apply Forall_cons_1 in Hall as [Hn' _].
        now destruct (item_line_tests ordered (S i0) n' Hn')
          as (_ & _ & _ & _ & _ & _ & _ & _ & _ & _ & _ & Hb & _).
    + replace (pre ++ (itemPrefix ordered i0 +:+ inlineText n)
                 :: itemLines ordered (S i0) ns ++ "" :: post)
        with ((pre ++ [itemPrefix ordered i0 +:+ inlineText n])
                ++ itemLines ordered (S i0) ns ++ "" :: post)
        by (now rewrite <- app_assoc).
      replace (length pre + 1) with (length (pre ++ [itemPrefix ordered i0 +:+ inlineText n]))
        by (rewrite length_app; reflexivity).
      destruct ns as [|n' ns'].
      * cbn [itemLines mapi app]. rewrite lineAt_middle. apply empty_not_indented.
      * unfold itemLines. rewrite mapi_cons. cbn [app]. rewrite lineAt_middle.
        apply Forall_cons_1 in Hall as [Hn' _].
        now destruct (item_line_tests ordered (S i0) n' Hn')
          as (_ & _ & _ & _ & _ & _ & _ & _ & _ & _ & _ & _ & Ho).
Qed.

Lemma turn_list `{J : Json} fuel lines i content line (ordered : bool) :
  i < length lines -> lineAt lines i = line ->
  (TrimSpace line =s "") = false ->
  HasPrefix (TrimSpace line) preserveStart = false ->
  isRule line = false ->
  fst (parseHeading line) = 0 ->
  HasPrefix (TrimSpace line) "```" = false ->
  HasPrefix line "> " || (line =s ">") = false ->
  HasPrefix line "- " || HasPrefix line "* " = negb ordered ->
  MatchString ordRe line = ordered ->
  markdownToADF_loop (S fuel) lines i content
  = match parseList fuel lines i ordered with
    | Some (items, newI) =>
        markdownToADF_loop fuel lines newI (content ++ [node (listTag ordered) items])
    | None => None
    end.
Proof.
  intros Hi Hl Hb Hm Hr Hh Hf Hq Hu Ho. cbn [markdownToADF_loop].
  destruct (Nat.leb_spec (length lines) i); [lia |].
  rewrite Hl, Hb, Hm, Hr, Hh, Hf, Hq, Hu, Ho. now destruct ordered.
Qed.

Lemma Equiv_flatItems ns :
  Forall MarkedInline ns ->
  Forall2 Equiv (map flatItem ns) (map (fun n => flatItem (reparsedInline n)) ns).
Proof.
  induction 1 as [|n ns Hn _ IH]; constructor; [| exact IH].
  constructor; try reflexivity; try discriminate; [constructor |].
  constructor; [| constructor].
  constructor; try reflexivity; try discriminate; [constructor |].
  constructor; [now apply Equiv_inline | constructor].
Qed.

Lemma length_itemLines ordered ns : forall i0, length (itemLines ordered i0 ns) = length ns.
Proof.
  unfold itemLines. induction ns as [|n ns IH]; intros i0; [reflexivity |].
  rewrite mapi_cons. cbn [length]. now rewrite IH.
Qed.

(** X13: flat lists survive the round trip.  A document that holds one
    bullet list or one ordered list, each item being one paragraph of one
    inline node (plain text, unmarked, marked strong, em, code or strike,
    or linked), is rendered to lines that the parser reads back, with a
    turn per item and three more, as a structurally equivalent tree; the
    numbers that the renderer writes are the ones the parser expects. *)
Theorem flat_list_round_trip (J : Json) (ordered : bool) (ns : list ADFNode) :
  ns <> [] -> Forall MarkedInline ns ->
  exists md,
    renderADF (node "doc" [flatList ordered ns]) = Some md /\
    forall fuel, exists d,
      markdownToADF (length ns + 3 + fuel) md = Some d /\
      Equiv (node "doc" [flatList ordered ns]) d.
Proof.
  intros Hne Hall. eexists. split; [now apply render_flatList |].
  intros fuel.
  exists (docNode [node (listTag ordered) (map (fun n => flatItem (reparsedInline n)) ns)]).
  split.
  - unfold markdownToADF. rewrite Split_lines.
    2:{ clear Hne. generalize 0 as i0. induction Hall as [|n ns Hn _ IH]; intros i0;
          [constructor |].
        unfold itemLines. rewrite mapi_cons. constructor; [| apply IH].
        apply (item_line_tests ordered i0 n Hn). }
    change (Split "" LF) with [""].
    destruct ns as [|n ns]; [contradiction |].
    pose proof Hall as Hall'. apply Forall_cons_1 in Hall' as [Hn _].
    destruct (item_line_tests ordered 0 n Hn)
      as (Ht & _ & Hb & Hm & Hr & Hh & Hf & Hq & Hu & Ho & _).
    replace (length (n :: ns) + 3 + fuel) with (S (length (n :: ns) + 1 + (1 + fuel))) by lia.
    rewrite (turn_list _ _ 0 [] (itemPrefix ordered 0 +:+ inlineText n) ordered);
      try assumption; try (now rewrite Ht).
    2:{ rewrite length_app. cbn [length]. unfold itemLines. rewrite mapi_cons. cbn [length]. lia. }
    2:{ unfold itemLines. now rewrite mapi_cons. }
    unfold parseList.
    pose proof (parseList_flat ordered [] (n :: ns) 0 [] [] (1 + fuel) Hall) as Hflat.
    cbn [app] in Hflat. change (length (@nil string)) with 0 in Hflat. rewrite Hflat.
    clear Hflat. cbn [app Nat.add].
    replace (length (n :: ns) + 1 + S fuel) with (S (S (length (n :: ns) + fuel))) by lia.
    rewrite <- (length_itemLines ordered (n :: ns) 0) at 2.
    rewrite turn_blank; [| rewrite length_app; cbn [length]; lia | now rewrite lineAt_middle].
    rewrite turn_end; [reflexivity | rewrite length_app; cbn [length]; lia].
  - constructor; try reflexivity; try discriminate; [constructor |].
    constructor; [| constructor].
    destruct ordered;
      (constructor; try reflexivity; try discriminate;
       [constructor | now apply Equiv_flatItems]).
Qed.

Lemma flat_list_round_trip_witness :
  exists md,
    renderADF (J := tagOnlyJson) (node "doc" [flatList true shopping]) = Some md /\
    forall fuel, exists d,
      markdownToADF (J := tagOnlyJson) (length shopping + 3 + fuel) md = Some d /\
      Equiv (node "doc" [flatList true shopping]) d.
Proof.
  apply (flat_list_round_trip tagOnlyJson true shopping); [discriminate |].
  repeat constructor; cbn; tauto.
Defined.
(** ** Documents of preserved nodes *)

Lemma parsePreservedMarker_three `{J : Json} pre post n js :
  parsePreservedMarker (pre ++ openLine n :: dataLine js :: preserveEnd :: post) (length pre)
  = match json_Unmarshal js with
    | Some n' => (Some n', length pre + 3)
    | None => (None, length pre + 1)
    end.
Proof.
  unfold parsePreservedMarker.
  destruct (Nat.leb_spec (length (pre ++ openLine n :: dataLine js :: preserveEnd :: post))
              (length pre + 2)) as [Hle | _].
  { rewrite !length_app in Hle. simpl in Hle. lia. }
  rewrite !lineAt_app.
  change (lineAt (openLine n :: dataLine js :: preserveEnd :: post) 1) with (dataLine js).
  change (lineAt (openLine n :: dataLine js :: preserveEnd :: post) 2) with preserveEnd.
  rewrite TrimSpace_dataLine.
  change (TrimSpace preserveEnd) with preserveEnd.
  replace (HasPrefix (dataLine js) preserveData) with true
    by (symmetry; apply prefix_app).
  rewrite String.eqb_refl. cbn [negb orb].
  rewrite dataLine_payload, DecodeString_EncodeToString. reflexivity.
Qed.

Lemma openLine_trimmed n : TrimSpace (openLine n) = openLine n.
Proof.
  apply TrimSpace_plain; [reflexivity |].
  unfold openLine. rewrite !rev_app. reflexivity.
Qed.

Lemma turn_marker `{J : Json} fuel lines i content line n endI :
  i < length lines -> lineAt lines i = line ->
  (TrimSpace line =s "") = false ->
  HasPrefix (TrimSpace line) preserveStart = true ->
  parsePreservedMarker lines i = (Some n, endI) ->
  markdownToADF_loop (S fuel) lines i content
  = markdownToADF_loop fuel lines endI (content ++ [n]).
Proof.
  intros Hi Hl Hb Hm Hp. cbn [markdownToADF_loop].
  destruct (Nat.leb_spec (length lines) i); [lia |].
  now rewrite Hl, Hb, Hm, Hp.
Qed.

Lemma render_restorable `{J : Json} ns p :
  Forall Restorable ns ->
  concatAll (map (fun n => renderNode n p) ns)
  = Some (fold_right (fun l acc => l +:+ str LF +:+ acc) "" (flat_map markerBlock ns)).
Proof.
  induction 1 as [|n ns (Htag & js & Hjs & _) _ IH]; [reflexivity |].
  cbn [map concatAll flat_map]. rewrite (renderNode_preserved n p Htag), IH.
  unfold markerBlock at 2. rewrite Hjs, (writePreservedMarker_lines n js Hjs).
  cbn [app fold_right]. unfold str.
  repeat (rewrite ?sapp_assoc; cbn [String.append]). reflexivity.
Qed.

Lemma markerBlock_one_line `{J : Json} ns :
  Forall Restorable ns ->
  Forall (fun l => mem LF l = false) (flat_map markerBlock ns).
Proof.
  induction 1 as [|n ns (Htag & js & Hjs & _) _ IH]; [constructor |].
  cbn [flat_map]. unfold markerBlock at 1. rewrite Hjs. cbn [app].
  constructor; [apply openLine_one_line; now apply preserved_description_one_line |].
  constructor; [apply dataLine_one_line |]. constructor; [reflexivity | exact IH].
Qed.

Lemma loop_restorable `{J : Json} ns : forall pre content fuel,
  Forall Restorable ns ->
  markdownToADF_loop (length ns + 2 + fuel) (pre ++ flat_map markerBlock ns ++ [""])
    (length pre) content
  = Some (content ++ ns).
Proof.
  induction ns as [|n ns IH]; intros pre content fuel Hall.
  - cbn [length flat_map app Nat.add].
    rewrite turn_blank; [| rewrite length_app; cbn; lia | now rewrite lineAt_middle].
    rewrite turn_end; [now rewrite app_nil_r | rewrite length_app; cbn; lia].
  - apply Forall_cons_1 in Hall as [(Htag & js & Hjs & Hback) Hall].
    cbn [flat_map length Nat.add]. unfold markerBlock at 1. rewrite Hjs.
    rewrite <- !app_assoc. cbn [app].
    rewrite (turn_marker _ _ (length pre) content (openLine n) n (length pre + 3)).
    + replace (pre ++ openLine n :: dataLine js :: preserveEnd :: flat_map markerBlock ns ++ [""])
        with ((pre ++ [openLine n; dataLine js; preserveEnd]) ++ flat_map markerBlock ns ++ [""])
        by (now rewrite <- app_assoc).
      replace (length pre + 3) with (length (pre ++ [openLine n; dataLine js; preserveEnd]))
        by (rewrite length_app; reflexivity).
      rewrite (IH _ _ fuel Hall). now rewrite <- app_assoc.
    + rewrite length_app. cbn [length]. lia.
    + apply lineAt_middle.
    + now rewrite openLine_trimmed.
    + rewrite openLine_trimmed. apply prefix_app.
    + rewrite parsePreservedMarker_three. now rewrite Hback.
Qed.

(** X14: a document of preserved nodes comes back as it was.  When every
    node of the document has one of the preserved tags and is written and
    read back by the JSON library, the text that the renderer returns is
    parsed, with one turn per node and two more, to that very document:
    the marker blocks carry the nodes through the markdown text. *)
Theorem preserved_document_round_trip (J : Json) (ns : list ADFNode) :
  Forall Restorable ns ->
  exists md,
    renderADF (docNode ns) = Some md /\
    forall fuel, markdownToADF (length ns + 2 + fuel) md = Some (docNode ns).
Proof.
  intros Hall. eexists. split.
  - unfold renderADF. cbn [docNode renderNode Type_ Content String.eqb Ascii.eqb Bool.eqb].
    now apply render_restorable.
  - intros fuel. unfold markdownToADF.
    rewrite Split_lines by now apply markerBlock_one_line.
    change (Split "" LF) with [""].
    pose proof (loop_restorable ns [] [] fuel Hall) as H. cbn [app] in H.
    change (length (@nil string)) with 0 in H. now rewrite H.
Qed.

Lemma preserved_document_round_trip_witness :
  exists md,
    renderADF (J := tagOnlyJson) (docNode [mediaSingle; node "panel" []]) = Some md /\
    forall fuel,
      markdownToADF (J := tagOnlyJson) (length [mediaSingle; node "panel" []] + 2 + fuel) md
      = Some (docNode [mediaSingle; node "panel" []]).
Proof.
  apply (preserved_document_round_trip tagOnlyJson [mediaSingle; node "panel" []]).
  repeat constructor; eexists; split; reflexivity.
Defined.

(** X15: the line written for a node that could not be serialized stops
    the parser.  When [json.Marshal] fails on a node with a preserved tag,
    the renderer writes one comment line in place of the marker block;
    that line opens a marker block for the parser, which finds no data
    line after it and never gets past it. *)
Theorem unserializable_node_stops_parser (J : Json) (n : ADFNode) :
  isOneOf (Type_ n) preservedTags = true -> json_Marshal n = None ->
  renderADF (docNode [n]) = Some (failureLine n +:+ str LF) /\
  forall fuel, markdownToADF fuel (failureLine n +:+ str LF) = None.
Proof.
  intros Htag Hjs. split.
  - unfold renderADF.
    cbn [docNode renderNode Type_ Content String.eqb Ascii.eqb Bool.eqb map concatAll].
    fold (renderNode n). rewrite (renderNode_preserved n "" Htag).
    unfold writePreservedMarker, failureLine. rewrite Hjs.
    cbn [concatAll]. rewrite sapp_nil_r, ?sapp_assoc. reflexivity.
  - intros fuel. unfold markdownToADF.
    assert (Hone : mem LF (failureLine n) = false).
    { unfold failureLine. rewrite !mem_app, (preserved_description_one_line n Htag).
      reflexivity. }
    change (failureLine n +:+ str LF) with (failureLine n +:+ String LF "").
    rewrite Split_app by exact Hone. change (Split "" LF) with [""].
    assert (Htrim : TrimSpace (failureLine n) = failureLine n).
    { apply TrimSpace_plain; [reflexivity |]. unfold failureLine. rewrite !rev_app. reflexivity. }
    assert (Hp : HasPrefix (failureLine n) preserveStart = true).
    { unfold failureLine.
      change "<!-- PRESERVED: " with (preserveStart +:+ " "). rewrite sapp_assoc.
      apply prefix_app. }
    rewrite (stuck_forever [failureLine n; ""] 0 []); [reflexivity |].
    intros k.
    assert (Ht : exists r, TrimSpace (lineAt [failureLine n; ""] 0) = String "<" r).
    { change (lineAt [failureLine n; ""] 0) with (failureLine n). rewrite Htrim.
      unfold failureLine. now eexists. }
    destruct Ht as [r Ht].
    apply (turn_stuck k [failureLine n; ""] 0 [] "<" r); [cbn; lia | exact Ht | auto | | | | ].
    + now destruct (HasPrefix (String "<" r) preserveStart).
    + rewrite (no_heading (lineAt [failureLine n; ""] 0) "<" r Ht); [reflexivity | discriminate].
    + reflexivity.
    + unfold paraStop. change (lineAt [failureLine n; ""] 0) with (failureLine n).
      rewrite Htrim, Hp. now rewrite orb_true_r.
Qed.

Lemma unserializable_node_stops_parser_witness :
  renderADF (J := tagOnlyJson) (docNode [panelWithText])
    = Some (failureLine panelWithText +:+ str LF) /\
  forall fuel,
    markdownToADF (J := tagOnlyJson) fuel (failureLine panelWithText +:+ str LF) = None.
Proof.
  apply (unserializable_node_stops_parser tagOnlyJson panelWithText); reflexivity.
Defined.
(** ** The renderer returns *)

Lemma concatAll_some {A} (f : A -> option string) l :
  (forall x, In x l -> exists s, f x = Some s) -> exists s, concatAll (map f l) = Some s.
Proof.
  induction l as [|x l IH]; intros H; [now exists "" |].
  destruct (H x (or_introl eq_refl)) as [s Hs].
  destruct IH as [t Ht]; [intros y Hy; apply H; now right |].
  cbn [map concatAll]. rewrite Hs, Ht. eauto.
Qed.

Lemma concatAll_mapi_some {A} (f : nat -> A -> option string) l : forall i0,
  (forall i x, In x l -> exists s, f i x = Some s) ->
  exists s, concatAll (mapi f i0 l) = Some s.
Proof.
  induction l as [|x l IH]; intros i0 H; [now exists "" |].
  destruct (H i0 x (or_introl eq_refl)) as [s Hs].
  destruct (IH (S i0)) as [t Ht]; [intros i y Hy; apply H; now right |].
  rewrite mapi_cons. cbn [concatAll]. rewrite Hs, Ht. eauto.
Qed.

Lemma sequence_some {A B} (f : A -> option B) l :
  (forall x, In x l -> exists s, f x = Some s) -> exists s, sequence (map f l) = Some s.
Proof.
  induction l as [|x l IH]; intros H; [now exists [] |].
  destruct (H x (or_introl eq_refl)) as [s Hs].
  destruct IH as [t Ht]; [intros y Hy; apply H; now right |].
  cbn [map sequence]. rewrite Hs, Ht. eauto.
Qed.

Lemma child_size n c : In c (Content n) -> nodeSize c < nodeSize n.
Proof.
  destruct n as [ty content text attrs marks]. cbn [Content nodeSize]. intros H.
  induction content as [|x content IH]; [contradiction |].
  cbn [map]. change (list_sum (nodeSize x :: map nodeSize content))
    with (nodeSize x + list_sum (map nodeSize content)).
  destruct H as [-> | H]; [lia |]. specialize (IH H). lia.
Qed.

Lemma Below_size n m : Below n m -> nodeSize m < nodeSize n.
Proof.
  induction 1 as [n c H | n c m H _ IH]; [now apply child_size |].
  apply child_size in H. lia.
Qed.

Lemma child_fine n c : levelsFine n = true -> In c (Content n) -> levelsFine c = true.
Proof.
  destruct n as [ty content text attrs marks]. cbn [levelsFine Content]. intros H Hc.
  apply andb_prop in H as [_ H]. rewrite forallb_forall in H. now apply H.
Qed.

Lemma Below_fine n m : levelsFine n = true -> Below n m -> levelsFine m = true.
Proof.
  intros Hn H. induction H as [n c H | n c m H _ IH]; [now apply (child_fine n) |].
  apply IH. now apply (child_fine n).
Qed.

Lemma keep_some {A B} (f : A -> option (option B)) l :
  (forall x y, In x l -> f x = Some y -> exists s, y = Some s) ->
  exists s, sequence (keep (map f l)) = Some s.
Proof.
  induction l as [|x l IH]; intros H; [now exists [] |].
  destruct IH as [t Ht]; [intros y z Hy; apply H; now right |].
  cbn [map keep]. destruct (f x) as [y|] eqn:E; [| eauto].
  destruct (H x y (or_introl eq_refl) E) as [s ->].
  cbn [keep sequence]. rewrite Ht. eauto.
Qed.

Lemma render_total `{J : Json} : forall k n p,
  nodeSize n <= k -> levelsFine n = true -> exists s, renderNode n p = Some s.
Proof.
  induction k as [|k IH]; intros n p Hsize Hfine.
  { destruct n. cbn [nodeSize] in Hsize. lia. }
  assert (Hbelow : forall m q, Below n m -> exists s, renderNode m q = Some s).
  { intros m q Hm. apply IH; [| now apply (Below_fine n)].
    apply Below_size in Hm. lia. }
  assert (Hkids : forall q c, In c (Content n) -> exists s, renderNode c q = Some s).
  { intros q c Hc. apply Hbelow. now constructor. }
  assert (Hall : forall q, exists s,
            concatAll (map (fun c => renderNode c q) (Content n)) = Some s).
  { intros q. apply concatAll_some. apply Hkids. }
  clear IH Hsize.
  destruct n as [ty content text attrs marks]. cbn [Content] in *.
  cbn [renderNode Type_ Content Attrs Text Marks].
  destruct (ty =s "doc"); [apply Hall |].
  destruct (ty =s "paragraph"); [destruct (Hall "") as [s ->]; eauto |].
  destruct (ty =s "heading") eqn:Hh.
  { cbn [levelsFine Type_ Attrs] in Hfine. rewrite Hh in Hfine.
    apply andb_prop in Hfine as [Hl _].
    destruct (headingLevel attrs) as [level|]; [| discriminate].
    apply Z.leb_le in Hl. destruct (Z.ltb_spec level 0); [lia |].
    destruct (Hall "") as [s ->]. eauto. }
  destruct (ty =s "bulletList"); [apply Hall |].
  destruct (ty =s "orderedList").
  { apply concatAll_mapi_some. intros i c Hc. now apply Hkids. }
  destruct (ty =s "listItem").
  { apply concatAll_mapi_some. intros i c Hc.
    destruct ((i =? 0) && (Type_ c =s "paragraph")).
    - destruct (concatAll_some (fun x => renderNode x "") (Content c)) as [s ->]; [| eauto].
      intros g Hg. apply Hbelow. apply (Below_more _ c); [exact Hc | now constructor].
    - destruct ((Type_ c =s "bulletList") || (Type_ c =s "orderedList")).
      + apply concatAll_mapi_some. intros j g Hg.
        apply Hbelow. apply (Below_more _ c); [exact Hc | now constructor].
      + now apply Hkids. }
  destruct (ty =s "codeBlock"); [eauto |].
  destruct (ty =s "blockquote"); [destruct (Hall "") as [s ->]; eauto |].
  destruct (ty =s "rule"); [eauto |].
  destruct (ty =s "table").
  { unfold renderTable_with. destruct content as [|row rows] eqn:E; [eauto |].
    rewrite <- E in *. clear E.
    destruct (keep_some (fun row => if Type_ row =s "tableRow"
                then Some (sequence (map (cellText renderNode) (Content row))) else None)
                content) as [rs ->]; [| eauto].
    intros r y Hr Hy. destruct (Type_ r =s "tableRow"); [| discriminate].
    injection Hy as <-. apply sequence_some. intros cell Hcell.
    unfold cellText, cellInline.
    destruct (concatAll_some (fun para =>
                concatAll (map (fun c => renderNode c "") (Content para))) (Content cell))
      as [buf ->]; [| eauto].
    intros para Hpara. apply concatAll_some. intros c Hc. apply Hbelow.
    apply (Below_more _ r); [exact Hr |]. apply (Below_more _ cell); [exact Hcell |].
    apply (Below_more _ para); [exact Hpara | now constructor]. }
  destruct (ty =s "text"); [eauto |].
  destruct (ty =s "hardBreak"); [eauto |].
  destruct (ty =s "mention"); [eauto |].
  destruct (ty =s "inlineCard"); [eauto |].
  destruct (ty =s "emoji"); [eauto |].
  destruct (isOneOf ty preservedTags); [eauto |].
  apply Hall.
Qed.


(** ** What the parser builds *)

Lemma isOneOf_In tag ts : In tag ts -> isOneOf tag ts = true.
Proof.
  unfold isOneOf. intros H. apply existsb_exists. exists tag. split; [exact H |].
  apply String.eqb_refl.
Qed.

Lemma made_node ty content text attrs :
  isOneOf ty parserTags = true -> (ty =s "heading") = false ->
  forallb parserMade content = true ->
  parserMade (mkNode ty content text attrs []) = true.
Proof.
  intros Hty Hh Hc. cbn [parserMade Type_ Marks Content Attrs forallb].
  now rewrite Hty, Hh, Hc.
Qed.

Lemma made_inline n : inlineNode n -> parserMade n = true.
Proof.
  destruct n as [ty content text attrs marks]. intros (Hty & Hc & Hm).
  cbn [Type_ Content Marks] in *. subst ty content.
  cbn [parserMade Type_ Marks Content Attrs forallb String.eqb Ascii.eqb Bool.eqb].
  rewrite andb_true_r. change (isOneOf "text" parserTags) with true. cbn [andb].
  rewrite andb_true_r.
  destruct Hm as [-> | (m & -> & Hm)]; [reflexivity |].
  cbn [forallb]. now rewrite (isOneOf_In _ _ Hm).
Qed.

Lemma made_parseInline text : forallb parserMade (parseInline text) = true.
Proof.
  apply forallb_forall. intros n Hn. apply made_inline.
  pose proof (parseInline_inline text) as H. rewrite List.Forall_forall in H. now apply H.
Qed.

Lemma forallb_app_true {A} (p : A -> bool) a b :
  forallb p a = true -> forallb p b = true -> forallb p (a ++ b) = true.
Proof. intros Ha Hb. now rewrite forallb_app, Ha, Hb. Qed.

Lemma made_paragraph text : parserMade (node "paragraph" (parseInline text)) = true.
Proof. apply made_node; [reflexivity | reflexivity | apply made_parseInline]. Qed.

Lemma made_heading level text :
  0 < level <= 6 ->
  parserMade (mkNode "heading" (parseInline text) "" {[ "level" := AInt (Z.of_nat level) ]} [])
  = true.
Proof.
  intros H. cbn [parserMade Type_ Marks Content Attrs forallb String.eqb Ascii.eqb Bool.eqb].
  rewrite lookup_singleton_eq, made_parseInline.
  destruct (Z.leb_spec 1 (Z.of_nat level)); [| lia].
  destruct (Z.leb_spec (Z.of_nat level) 6); [reflexivity | lia].
Qed.

Lemma parseHeading_level line : fst (parseHeading line) <= 6.
Proof.
  unfold parseHeading. destruct (negb (HasPrefix line "#")); [cbn; lia |].
  destruct (Nat.ltb_spec 6 (countHashes line)); cbn; lia.
Qed.

Lemma made_item para more :
  parserMade para = true -> forallb parserMade more = true ->
  parserMade (node "listItem" (para :: more)) = true.
Proof.
  intros Hp Hm. apply made_node; [reflexivity | reflexivity |].
  cbn [forallb]. now rewrite Hp, Hm.
Qed.

Lemma parseList_made : forall fuel lines i (ordered : bool) items items' newI,
  parseList_loop fuel lines i ordered items = Some (items', newI) ->
  forallb parserMade items = true -> forallb parserMade items' = true.
Proof.
  induction fuel as [|fuel IH]; intros lines i ordered items items' newI H Hm; [discriminate |].
  cbn [parseList_loop] in H.
  destruct (length lines <=? i); [now injection H as <- <- |].
  destruct (FindStringSubmatchIndex (if ordered then ordRe else listRe) (lineAt lines i))
    as [[[a e] cs]|]; [| now injection H as <- <-].
  destruct ((i + 1 <? length lines) && MatchString indentedBulletRe (lineAt lines (i + 1))).
  - destruct (parseList_loop fuel _ 0 false []) as [[subItems k]|] eqn:Hsub; [| discriminate].
    apply IH in H; [exact H |]. apply forallb_app_true; [exact Hm |].
    cbn [forallb]. rewrite andb_true_r. apply made_item; [apply made_paragraph |].
    cbn [forallb]. rewrite andb_true_r.
    apply made_node; [reflexivity | reflexivity |]. now apply (IH _ _ _ _ _ _ Hsub).
  - destruct ((i + 1 <? length lines) && MatchString indentedOrdRe (lineAt lines (i + 1))).
    + destruct (parseList_loop fuel _ 0 true []) as [[subItems k]|] eqn:Hsub; [| discriminate].
      apply IH in H; [exact H |]. apply forallb_app_true; [exact Hm |].
      cbn [forallb]. rewrite andb_true_r. apply made_item; [apply made_paragraph |].
      cbn [forallb]. rewrite andb_true_r.
      apply made_node; [reflexivity | reflexivity |]. now apply (IH _ _ _ _ _ _ Hsub).
    + apply IH in H; [exact H |]. apply forallb_app_true; [exact Hm |].
      cbn [forallb]. rewrite andb_true_r. apply made_item; [apply made_paragraph | reflexivity].
Qed.

Lemma made_row cells isHeader : parserMade (buildTableRow cells isHeader) = true.
Proof.
  unfold buildTableRow. apply made_node; [reflexivity | reflexivity |].
  rewrite forallb_map. apply forallb_forall. intros text _. cbv beta.
  apply made_node; [now destruct isHeader | now destruct isHeader |].
  cbn [forallb]. now rewrite made_paragraph.
Qed.

Lemma made_table lines i t newI :
  parseMarkdownTable lines i = (Some t, newI) -> parserMade t = true.
Proof.
  unfold parseMarkdownTable.
  destruct (map TrimSpace _) as [|first [|second rest]]; try discriminate.
  intros H. injection H as <- _.
  cbn [parserMade Type_ Marks Content Attrs forallb String.eqb Ascii.eqb Bool.eqb].
  change (isOneOf "table" parserTags) with true. cbn [andb].
  destruct (isSeparatorLine second); cbn [forallb]; rewrite ?made_row; cbn [andb];
    rewrite forallb_map; apply forallb_forall; intros l _; apply made_row.
Qed.

Lemma mem_Join c sep qs :
  mem c sep = false -> Forall (fun l => mem c l = false) qs -> mem c (Join qs sep) = false.
Proof.
  intros Hsep. unfold Join. induction 1 as [|q qs Hq _ IH]; [reflexivity |].
  destruct qs as [|q' qs]; [exact Hq |].
  change (String.concat sep (q :: q' :: qs))
    with (q +:+ sep +:+ String.concat sep (q' :: qs)).
  now rewrite !mem_app, Hq, Hsep, IH.
Qed.

Lemma mem_TrimPrefix c l p : mem c l = false -> mem c (TrimPrefix l p) = false.
Proof.
  intros H. unfold TrimPrefix. destruct (HasPrefix l p); [now apply mem_drop | exact H].
Qed.

Lemma loop_made `{J : Json} : forall fuel lines i content c,
  Forall (fun l => mem "<" l = false) lines ->
  markdownToADF_loop fuel lines i content = Some c ->
  forallb parserMade content = true -> forallb parserMade c = true.
Proof.
  induction fuel as [|fuel IH]; intros lines i content c Hlines H Hm; [discriminate |].
  cbn [markdownToADF_loop] in H.
  destruct (Nat.leb_spec (length lines) i) as [Hi | Hi]; [now injection H as <- |].
  assert (Hlt : mem "<" (lineAt lines i) = false).
  { unfold lineAt. destruct (lines !! i) as [l|] eqn:E; [| reflexivity].
    exact (Forall_lookup_1 _ _ _ _ Hlines E). }
  assert (Hadd : forall j x c', markdownToADF_loop fuel lines j (content ++ [x]) = Some c' ->
                   parserMade x = true -> forallb parserMade c' = true).
  { intros j x c' Hj Hx. apply (IH _ _ _ _ Hlines Hj). apply forallb_app_true; [exact Hm |].
    cbn [forallb]. now rewrite Hx. }
  remember (lineAt lines i) as line eqn:Eline.
  destruct (TrimSpace line =s ""); [now apply (IH _ _ _ _ Hlines H) |].
  unfold preserveStart at 1 in H. rewrite (absent_not_prefix "<" _ line Hlt) in H.
  destruct (isRule line); [now apply (Hadd _ _ _ H) |].
  destruct (Nat.ltb_spec 0 (fst (parseHeading line))) as [Hh | Hh].
  { pose proof (parseHeading_level line) as Hl6.
    destruct (parseHeading line) as [level text]. cbn [fst] in *.
    apply (Hadd _ _ _ H). apply made_heading. lia. }
  destruct (HasPrefix (TrimSpace line) "```").
  { apply (Hadd _ _ _ H). apply made_node; reflexivity. }
  destruct (HasPrefix line "> " || (line =s ">")).
  { destruct (markdownToADF_loop fuel (Split _ LF) 0 []) as [inner|] eqn:Hinner;
      [| discriminate].
    apply (Hadd _ _ _ H). apply made_node; [reflexivity | reflexivity |].
    refine (IH _ _ _ _ _ Hinner eq_refl).
    apply Split_absent, mem_Join; [reflexivity |].
    apply Forall_map. eapply Forall_impl; [apply Forall_takeWhile, Forall_drop, Hlines |].
    intros l Hl. now apply mem_TrimPrefix, mem_TrimPrefix. }
  destruct (HasPrefix line "- " || HasPrefix line "* ").
  { unfold parseList in H.
    destruct (parseList_loop fuel lines i false []) as [[items newI]|] eqn:Hl; [| discriminate].
    apply (Hadd _ _ _ H). apply made_node; [reflexivity | reflexivity |].
    now apply (parseList_made _ _ _ _ _ _ _ Hl). }
  destruct (MatchString ordRe line).
  { unfold parseList in H.
    destruct (parseList_loop fuel lines i true []) as [[items newI]|] eqn:Hl; [| discriminate].
    apply (Hadd _ _ _ H). apply made_node; [reflexivity | reflexivity |].
    now apply (parseList_made _ _ _ _ _ _ _ Hl). }
  destruct (if HasPrefix (TrimSpace line) "|" then parseMarkdownTable lines i else (None, i))
    as [[t|] newI] eqn:Ht.
  { apply (Hadd _ _ _ H).
    destruct (HasPrefix (TrimSpace line) "|"); [| discriminate].
    now apply (made_table lines i t newI). }
  destruct (takeWhile (fun l => negb (paraStop l)) (skipn i lines)) as [|l ls].
  - now apply (IH _ _ _ _ Hlines H).
  - apply (Hadd _ _ _ H). apply made_paragraph.
Qed.

Lemma parsed_made `{J : Json} fuel md d :
  mem "<" md = false -> markdownToADF fuel md = Some d -> parserMade d = true.
Proof.
  intros Hlt H. unfold markdownToADF in H.
  destruct (markdownToADF_loop fuel (Split md LF) 0 []) as [c|] eqn:E; [| discriminate].
  injection H as <-. apply made_node; [reflexivity | reflexivity |].
  apply (loop_made fuel (Split md LF) 0 [] c); [now apply Split_absent | exact E | reflexivity].
Qed.

(** X17: what the parser builds.  On a text without [<] (so without
    marker blocks), every node of the tree that [markdownToADF] returns
    has one of fourteen tags: doc, paragraph, heading, rule, codeBlock,
    blockquote, bulletList, orderedList, listItem, table, tableRow,
    tableHeader, tableCell and text; every mark is link, strong, strike,
    code or em; every heading carries a level from 1 to 6, as an [int].
    No hard break, mention, emoji or inline card, and no underline, ever
    comes out of the parser. *)
Theorem parser_builds_known_nodes (J : Json) (fuel : nat) (md : string) (d : ADFNode) :
  mem "<" md = false -> markdownToADF fuel md = Some d -> parserMade d = true.
Proof.
  intros Hlt H. unfold markdownToADF in H.
  destruct (markdownToADF_loop fuel (Split md LF) 0 []) as [c|] eqn:E; [| discriminate].
  injection H as <-.
  cbn [docNode parserMade Type_ Marks Content Attrs forallb String.eqb Ascii.eqb Bool.eqb].
  change (isOneOf "doc" parserTags) with true. cbn [andb].
  apply (loop_made fuel (Split md LF) 0 [] c); [now apply Split_absent | exact E | reflexivity].
Qed.

Lemma parser_builds_known_nodes_witness :
  exists d,
    markdownToADF (J := tagOnlyJson) 30 mixedDocument = Some d /\ parserMade d = true.
Proof.
  destruct (markdownToADF (J := tagOnlyJson) 30 mixedDocument) as [d|] eqn:E;
    [| vm_compute in E; discriminate E].
  exists d. split; [reflexivity |].
  apply (parser_builds_known_nodes tagOnlyJson 30 mixedDocument d); [reflexivity | exact E].
Defined.

Lemma made_fine : forall k n, nodeSize n <= k -> parserMade n = true -> levelsFine n = true.
Proof.
  induction k as [|k IH]; intros n Hsize Hm.
  { destruct n. cbn [nodeSize] in Hsize. lia. }
  assert (Hkids : forall c, In c (Content n) -> levelsFine c = true).
  { intros c Hc. apply IH.
    - apply child_size in Hc. lia.
    - destruct n as [ty content text attrs marks]. cbn [parserMade Content] in *.
      apply andb_prop in Hm as [_ Hm]. rewrite forallb_forall in Hm. now apply Hm. }
  destruct n as [ty content text attrs marks].
  cbn [parserMade levelsFine Type_ Attrs Content Marks] in *.
  apply andb_prop in Hm as [Hm _]. apply andb_prop in Hm as [_ Hl].
  apply andb_true_intro. split; [| now apply forallb_forall].
  destruct (ty =s "heading"); [| reflexivity].
  unfold headingLevel. destruct (attrs !! "level") as [[| | k' | | | |]|]; try discriminate.
  reflexivity.
Qed.

(** X18: the way from markdown to a tree and back to markdown does not
    stop in the renderer.  Whenever [markdownToADF] returns a tree for a
    text without [<], [renderADF] returns a text for that tree. *)
Theorem parsed_tree_is_rendered (J : Json) (fuel : nat) (md : string) (d : ADFNode) :
  mem "<" md = false -> markdownToADF fuel md = Some d ->
  exists md', renderADF d = Some md'.
Proof.
  intros Hlt H. unfold renderADF. apply (render_total (nodeSize d)); [lia |].
  apply (made_fine (nodeSize d)); [lia |]. now apply (parsed_made fuel md).
Qed.

Lemma parsed_tree_is_rendered_witness :
  exists d md',
    markdownToADF (J := tagOnlyJson) 30 mixedDocument = Some d /\
    renderADF (J := tagOnlyJson) d = Some md'.
Proof.
  destruct (markdownToADF (J := tagOnlyJson) 30 mixedDocument) as [d|] eqn:E;
    [| vm_compute in E; discriminate E].
  destruct (parsed_tree_is_rendered tagOnlyJson 30 mixedDocument d eq_refl E) as [md' H].
  exists d, md'. split; [reflexivity | exact H].
Defined.
